(** * Lead quality engine: feature extraction, scoring and CRM export

    A shallow embedding of [utils/data_processor.py], [models/lead_scorer.py],
    [utils/hubspot_formatter.py], the data path of [utils/hubspot_api.py] and
    [load_and_process_data] of [app.py], with the properties the
    specification states about them and further properties of the code.

    Conventions of the embedding.
    - The floats in the cells of a table are rationals ([Q]), a cell
      [VNum q] standing for the float that the decimal [q] writes: the code
      compares them against literals and divides a count by four.  Where
      the code adds floats, in the label synthesizer, they are binary64
      numbers and every sum is rounded ([Float]).  NaN is a separate
      constructor of [value].
    - A Python [str] is a [string]; each character stands for one code point
      below 256, and [str.lower], [str.strip] and [str.isspace] behave on
      them as Python's do on those code points.
    - A pandas row is a finite map from column names to cells, a DataFrame
      is its column index together with its rows.
    - A raised exception is the [Raise] alternative of [result].
    - The random source, the fitted scaler and classifier and the
      formatting of floats belong to numpy, scikit-learn and the Python
      runtime; they are parameters ([Library], [Runtime], the noise stream)
      and the properties hold for every choice of them.
    - The HubSpot service is a parameter as well: its answer to a request
      may depend on the request and on how many requests came before. *)

From Stdlib Require Import QArith Qminmax Qround Qpower Ascii String Lqa Sorted.
From stdpp Require Import base gmap strings list.

Local Open Scope string_scope.

(** ** Cells, rows and exceptions *)

Inductive value : Type :=
| VNone
| VNaN
| VStr (s : string)
| VNum (q : Q).

Inductive exn : Type :=
| KeyError (key : string)
| ValueError (msg : string)
| TypeError
| AttributeError
| IndexError
| NotFittedError.

Inductive result (A : Type) : Type :=
| Ok (a : A)
| Raise (e : exn).

Arguments Ok {A} a.
Arguments Raise {A} e.

#[global] Instance result_ret : MRet result := fun A a => Ok a.

#[global] Instance result_bind : MBind result := fun A B k m =>
  match m with
  | Ok a => k a
  | Raise e => Raise e
  end.

(** [pd.isna] on a scalar. *)
Definition pd_isna (v : value) : bool :=
  match v with
  | VNone | VNaN => true
  | _ => false
  end.

(** [v == s] for a string literal [s]. *)
Definition eq_str (v : value) (s : string) : bool :=
  match v with
  | VStr t => String.eqb t s
  | _ => false
  end.

(** Truth value of a cell in a boolean context: [None], the empty string and
    zero are false, everything else, NaN included, is true. *)
Definition truthy (v : value) : bool :=
  match v with
  | VNone => false
  | VNaN => true
  | VStr s => negb (String.eqb s "")
  | VNum q => negb (Qeq_bool q 0)
  end.

(** ** Text operations *)

Module Str.

Definition code (c : ascii) : nat := nat_of_ascii c.

(** [str.isspace] on one code point below 256. *)
Definition isspace (c : ascii) : bool :=
  let n := code c in
  (((9 <=? n) && (n <=? 13)) || ((28 <=? n) && (n <=? 32))
   || (n =? 133) || (n =? 160))%nat.

(** [\d] on one code point below 256. *)
Definition isdigit (c : ascii) : bool :=
  let n := code c in ((48 <=? n) && (n <=? 57))%nat.

(** [str.lower] on one code point below 256. *)
Definition lower_char (c : ascii) : ascii :=
  let n := code c in
  if (((65 <=? n) && (n <=? 90))
      || ((192 <=? n) && (n <=? 222) && negb (n =? 215)))%nat
  then ascii_of_nat (n + 32) else c.

Fixpoint lower (s : string) : string :=
  match s with
  | EmptyString => EmptyString
  | String c s' => String (lower_char c) (lower s')
  end.

Fixpoint startswith (p s : string) : bool :=
  match p, s with
  | EmptyString, _ => true
  | String a p', String b s' => Ascii.eqb a b && startswith p' s'
  | String _ _, EmptyString => false
  end.

(** [kw in s] on two strings. *)
Fixpoint contains (kw s : string) : bool :=
  startswith kw s ||
  match s with
  | EmptyString => false
  | String _ s' => contains kw s'
  end.

Fixpoint lstrip (s : string) : string :=
  match s with
  | EmptyString => EmptyString
  | String c s' => if isspace c then lstrip s' else s
  end.

Fixpoint rstrip (s : string) : string :=
  match s with
  | EmptyString => EmptyString
  | String c s' =>
      match rstrip s' with
      | EmptyString => if isspace c then EmptyString else String c EmptyString
      | r => String c r
      end
  end.

Definition strip (s : string) : string := rstrip (lstrip s).

(** [s.split(sep)] for a one-character separator, with Python's optional
    [maxsplit] ([None]: no limit). *)
Fixpoint split (sep : ascii) (maxsplit : option nat) (s : string) : list string :=
  match s with
  | EmptyString => [EmptyString]
  | String c s' =>
      let go := negb (match maxsplit with Some O => true | _ => false end) in
      if Ascii.eqb c sep && go
      then EmptyString :: split sep (Nat.pred <$> maxsplit) s'
      else match split sep maxsplit s' with
           | h :: t => String c h :: t
           | [] => [String c EmptyString]
           end
  end.

(** [re.sub(r'[^\d]', '', s)]: keep the digits. *)
Fixpoint digits_only (s : string) : string :=
  match s with
  | EmptyString => EmptyString
  | String c s' => if isdigit c then String c (digits_only s') else digits_only s'
  end.

Fixpoint mem (s : string) (l : list string) : bool :=
  match l with
  | [] => false
  | x :: l' => String.eqb s x || mem s l'
  end.

End Str.

(** ** Regular expressions, as far as the e-mail pattern needs them *)

Module Re.

Inductive regex : Type :=
| Void
| Eps
| Chr (c : ascii)
| NotChr (c : ascii)
| Cat (r1 r2 : regex)
| Star (r : regex).

Definition Plus (r : regex) : regex := Cat r (Star r).

Fixpoint nullable (r : regex) : bool :=
  match r with
  | Void => false
  | Eps => true
  | Chr _ => false
  | NotChr _ => false
  | Cat r1 r2 => nullable r1 && nullable r2
  | Star _ => true
  end.

(** Derivatives need a union; it is kept as a list of alternatives. *)
Fixpoint deriv (c : ascii) (r : regex) : list regex :=
  match r with
  | Void => []
  | Eps => []
  | Chr a => if Ascii.eqb a c then [Eps] else []
  | NotChr a => if Ascii.eqb a c then [] else [Eps]
  | Cat r1 r2 =>
      ((fun d => Cat d r2) <$> deriv c r1)
      ++ (if nullable r1 then deriv c r2 else [])
  | Star r1 => (fun d => Cat d (Star r1)) <$> deriv c r1
  end.

Fixpoint accepts (rs : list regex) (s : string) : bool :=
  match s with
  | EmptyString => existsb nullable rs
  | String c s' => accepts (rs ≫= deriv c) s'
  end.

(** The pattern, between [^] and [$], matches the whole of [s]. *)
Definition fullmatch (r : regex) (s : string) : bool := accepts [r] s.

Fixpoint chop_newline (s : string) : option string :=
  match s with
  | EmptyString => None
  | String c EmptyString => if Ascii.eqb c "010"%char then Some EmptyString else None
  | String c s' => String c <$> chop_newline s'
  end.

(** [re.match('^' r '$', s)]: [$] stands at the end of the string or just
    before a newline that ends it. *)
Definition match_anchored (r : regex) (s : string) : bool :=
  fullmatch r s ||
  match chop_newline s with
  | Some s' => fullmatch r s'
  | None => false
  end.

End Re.

(** ** DataFrames and the object store *)

Record DataFrame : Type := mkDataFrame {
  columns : list string;
  rows : list (gmap string value)
}.

(** [row[key]] on a row yielded by [iterrows]. *)
Definition row_getitem (row : gmap string value) (key : string) : result value :=
  match row !! key with
  | Some v => Ok v
  | None => Raise (KeyError key)
  end.

(** [row.get(key, default)]. *)
Definition row_get (row : gmap string value) (key : string) (dflt : value) : value :=
  default dflt (row !! key).

Definition has_column (df : DataFrame) (key : string) : bool :=
  Str.mem key (columns df).

(** [df[key]]: the cells of one column, top to bottom. *)
Definition column (df : DataFrame) (key : string) : result (list value) :=
  if has_column df key
  then Ok ((fun row => row_get row key VNaN) <$> rows df)
  else Raise (KeyError key).

(** [df[key] = cells]: replaces the column, or appends it to the index. *)
Definition set_column (df : DataFrame) (key : string) (cells : list value)
  : result DataFrame :=
  if (length cells =? length (rows df))%nat
  then Ok {| columns := if has_column df key then columns df
                        else columns df ++ [key];
             rows := zip_with (fun row v => <[key := v]> row) (rows df) cells |}
  else Raise (ValueError "Length of values does not match length of index").

(** Apply [f] to the elements from left to right; the first exception ends
    the traversal.  [series.apply(f)] is the case of a column of cells. *)
Fixpoint traverse {A B} (f : A → result B) (l : list A) : result (list B) :=
  match l with
  | [] => Ok []
  | a :: l' => x ← f a; xs ← traverse f l'; Ok (x :: xs)
  end.

(** Python objects live in a store; a variable holds a reference. *)
Definition ref : Type := nat.

Definition M (A : Type) : Type := gmap ref DataFrame → result A * gmap ref DataFrame.

#[global] Instance M_ret : MRet M := fun A a h => (Ok a, h).

#[global] Instance M_bind : MBind M := fun A B k m h =>
  match m h with
  | (Ok a, h') => k a h'
  | (Raise e, h') => (Raise e, h')
  end.

Definition lift {A} (r : result A) : M A := fun h => (r, h).

Definition deref (r : ref) : M DataFrame := fun h =>
  match h !! r with
  | Some df => (Ok df, h)
  | None => (Raise (KeyError "dangling reference"), h)
  end.

(** A new object, at a reference that is not in use. *)
Definition alloc (df : DataFrame) : M ref := fun h =>
  let r := fresh (dom h) in (Ok r, <[r := df]> h).

Definition assign (r : ref) (df : DataFrame) : M unit := fun h =>
  (Ok tt, <[r := df]> h).

(** [df.copy()]: a new object with the same columns and cells. *)
Definition copy (r : ref) : M ref :=
  df ← deref r; alloc df.

(** [df[key]] through a reference. *)
Definition getitem (r : ref) (key : string) : M (list value) :=
  df ← deref r; lift (column df key).

(** [df[key] = cells] through a reference: the object is updated in place. *)
Definition setitem (r : ref) (key : string) (cells : list value) : M unit :=
  df ← deref r;
  df' ← lift (set_column df key cells);
  assign r df'.

(** ** utils/data_processor.py *)

Module LeadProcessor.

Local Open Scope Q_scope.

Definition decision_maker_titles : list string :=
  ["ceo"; "cto"; "vp"; "director"; "founder"; "president"].

Definition tech_industries : list string :=
  ["software"; "technology"; "saas"; "tech"].

(** [r'^[^@]+@[^@]+\.[^@]+$'] without its anchors. *)
Definition email_pattern : Re.regex :=
  Re.Cat (Re.Plus (Re.NotChr "@"))
    (Re.Cat (Re.Chr "@")
       (Re.Cat (Re.Plus (Re.NotChr "@"))
          (Re.Cat (Re.Chr ".") (Re.Plus (Re.NotChr "@"))))).

Definition personal_domains : list string :=
  ["gmail.com"; "yahoo.com"; "hotmail.com"; "outlook.com"].

Definition _score_email (email : value) : result Q :=
  if pd_isna email || eq_str email "N/A" then Ok 0.0
  else match email with
       | VStr s =>
           if negb (Re.match_anchored email_pattern s) then Ok 0.2
           else match Str.split "@" None s !! 1%nat with
                | Some d =>
                    let domain := Str.lower d in
                    Ok (if Str.mem domain personal_domains then 0.6 else 1.0)
                | None => Raise IndexError
                end
       | _ => Raise TypeError
       end.

Definition _score_phone (phone : value) : result Q :=
  if pd_isna phone || eq_str phone "N/A" then Ok 0.0
  else match phone with
       | VStr s =>
           let digits := Str.digits_only s in
           let n := String.length digits in
           if ((n =? 10) || (n =? 11))%nat then Ok 1.0 else Ok 0.3
       | _ => Raise TypeError
       end.

(** [for kw in kws: if kw in s: return ...] and [any(kw in s for kw in kws)] *)
Fixpoint any_in (kws : list string) (s : string) : bool :=
  match kws with
  | [] => false
  | kw :: kws' => if Str.contains kw s then true else any_in kws' s
  end.

Definition _score_title (title : value) : result Q :=
  if pd_isna title || eq_str title "N/A" then Ok 0.0
  else match title with
       | VStr s =>
           let title_lower := Str.lower s in
           if any_in decision_maker_titles title_lower then Ok 1.0
           else if any_in ["manager"; "lead"; "head"] title_lower then Ok 0.6
           else Ok 0.3
       | _ => Raise AttributeError
       end.

Definition _score_industry (industry : value) : result Q :=
  if pd_isna industry then Ok 0.5
  else match industry with
       | VStr s =>
           let industry_lower := Str.lower s in
           if any_in tech_industries industry_lower then Ok 1.0
           else Ok 0.7
       | _ => Raise AttributeError
       end.

Definition key_fields : list string :=
  ["Contact_Email"; "Contact_Phone"; "Contact_Name"; "Website"].

(** The inner loop of [_calculate_completeness] over [key_fields]. *)
Fixpoint count_filled (row : gmap string value) (fields : list string)
    (filled_count : nat) : result nat :=
  match fields with
  | [] => Ok filled_count
  | field :: fields' =>
      v ← row_getitem row field;
      count_filled row fields'
        (if negb (pd_isna v) && negb (eq_str v "N/A")
         then S filled_count else filled_count)
  end.

Definition completeness_of_row (row : gmap string value) : result Q :=
  filled_count ← count_filled row key_fields 0%nat;
  Ok (inject_Z (Z.of_nat filled_count) / inject_Z (Z.of_nat (length key_fields))).

Fixpoint completeness_loop (rs : list (gmap string value))
    (completeness_scores : list Q) : result (list Q) :=
  match rs with
  | [] => Ok completeness_scores
  | row :: rs' =>
      c ← completeness_of_row row;
      completeness_loop rs' (completeness_scores ++ [c])
  end.

Definition _calculate_completeness (df : DataFrame) : result (list Q) :=
  completeness_loop (rows df) [].

(** One statement [df_processed[feature] = df[source].apply(scorer)]. *)
Definition add_feature (df df_processed : ref) (feature source : string)
    (scorer : value → result Q) : M unit :=
  cells ← getitem df source;
  scores ← lift (traverse scorer cells);
  setitem df_processed feature (VNum <$> scores).

Definition process_leads (df : ref) : M ref :=
  df_processed ← copy df;
  _ ← add_feature df df_processed "email_quality" "Contact_Email" _score_email;
  _ ← add_feature df df_processed "phone_quality" "Contact_Phone" _score_phone;
  _ ← add_feature df df_processed "title_value" "Contact_Title" _score_title;
  frame ← deref df;
  completeness ← lift (_calculate_completeness frame);
  _ ← setitem df_processed "data_completeness" (VNum <$> completeness);
  _ ← add_feature df df_processed "industry_fit" "Industry" _score_industry;
  mret df_processed.

End LeadProcessor.

(** ** numpy, pandas and scikit-learn, as far as the scorer calls them *)

Local Open Scope Q_scope.

Definition Qgeb (a b : Q) : bool := Qle_bool b a.
Definition Qgtb (a b : Q) : bool := negb (Qle_bool a b).

(** [cell >= q]: NaN compares false, a string or [None] cannot be compared. *)
Definition cell_ge (v : value) (q : Q) : result bool :=
  match v with
  | VNum x => Ok (Qgeb x q)
  | VNaN => Ok false
  | _ => Raise TypeError
  end.

Fixpoint first_missing (df : DataFrame) (keys : list string) : option string :=
  match keys with
  | [] => None
  | k :: keys' => if has_column df k then first_missing df keys' else Some k
  end.

(** [df[keys].values]: one list of cells per row, in the order of [keys]. *)
Definition values_of (df : DataFrame) (keys : list string)
  : result (list (list value)) :=
  match first_missing df keys with
  | Some k => Raise (KeyError k)
  | None => Ok ((fun row => (fun k => row_get row k VNaN) <$> keys) <$> rows df)
  end.

(** What the numerical libraries compute is not in the repository; the
    scorer is stated over any implementation of these operations.
    - [permutation n]: [RandomState(42).permutation(n)];
    - [n_test_of n]: [ceil(0.2 * n)] as [train_test_split] computes it;
    - [scaler_fit], [scale_row]: the fitted [StandardScaler] and what it does
      to one sample;
    - [forest_fit], [proba_row]: the fitted [RandomForestClassifier] and its
      class probabilities for one sample, one entry per class seen by [fit];
    - [accuracy]: [model.score]. *)
Record Library : Type := mkLibrary {
  Scaler : Type;
  Forest : Type;
  permutation : nat → list nat;
  n_test_of : nat → nat;
  scaler_fit : list (list Q) → Scaler;
  scale_row : Scaler → list Q → list Q;
  forest_fit : list (list Q) → list nat → Forest;
  proba_row : Forest → list Q → list Q;
  accuracy : Forest → list (list Q) → list nat → Q
}.

Definition to_float (v : value) : result Q :=
  match v with
  | VNum q => Ok q
  | _ => Raise (ValueError "could not convert to float")
  end.

(** Input validation of the estimators: at least one sample, numeric cells.
    A NaN cell is refused with [ValueError], as the forest of the
    scikit-learn releases before 1.4 refuses it; later releases fit a
    forest on such a table.  The properties of training are stated for
    tables of numbers, where the releases agree. *)
Definition check_array (X : list (list value)) : result (list (list Q)) :=
  match X with
  | [] => Raise (ValueError "Found array with 0 sample(s)")
  | _ => traverse (traverse to_float) X
  end.

(** [a[idx]] for a list of positions. *)
Definition take_rows {A} (a : list A) (idx : list nat) : list A :=
  omap (fun i => a !! i) idx.

(** [classes_] of a fitted classifier: the distinct labels, sorted. *)
Definition classes_of (y : list nat) : list nat :=
  filter (fun c => c ∈ y) [0%nat; 1%nat].

(** [P[:, 1]] *)
Fixpoint column_1 (P : list (list Q)) : result (list Q) :=
  match P with
  | [] => Ok []
  | p :: P' =>
      match p !! 1%nat with
      | Some x => xs ← column_1 P'; Ok (x :: xs)
      | None => Raise IndexError
      end
  end.

(** ** Python floats, where the code adds them

    The label synthesizer is the one place where the code does arithmetic
    on floats whose outcome a threshold then reads.  There a float is a
    binary64 number: a rational, an infinity or NaN; the sum of two floats
    is their exact sum rounded to the nearest binary64 number, a tie going
    to the even significand, and a float literal is the decimal it writes
    rounded in the same way.  The sign of zero is not kept: no operation of
    the code can tell the two zeros apart. *)

Module Float.

Local Open Scope Q_scope.

Inductive float : Type :=
| Finite (q : Q)
| PInf
| NInf
| NaN.

(** [floor (log2 q)] for a positive rational. *)
Definition ilog2 (q : Q) : Z :=
  let k := (Z.log2 (Qnum q) - Z.log2 (Zpos (Qden q)))%Z in
  if Qle_bool (2 ^ k) q then k else (k - 1)%Z.

(** The nearest integer, a tie going to the even one. *)
Definition rne (x : Q) : Z :=
  let f := Qfloor x in
  match Qcompare (x - inject_Z f) (1 # 2) with
  | Lt => f
  | Gt => (f + 1)%Z
  | Eq => if Z.even f then f else (f + 1)%Z
  end.

(** The binary64 number nearest to a positive rational, before the test for
    overflow: a significand of 53 bits, whose last bit weighs [2 ^ e] with
    [e] at least [-1074]. *)
Definition round_pos (q : Q) : Q :=
  let e := Z.max (ilog2 q - 52) (-1074) in
  inject_Z (rne (q / 2 ^ e)) * 2 ^ e.

(** From here on a rounded magnitude is infinite. *)
Definition overflow : Q := 2 ^ 1024.

Definition round (q : Q) : float :=
  match Qcompare q 0 with
  | Eq => Finite 0
  | Gt => let v := round_pos q in
          if Qle_bool overflow v then PInf else Finite v
  | Lt => let v := round_pos (- q) in
          if Qle_bool overflow v then NInf else Finite (- v)
  end.

(** A float literal. *)
Definition lit (q : Q) : float := round q.

(** [a + b] *)
Definition add (a b : float) : float :=
  match a, b with
  | NaN, _ | _, NaN => NaN
  | PInf, NInf | NInf, PInf => NaN
  | PInf, _ | _, PInf => PInf
  | NInf, _ | _, NInf => NInf
  | Finite x, Finite y => round (x + y)
  end.

(** [a > b] *)
Definition gt (a b : float) : bool :=
  match a, b with
  | NaN, _ | _, NaN => false
  | PInf, PInf => false
  | PInf, _ => true
  | _, PInf => false
  | NInf, _ => false
  | Finite _, NInf => true
  | Finite x, Finite y => negb (Qle_bool x y)
  end.

(** [np.maximum] and [np.minimum]: NaN if either argument is. *)
Definition maximum (a b : float) : float :=
  match a, b with
  | NaN, _ | _, NaN => NaN
  | _, _ => if gt b a then b else a
  end.

Definition minimum (a b : float) : float :=
  match a, b with
  | NaN, _ | _, NaN => NaN
  | _, _ => if gt a b then b else a
  end.

(** [np.clip(x, lo, hi)], which is [minimum(maximum(x, lo), hi)]. *)
Definition clip (x lo hi : float) : float := minimum (maximum x lo) hi.

(** [a <= b] *)
Definition le (a b : float) : bool :=
  match a, b with
  | NaN, _ | _, NaN => false
  | NInf, _ => true
  | _, PInf => true
  | Finite x, Finite y => Qle_bool x y
  | _, _ => false
  end.

(** [0.0] and [1.0], also what the integers 0 and 1 become as floats. *)
Definition zero : float := Finite 0.

Definition one : float := Finite 1.

End Float.

Arguments Float.round : simpl never.
Arguments Float.lit : simpl never.
Arguments Float.add : simpl never.
Arguments Float.gt : simpl never.
Arguments Float.clip : simpl never.

(** ** models/lead_scorer.py *)

Module LeadScorer.

Definition feature_columns : list string :=
  ["email_quality"; "phone_quality"; "title_value";
   "data_completeness"; "industry_fit"].

(** The body of the loop of [create_training_labels] for one row; [noise]
    is what [np.random.normal(0, 0.05)] returns in this iteration.  The
    feature cells are compared with literals; the score is a float. *)
Definition label_of_row (row : gmap string value) (noise : Float.float)
  : result nat :=
  let score := Float.zero in
  e ← row_getitem row "email_quality";
  good_email ← cell_ge e 0.8;
  c1 ← (if good_email : bool
        then t ← row_getitem row "title_value"; cell_ge t 0.8
        else Ok false);
  let score := if c1 : bool then Float.add score (Float.lit 0.4) else score in
  d ← row_getitem row "data_completeness";
  c2 ← cell_ge d 0.75;
  let score := if c2 : bool then Float.add score (Float.lit 0.3) else score in
  i ← row_getitem row "industry_fit";
  c3 ← cell_ge i 0.9;
  let score := if c3 : bool then Float.add score (Float.lit 0.2) else score in
  p ← row_getitem row "phone_quality";
  c4 ← cell_ge p 0.8;
  let score := if c4 : bool then Float.add score (Float.lit 0.1) else score in
  let score := Float.add score noise in
  let score := Float.clip score Float.zero Float.one in
  Ok (if Float.gt score (Float.lit 0.6) then 1%nat else 0%nat).

(** [noise k] is the [k]-th value drawn from the random source. *)
Fixpoint labels_loop (rs : list (gmap string value)) (noise : nat → Float.float)
    (k : nat) (labels : list nat) : result (list nat) :=
  match rs with
  | [] => Ok labels
  | row :: rs' =>
      l ← label_of_row row (noise k);
      labels_loop rs' noise (S k) (labels ++ [l])
  end.

Definition create_training_labels (df : DataFrame) (noise : nat → Float.float)
  : result (list nat) :=
  labels_loop (rows df) noise 0%nat [].

Definition category_of (score : Q) : string :=
  if Qgeb score 0.8 then "Hot Lead"
  else if Qgeb score 0.6 then "Warm Lead"
  else if Qgeb score 0.4 then "Cold Lead"
  else "Low Priority".

Fixpoint categorize_loop (scores : list Q) (categories : list string)
  : list string :=
  match scores with
  | [] => categories
  | score :: scores' => categorize_loop scores' (categories ++ [category_of score])
  end.

Definition categorize_leads (scores : list Q) : list string :=
  categorize_loop scores [].

Section WithLibrary.

Context (lib : Library).

Record LeadScorer : Type := mkLeadScorer {
  scaler : option (Scaler lib);
  model : option (Forest lib);
  is_trained : bool
}.

(** [LeadScorer()] *)
Definition init : LeadScorer :=
  {| scaler := None; model := None; is_trained := false |}.

Record TrainResult : Type := mkTrainResult {
  train_accuracy : Q;
  test_accuracy : Q;
  total_samples : nat;
  positive_leads : nat
}.

(** [train_test_split(X, y, test_size=0.2, random_state=42)] *)
Definition train_test_split {A B} (X : list A) (y : list B)
  : result (list A * list A * list B * list B) :=
  let n := length X in
  let n_test := n_test_of lib n in
  let n_train := (n - n_test)%nat in
  if (n_train =? 0)%nat
  then Raise (ValueError "the resulting train set will be empty")
  else
    let perm := permutation lib n in
    let test := take n_test perm in
    let train := take n_train (drop n_test perm) in
    Ok (take_rows X train, take_rows X test, take_rows y train, take_rows y test).

(** [scaler.transform(X)] *)
Definition transform (sc : option (Scaler lib)) (X : list (list value))
  : result (list (list Q)) :=
  match sc with
  | None => Raise NotFittedError
  | Some sc => X' ← check_array X; Ok (map (scale_row lib sc) X')
  end.

(** [model.predict_proba(X)] *)
Definition predict_proba (m : option (Forest lib)) (X : list (list Q))
  : result (list (list Q)) :=
  match m with
  | None => Raise NotFittedError
  | Some f => Ok (map (proba_row lib f) X)
  end.

Definition train (self : LeadScorer) (df : DataFrame)
    (noise : nat → Float.float)
  : result TrainResult * LeadScorer :=
  match values_of df feature_columns with
  | Raise e => (Raise e, self)
  | Ok X =>
  match create_training_labels df noise with
  | Raise e => (Raise e, self)
  | Ok y =>
  match train_test_split X y with
  | Raise e => (Raise e, self)
  | Ok (X_train, X_test, y_train, y_test) =>
  match check_array X_train with
  | Raise e => (Raise e, self)
  | Ok X_train' =>
  let sc := scaler_fit lib X_train' in
  let self := {| scaler := Some sc; model := model self;
                 is_trained := is_trained self |} in
  let X_train_scaled := map (scale_row lib sc) X_train' in
  match transform (Some sc) X_test with
  | Raise e => (Raise e, self)
  | Ok X_test_scaled =>
  let f := forest_fit lib X_train_scaled y_train in
  let self := {| scaler := scaler self; model := Some f;
                 is_trained := is_trained self |} in
  let train_accuracy := accuracy lib f X_train_scaled y_train in
  let test_accuracy := accuracy lib f X_test_scaled y_test in
  let self := {| scaler := scaler self; model := model self;
                 is_trained := true |} in
  (Ok {| train_accuracy := train_accuracy;
         test_accuracy := test_accuracy;
         total_samples := length (rows df);
         positive_leads := list_sum y |}, self)
  end end end end end.

Definition predict_scores (self : LeadScorer) (df : DataFrame)
  : result (list Q) :=
  if negb (is_trained self)
  then Raise (ValueError "Model must be trained first!")
  else
    X ← values_of df feature_columns;
    X_scaled ← transform (scaler self) X;
    P ← predict_proba (model self) X_scaled;
    column_1 P.

End WithLibrary.

Arguments mkLeadScorer {lib} _ _ _.
Arguments scaler {lib} _.
Arguments model {lib} _.
Arguments is_trained {lib} _.

End LeadScorer.

(** ** utils/hubspot_formatter.py *)

(** What the formatter takes from the Python runtime and does not compute
    itself:
    - [today]: [datetime.now().strftime('%Y-%m-%d')];
    - [round_times_100 x]: [round(x * 100)] in floating point;
    - [str_of_float x]: [str(x)];
    - [percent_0f x]: [f'{x*100:.0f}']. *)
Record Runtime : Type := mkRuntime {
  today : string;
  round_times_100 : Q → Z;
  str_of_float : Q → string;
  percent_0f : Q → string
}.

(** [key h r]: [h] sorts strictly before [r] in descending order; NaN sorts
    after every number. *)
Definition before (h r : option Q) : bool :=
  match h, r with
  | Some a, Some b => Qgtb a b
  | Some _, None => true
  | None, _ => false
  end.

Fixpoint insert_desc {A} (key : A → option Q) (r : A) (sorted : list A) : list A :=
  match sorted with
  | [] => [r]
  | h :: t => if before (key h) (key r) then h :: insert_desc key r t
              else r :: h :: t
  end.

(** Stable sort, largest key first. *)
Fixpoint sort_desc {A} (key : A → option Q) (l : list A) : list A :=
  match l with
  | [] => []
  | r :: l' => insert_desc key r (sort_desc key l')
  end.

(** [a] does not sort after [b]. *)
Definition key_ge {A} (key : A → option Q) (a b : A) : Prop :=
  before (key b) (key a) = false.

(** The key of [a] is [k]. *)
Definition same_key {A} (key : A → option Q) (k : option Q) (a : A) : bool :=
  match k, key a with
  | Some x, Some y => Qeq_bool x y
  | None, None => true
  | _, _ => false
  end.

(** A cell of a numeric column: a number or NaN. *)
Definition numeric_cell (v : value) : result (option Q) :=
  match v with
  | VNum q => Ok (Some q)
  | VNaN => Ok None
  | _ => Raise TypeError
  end.

Definition sort_key (key : string) (row : gmap string value) : option Q :=
  match row_get row key VNaN with
  | VNum q => Some q
  | _ => None
  end.

(** [df.nlargest(n, key)] with the default [keep='first']: the first [n] rows
    in descending order of the column, rows with equal values in their
    original order. *)
Definition nlargest (n : nat) (key : string) (df : DataFrame)
  : result (list (gmap string value)) :=
  cells ← column df key;
  _ ← traverse numeric_cell cells;
  Ok (take n (sort_desc (sort_key key) (rows df))).

Module HubSpotFormatter.

Record Contact : Type := mkContact {
  email : value;
  firstname : string;
  lastname : string;
  jobtitle : value;
  phone : value;
  company : value;
  website : value;
  city : value;
  state : value;
  ai_lead_score : Z;
  lead_quality_category : value;
  lead_priority : string;
  data_completeness_score : Z;
  lead_source : string;
  last_updated : string
}.

Record Summary : Type := mkSummary {
  total_contacts : nat;
  hot_leads : nat;
  import_date : string;
  source : string
}.

Record Task : Type := mkTask {
  title : string;
  description : string;
  priority : string;
  due_date : string;
  task_type : string
}.

(** [a and a != 'N/A'], taken as a condition. *)
Definition present (a : value) : bool := truthy a && negb (eq_str a "N/A").

Definition _has_contact_info (row : gmap string value) : bool :=
  let has_email := present (row_get row "Contact_Email" VNone) in
  let has_phone := present (row_get row "Contact_Phone" VNone) in
  has_email || has_phone.

Definition _get_priority_level (score : value) : result string :=
  hot ← cell_ge score 0.8;
  if hot : bool then Ok "High"
  else warm ← cell_ge score 0.6;
       if warm : bool then Ok "Medium" else Ok "Low".

(** [v if v != 'N/A' else ''] *)
Definition blank_na (v : value) : value :=
  if negb (eq_str v "N/A") then v else VStr "".

Section WithRuntime.

Context (rt : Runtime).

(** [str(v)] and [f'{v}'] *)
Definition py_str (v : value) : string :=
  match v with
  | VNone => "None"
  | VNaN => "nan"
  | VStr s => s
  | VNum q => str_of_float rt q
  end.

(** [round(v * 100)] *)
Definition round100 (v : value) : result Z :=
  match v with
  | VNum q => Ok (round_times_100 rt q)
  | VNaN => Raise (ValueError "cannot convert float NaN to integer")
  | _ => Raise TypeError
  end.

Definition _parse_name (full_name : value) : string * string :=
  if pd_isna full_name || eq_str full_name "N/A" then ("", "")
  else
    let parts := Str.split " " (Some 1%nat) (Str.strip (py_str full_name)) in
    let first_name := match parts with [] => "" | p :: _ => p end in
    let last_name := if (1 <? length parts)%nat
                     then default "" (parts !! 1%nat) else "" in
    (first_name, last_name).

Definition _format_contact (row : gmap string value) : result Contact :=
  let '(first_name, last_name) := _parse_name (row_get row "Contact_Name" (VStr "")) in
  lead_score_100 ← round100 (row_get row "lead_score" (VNum 0));
  prio ← _get_priority_level (row_get row "lead_score" (VNum 0));
  completeness ← round100 (row_get row "data_completeness" (VNum 0));
  Ok {| email := blank_na (row_get row "Contact_Email" VNone);
        firstname := first_name;
        lastname := last_name;
        jobtitle := blank_na (row_get row "Contact_Title" VNone);
        phone := blank_na (row_get row "Contact_Phone" VNone);
        company := row_get row "Company" (VStr "");
        website := blank_na (row_get row "Website" VNone);
        city := row_get row "City" (VStr "");
        state := row_get row "State" (VStr "");
        ai_lead_score := lead_score_100;
        lead_quality_category := row_get row "category" (VStr "");
        lead_priority := prio;
        data_completeness_score := completeness;
        lead_source := "SaaSSquatch Enhanced";
        last_updated := today rt |}.

Fixpoint contacts_loop (rs : list (gmap string value))
    (hubspot_contacts : list Contact) : result (list Contact) :=
  match rs with
  | [] => Ok hubspot_contacts
  | row :: rs' =>
      if _has_contact_info row
      then contact ← _format_contact row;
           contacts_loop rs' (hubspot_contacts ++ [contact])
      else contacts_loop rs' hubspot_contacts
  end.

Definition format_for_hubspot (df : DataFrame)
  : result (list Contact * Summary) :=
  hubspot_contacts ← contacts_loop (rows df) [];
  Ok (hubspot_contacts,
      {| total_contacts := length hubspot_contacts;
         hot_leads := length (filter (fun c => lead_priority c = "High")
                                hubspot_contacts);
         import_date := today rt;
         source := "SaaSSquatch + AI Enhancement" |}).

(** The body of the loop of [create_sales_tasks]: the task of one lead,
    or nothing where the loop says [continue]. *)
Definition task_of_lead (lead : gmap string value) : result (option Task) :=
  let score := row_get lead "lead_score" (VNum 0) in
  let company := row_get lead "Company" (VStr "Unknown Company") in
  let contact := row_get lead "Contact_Name" (VStr "Unknown Contact") in
  let pct := match score with VNum q => percent_0f rt q | _ => "nan" end in
  hot ← cell_ge score 0.8;
  if hot : bool then
    Ok (Some {| title := "URGENT: Call " +:+ py_str company;
                description := "Hot lead (" +:+ pct +:+ "% score). Contact: "
                               +:+ py_str contact;
                priority := "High";
                due_date := "1 day";
                task_type := "call" |})
  else
    warm ← cell_ge score 0.6;
    if warm : bool then
      Ok (Some {| title := "Research and reach out to " +:+ py_str company;
                  description := "Warm lead (" +:+ pct
                                 +:+ "% score). Research before calling.";
                  priority := "Medium";
                  due_date := "3 days";
                  task_type := "research" |})
    else Ok None.

Fixpoint tasks_loop (leads : list (gmap string value)) (tasks : list Task)
  : result (list Task) :=
  match leads with
  | [] => Ok tasks
  | lead :: leads' =>
      t ← task_of_lead lead;
      match t with
      | Some task => tasks_loop leads' (tasks ++ [task])
      | None => tasks_loop leads' tasks
      end
  end.

Definition create_sales_tasks (df : DataFrame) : result (list Task) :=
  top_leads ← nlargest 10 "lead_score" df;
  tasks_loop top_leads [].

End WithRuntime.

End HubSpotFormatter.

(** ** Vocabulary of the specification *)

Module Spec.

Local Open Scope Q_scope.

(** [c] occurs in [s]. *)
Fixpoint has_char (c : ascii) (s : string) : bool :=
  match s with
  | EmptyString => false
  | String a s' => Ascii.eqb a c || has_char c s'
  end.

(** A piece of an address: not empty, no [@] in it. *)
Definition piece (s : string) : Prop := s ≠ "" ∧ has_char "@" s = false.

(** [s] is [local@domain] and [domain] is [name.tld]. *)
Definition valid_email (s local domain : string) : Prop :=
  s = local +:+ "@" +:+ domain ∧ piece local ∧
  ∃ name tld, domain = name +:+ "." +:+ tld ∧ piece name ∧ piece tld.

(** The [local@domain.tld] shape. *)
Definition email_shape (s : string) : Prop :=
  ∃ local domain, valid_email s local domain.

Definition same_ignoring_case (a b : string) : Prop :=
  Str.lower a = Str.lower b.

Definition consumer_domain (domain : string) : Prop :=
  ∃ d, d ∈ ["gmail.com"; "yahoo.com"; "hotmail.com"; "outlook.com"]
       ∧ same_ignoring_case domain d.

(** [kw] is a substring of [s]. *)
Definition substring (kw s : string) : Prop :=
  ∃ pre post, s = pre +:+ kw +:+ post.

(** The cell holds no value at all (NaN or [None]). *)
Definition absent (v : value) : Prop := v = VNaN ∨ v = VNone.

(** The cell is missing: absent, or the ["N/A"] sentinel. *)
Definition missing (v : value) : Prop := absent v ∨ v = VStr "N/A".

(** The row carries the five features, with these values. *)
Definition feature_row (row : gmap string value) (e p t d i : Q) : Prop :=
  row !! "email_quality" = Some (VNum e) ∧
  row !! "phone_quality" = Some (VNum p) ∧
  row !! "title_value" = Some (VNum t) ∧
  row !! "data_completeness" = Some (VNum d) ∧
  row !! "industry_fit" = Some (VNum i).

Definition is_feature_row (row : gmap string value) : Prop :=
  ∃ e p t d i, feature_row row e p t d i.

(** The additive rule of the label synthesizer, before the noise. *)
Definition heuristic (e p t d i : Q) : Q :=
  0 + (if Qle_bool 0.8 e && Qle_bool 0.8 t then 0.4 else 0)
    + (if Qle_bool 0.75 d then 0.3 else 0)
    + (if Qle_bool 0.9 i then 0.2 else 0)
    + (if Qle_bool 0.8 p then 0.1 else 0).

Definition clamp (x lo hi : Q) : Q := Qmin (Qmax x lo) hi.

(** The same rule as the code computes it, in floats: the bonuses that
    apply, in the order of the rule, ... *)
Definition bonus (applies : bool) (b : Q) : list Q :=
  if applies then [b] else [].

Definition bonuses (e p t d i : Q) : list Q :=
  (bonus (Qle_bool 0.8 e && Qle_bool 0.8 t) 0.4
   ++ bonus (Qle_bool 0.75 d) 0.3
   ++ bonus (Qle_bool 0.9 i) 0.2
   ++ bonus (Qle_bool 0.8 p) 0.1)%list.

(** ... added one after the other to [0.0], each sum rounded, ... *)
Definition float_sum (l : list Q) : Float.float :=
  fold_left (fun s b => Float.add s (Float.lit b)) l Float.zero.

(** ... then the noise, the clamp and the threshold. *)
Definition float_rule (e p t d i : Q) (n : Float.float) : bool :=
  Float.gt
    (Float.clip (Float.add (float_sum (bonuses e p t d i)) n)
       Float.zero Float.one)
    (Float.lit 0.6).

(** The errors of [train] on a table it cannot use: a required column is
    not there, or there is no row to train on. *)
Definition configuration_error (e : exn) : Prop :=
  (∃ c, c ∈ LeadScorer.feature_columns ∧ e = KeyError c) ∨
  e = ValueError "the resulting train set will be empty".

(** The error of scoring with a model that was never trained. *)
Definition state_error (e : exn) : Prop :=
  e = ValueError "Model must be trained first!".

(** The classifier reports one probability per class it was fitted on. *)
Definition one_column_per_class (lib : Library) : Prop :=
  ∀ X y x, length (proba_row lib (forest_fit lib X y) x) = length (classes_of y).

(** The classifier's outputs are probabilities. *)
Definition probabilities (lib : Library) : Prop :=
  ∀ f x, Forall (fun q => 0 <= q ∧ q <= 1) (proba_row lib f x).

(** No text field of the contact record is the ["N/A"] sentinel. *)
Definition no_sentinel_field (c : HubSpotFormatter.Contact) : Prop :=
  HubSpotFormatter.email c ≠ VStr "N/A" ∧
  HubSpotFormatter.firstname c ≠ "N/A" ∧
  HubSpotFormatter.lastname c ≠ "N/A" ∧
  HubSpotFormatter.jobtitle c ≠ VStr "N/A" ∧
  HubSpotFormatter.phone c ≠ VStr "N/A" ∧
  HubSpotFormatter.company c ≠ VStr "N/A" ∧
  HubSpotFormatter.website c ≠ VStr "N/A" ∧
  HubSpotFormatter.city c ≠ VStr "N/A" ∧
  HubSpotFormatter.state c ≠ VStr "N/A" ∧
  HubSpotFormatter.lead_quality_category c ≠ VStr "N/A".

(** A name of one word: not empty, no white space in it. *)
Fixpoint no_space (s : string) : bool :=
  match s with
  | EmptyString => true
  | String c s' => negb (Str.isspace c) && no_space s'
  end.

Definition single_token (s : string) : Prop := s ≠ "" ∧ no_space s = true.

(** The cell of a row, [None] where the row has no such field. *)
Definition field (row : gmap string value) (key : string) : value :=
  row_get row key VNone.

(** The score of a scored row is a number. *)
Definition scored_row (row : gmap string value) : Prop :=
  (∃ q, row !! "lead_score" = Some (VNum q)) ∧
  (∃ d, row !! "data_completeness" = Some (VNum d)).

(** A field that is copied as it is: the cell of the row, whatever it
    holds, and the empty string where the row has no such field. *)
Definition copied (row : gmap string value) (key : string) : value :=
  match row !! key with
  | Some v => v
  | None => VStr ""
  end.

(** What the contact record [c] of the lead [row] satisfies:
    the sentinel is blanked in the four fields the formatter cleans, the
    name is split as described, and the company, the city, the state and
    the category are copied as they are. *)
Definition cleaned (row : gmap string value) (c : HubSpotFormatter.Contact)
  : Prop :=
  (HubSpotFormatter.email c ≠ VStr "N/A" ∧
   HubSpotFormatter.jobtitle c ≠ VStr "N/A" ∧
   HubSpotFormatter.phone c ≠ VStr "N/A" ∧
   HubSpotFormatter.website c ≠ VStr "N/A") ∧
  (field row "Contact_Email" = VStr "N/A" → HubSpotFormatter.email c = VStr "") ∧
  (field row "Contact_Title" = VStr "N/A" → HubSpotFormatter.jobtitle c = VStr "") ∧
  (field row "Contact_Phone" = VStr "N/A" → HubSpotFormatter.phone c = VStr "") ∧
  (field row "Website" = VStr "N/A" → HubSpotFormatter.website c = VStr "") ∧
  (missing (field row "Contact_Name") →
   HubSpotFormatter.firstname c = "" ∧ HubSpotFormatter.lastname c = "") ∧
  (∀ token, field row "Contact_Name" = VStr token →
            single_token token → token ≠ "N/A" →
            HubSpotFormatter.firstname c = token ∧
            HubSpotFormatter.lastname c = "") ∧
  HubSpotFormatter.company c = copied row "Company" ∧
  HubSpotFormatter.city c = copied row "City" ∧
  HubSpotFormatter.state c = copied row "State" ∧
  HubSpotFormatter.lead_quality_category c = copied row "category".

(** The score of a lead, nothing for NaN. *)
Definition score_of (row : gmap string value) : option Q :=
  sort_key "lead_score" row.

Definition at_least (q : Q) (row : gmap string value) : bool :=
  match score_of row with
  | Some x => Qle_bool q x
  | None => false
  end.

(** [a] does not rank below [b]: its score is at least that of [b], a
    lead without a score ranking below every lead that has one. *)
Definition not_below (a b : gmap string value) : Prop :=
  match score_of a, score_of b with
  | Some x, Some y => y <= x
  | Some _, None => True
  | None, Some _ => False
  | None, None => True
  end.

(** The lead has score [k]. *)
Definition same_score (k : option Q) (row : gmap string value) : bool :=
  match k, score_of row with
  | Some x, Some y => Qeq_bool x y
  | None, None => true
  | _, _ => false
  end.

(** The lead's score is a number or NaN. *)
Definition numeric_score (row : gmap string value) : Prop :=
  (∃ q, row !! "lead_score" = Some (VNum q)) ∨ row !! "lead_score" = Some VNaN.

(** The task of a lead of score at least 0.6: it names the lead's company,
    and its contact or its score, so that a task tells which lead it is
    for. *)
Definition task_for (rt : Runtime) (lead : gmap string value)
    (task : HubSpotFormatter.Task) : Prop :=
  let company :=
    HubSpotFormatter.py_str rt (row_get lead "Company" (VStr "Unknown Company")) in
  let contact :=
    HubSpotFormatter.py_str rt
      (row_get lead "Contact_Name" (VStr "Unknown Contact")) in
  ∃ q, score_of lead = Some q ∧
    (0.8 <= q →
     HubSpotFormatter.title task = "URGENT: Call " +:+ company ∧
     HubSpotFormatter.description task
     = "Hot lead (" +:+ percent_0f rt q +:+ "% score). Contact: " +:+ contact ∧
     HubSpotFormatter.priority task = "High" ∧
     HubSpotFormatter.due_date task = "1 day" ∧
     HubSpotFormatter.task_type task = "call") ∧
    (q < 0.8 →
     HubSpotFormatter.title task = "Research and reach out to " +:+ company ∧
     HubSpotFormatter.description task
     = "Warm lead (" +:+ percent_0f rt q
       +:+ "% score). Research before calling." ∧
     HubSpotFormatter.priority task = "Medium" ∧
     HubSpotFormatter.due_date task = "3 days" ∧
     HubSpotFormatter.task_type task = "research").

(** A cell of a raw lead record: text, or nothing. *)
Definition text_cell (v : value) : bool :=
  match v with
  | VNum _ => false
  | _ => true
  end.

Definition raw_row (row : gmap string value) : bool :=
  forallb (fun c => bool_decide (is_Some (row !! c)))
    ["Contact_Email"; "Contact_Phone"; "Contact_Name"; "Website"]
  && forallb (fun c => text_cell (row_get row c VNaN))
    ["Contact_Email"; "Contact_Phone"; "Contact_Title"; "Industry"].

(** A table of raw lead records, as far as feature extraction reads it. *)
Definition raw_table (df : DataFrame) : bool :=
  forallb (has_column df)
    ["Contact_Email"; "Contact_Phone"; "Contact_Title"; "Industry"]
  && forallb raw_row (rows df).

(** [row'] is [row] with the five features added. *)
Definition extended (row row' : gmap string value) : Prop :=
  ∃ e p t d i,
    LeadProcessor._score_email (row_get row "Contact_Email" VNaN) = Ok e ∧
    LeadProcessor._score_phone (row_get row "Contact_Phone" VNaN) = Ok p ∧
    LeadProcessor._score_title (row_get row "Contact_Title" VNaN) = Ok t ∧
    LeadProcessor.completeness_of_row row = Ok d ∧
    LeadProcessor._score_industry (row_get row "Industry" VNaN) = Ok i ∧
    row' = <["industry_fit" := VNum i]>
             (<["data_completeness" := VNum d]>
                (<["title_value" := VNum t]>
                   (<["phone_quality" := VNum p]>
                      (<["email_quality" := VNum e]> row)))).

End Spec.

(** [process_leads] as a function from the input frame to the frame it
    builds, without the store. *)
Module Pure.

Definition with_feature (frame cur : DataFrame) (feature source : string)
    (scorer : value → result Q) : result DataFrame :=
  cells ← column frame source;
  scores ← traverse scorer cells;
  set_column cur feature (VNum <$> scores).

Definition with_completeness (frame cur : DataFrame) : result DataFrame :=
  completeness ← LeadProcessor._calculate_completeness frame;
  set_column cur "data_completeness" (VNum <$> completeness).

Definition featurize (frame : DataFrame) : result DataFrame :=
  c1 ← with_feature frame frame "email_quality" "Contact_Email"
         LeadProcessor._score_email;
  c2 ← with_feature frame c1 "phone_quality" "Contact_Phone"
         LeadProcessor._score_phone;
  c3 ← with_feature frame c2 "title_value" "Contact_Title"
         LeadProcessor._score_title;
  c4 ← with_completeness frame c3;
  with_feature frame c4 "industry_fit" "Industry" LeadProcessor._score_industry.

End Pure.

(** ** Sample data *)

Module Examples.

Definition lead (company industry name title email phone website : value)
  : gmap string value :=
  <["Company" := company]> (<["Industry" := industry]>
  (<["Contact_Name" := name]> (<["Contact_Title" := title]>
  (<["Contact_Email" := email]> (<["Contact_Phone" := phone]>
  (<["Website" := website]> ∅)))))).

Definition raw_columns : list string :=
  ["Company"; "Industry"; "Contact_Name"; "Contact_Title";
   "Contact_Email"; "Contact_Phone"; "Website"].

Definition acme : gmap string value :=
  lead (VStr "Acme Inc") (VStr "Technology") (VStr "Ann Lee") (VStr "CEO")
       (VStr "ann@acme.io") (VStr "(555) 123-4567") (VStr "www.acme.io").

Definition nameless : gmap string value :=
  lead (VStr "N/A") (VStr "Consulting") (VStr "Cher") (VStr "N/A")
       (VStr "cher@gmail.com") (VStr "N/A") (VStr "N/A").

Definition unreachable : gmap string value :=
  lead (VStr "DataSync Inc") VNaN (VStr "N/A") (VStr "Manager")
       (VStr "N/A") (VStr "N/A") (VStr "www.datasync.com").

Definition leads : DataFrame :=
  {| columns := raw_columns; rows := [acme; nameless; unreachable] |}.

(** A row of a feature table. *)
Definition features (e p t d i : Q) : gmap string value :=
  <["email_quality" := VNum e]> (<["phone_quality" := VNum p]>
  (<["title_value" := VNum t]> (<["data_completeness" := VNum d]>
  (<["industry_fit" := VNum i]> ∅)))).

Definition feature_table (rs : list (gmap string value)) : DataFrame :=
  {| columns := LeadScorer.feature_columns; rows := rs |}.

(** Leads with nothing to recommend them. *)
Definition poor_leads : DataFrame :=
  feature_table (replicate 5 (features 0 0 0 0 0.5)).

Definition mixed_leads : DataFrame :=
  feature_table [features 1 1 1 1 1; features 0 0 0 0 0.5;
                 features 1 0 1 0.5 0.7].

Definition quiet : nat → Float.float := fun _ => Float.zero.

(** A scored row. *)
Definition scored (row : gmap string value) (score : Q) (category : string)
  : gmap string value :=
  <["lead_score" := VNum score]> (<["category" := VStr category]>
  (<["data_completeness" := VNum 0.5]> row)).

Definition scored_leads : DataFrame :=
  {| columns := raw_columns ++ ["data_completeness"; "category"; "lead_score"];
     rows := [scored unreachable 0.3 "Low Priority";
              scored nameless 0.7 "Warm Lead";
              scored acme 0.9 "Hot Lead"] |}.

(** A stand-in for the numerical libraries: the identity as scaler, and a
    classifier that gives every class it has seen the same probability. *)
Definition uniform_lib : Library :=
  {| Scaler := unit;
     Forest := list nat;
     permutation := fun n => seq 0 n;
     n_test_of := fun n => ((n + 4) / 5)%nat;
     scaler_fit := fun _ => tt;
     scale_row := fun _ x => x;
     forest_fit := fun _ y => classes_of y;
     proba_row := fun f _ =>
       map (fun _ => 1 / inject_Z (Z.of_nat (length f))) f;
     accuracy := fun _ _ _ => 1 |}.

(** A stand-in for the Python runtime. *)
Definition plain_runtime : Runtime :=
  {| today := "2024-01-01";
     round_times_100 := fun q => Qfloor (q * 100 + 1 / 2);
     str_of_float := fun _ => "0.0";
     percent_0f := fun _ => "0" |}.

End Examples.

(** The language of a regular expression. *)
Inductive lang : Re.regex → string → Prop :=
| lang_eps : lang Re.Eps ""
| lang_chr c : lang (Re.Chr c) (String c "")
| lang_notchr a c : a ≠ c → lang (Re.NotChr a) (String c "")
| lang_cat r1 r2 s1 s2 :
    lang r1 s1 → lang r2 s2 → lang (Re.Cat r1 r2) (s1 +:+ s2)
| lang_star_nil r : lang (Re.Star r) ""
| lang_star_app r s1 s2 :
    lang r s1 → lang (Re.Star r) s2 → lang (Re.Star r) (s1 +:+ s2).

(** ** models/lead_scorer.py, the explanations *)


(** One cell of [column >= q] and of [column < q], the comparison of a
    whole column with a number: a missing cell, NaN or [None], gives
    [False]; a string cannot be compared. *)
Definition series_ge (v : value) (q : Q) : result bool :=
  match v with
  | VNum x => Ok (Qgeb x q)
  | VNaN | VNone => Ok false
  | VStr _ => Raise TypeError
  end.

Definition series_lt (v : value) (q : Q) : result bool :=
  match v with
  | VNum x => Ok (negb (Qle_bool q x))
  | VNaN | VNone => Ok false
  | VStr _ => Raise TypeError
  end.

Module Insights.



(** [d[k] = v] on a dictionary kept in insertion order. *)
Fixpoint dict_set (d : list (string * Q)) (k : string) (v : Q)
  : list (string * Q) :=
  match d with
  | [] => [(k, v)]
  | (k', v') :: d' =>
      if String.eqb k' k then (k, v) :: d' else (k', v') :: dict_set d' k v
  end.

(** [dict(pairs)] *)
Definition dict_of (pairs : list (string * Q)) : list (string * Q) :=
  fold_left (fun d kv => dict_set d (fst kv) (snd kv)) pairs [].

Section WithLibrary.

(** [feature_importances_ f] is the attribute of that name of the fitted
    classifier, [round3 x] is [round(x, 3)]. *)
Context (lib : Library) (feature_importances_ : Forest lib → list Q)
  (round3 : Q → Q).

Fixpoint importance_loop (pairs : list (string * Q))
    (importance_dict : list (string * Q)) : list (string * Q) :=
  match pairs with
  | [] => importance_dict
  | (name, importance) :: pairs' =>
      importance_loop pairs' (dict_set importance_dict name (round3 importance))
  end.

(** [sorted(d.items(), key=lambda x: x[1], reverse=True)]: stable, largest
    value first. *)
Definition sorted_by_value (d : list (string * Q)) : list (string * Q) :=
  sort_desc (fun x => Some (snd x)) d.

Definition get_feature_importance (self : LeadScorer.LeadScorer lib)
  : result (list (string * Q)) :=
  if negb (LeadScorer.is_trained self) then Ok []
  else match LeadScorer.model self with
       | None => Raise NotFittedError
       | Some f =>
           let importance_dict :=
             importance_loop
               (zip LeadScorer.feature_columns (feature_importances_ f)) [] in
           Ok (dict_of (sorted_by_value importance_dict))
       end.

End WithLibrary.

End Insights.

(** ** utils/hubspot_formatter.py, the workflows *)

Module Workflows.

Record Workflow : Type := mkWorkflow {
  name : string;
  trigger : string;
  actions : list string;
  affected_leads : nat
}.

Definition dquote : string := String "034"%char EmptyString.

(** [len(df[mask])] *)
Definition count_true (mask : list bool) : nat :=
  length (List.filter (fun b => b) mask).

Definition hot_workflow (hot_count : nat) : Workflow :=
  {| name := "Hot Lead Immediate Follow-up";
     trigger := "AI Lead Score >= 80";
     actions := ["Create high-priority task for sales rep";
                 "Send Slack notification to sales team";
                 "Set lifecycle stage to " +:+ dquote +:+ "Sales Qualified Lead"
                   +:+ dquote];
     affected_leads := hot_count |}.

Definition warm_workflow (warm_count : nat) : Workflow :=
  {| name := "Warm Lead Nurture Sequence";
     trigger := "AI Lead Score 60-79";
     actions := ["Enroll in email nurture campaign";
                 "Create follow-up task in 3 days";
                 "Add to " +:+ dquote +:+ "Warm Prospects" +:+ dquote +:+ " list"];
     affected_leads := warm_count |}.

Definition generate_recommended_workflows (df : DataFrame)
  : result (list Workflow) :=
  let workflows := [] in
  scores ← column df "lead_score";
  hot ← traverse (fun v => series_ge v 0.8) scores;
  let hot_count := count_true hot in
  scores ← column df "lead_score";
  ge ← traverse (fun v => series_ge v 0.6) scores;
  scores ← column df "lead_score";
  lt ← traverse (fun v => series_lt v 0.8) scores;
  let warm_count := count_true (zip_with andb ge lt) in
  let workflows := if (0 <? hot_count)%nat
                   then (workflows ++ [hot_workflow hot_count])%list else workflows in
  let workflows := if (0 <? warm_count)%nat
                   then (workflows ++ [warm_workflow warm_count])%list else workflows in
  Ok workflows.

End Workflows.

(** ** app.py, from the loaded table to the scored table *)

Module App.

Section WithLibrary.

Context (lib : Library).

(** [load_and_process_data] from the table that [pd.read_csv] returned:
    feature engineering, a new scorer, training, scoring, and the two
    columns added to the processed table in place. *)
Definition load_and_process_data (df : ref) (noise : nat → Float.float)
  : M (ref * LeadScorer.LeadScorer lib * LeadScorer.TrainResult) :=
  processed_df ← LeadProcessor.process_leads df;
  frame ← deref processed_df;
  let scorer := LeadScorer.init lib in
  match LeadScorer.train lib scorer frame noise with
  | (Raise e, _) => lift (Raise e)
  | (Ok training_results, scorer) =>
      scores ← lift (LeadScorer.predict_scores lib scorer frame);
      _ ← setitem processed_df "lead_score" (VNum <$> scores);
      _ ← setitem processed_df "category"
            (VStr <$> LeadScorer.categorize_leads scores);
      mret (processed_df, scorer, training_results)
  end.

End WithLibrary.

End App.

(** ** utils/hubspot_api.py *)

Module HubSpotAPI.

(** What [client.crm.contacts.basic_api.create] does with one request: it
    returns the new object, or raises [ApiException], or raises something
    else; [msg] is [str(e)]. *)
Inductive Response : Type :=
| Created (id : string)
| ApiException (msg : string)
| OtherException (msg : string).

Record CreatedContact : Type := mkCreatedContact {
  hubspot_id : string;
  email : string;
  company : string;
  ai_score : value
}.

Record Results : Type := mkResults {
  total_contacts : nat;
  successful : nat;
  failed : nat;
  errors : list string;
  created_contacts : list CreatedContact
}.

(** The dictionary that [_format_contact] builds, key by key. *)
Definition as_dict (c : HubSpotFormatter.Contact) : gmap string value :=
  <["email" := HubSpotFormatter.email c]>
  (<["firstname" := VStr (HubSpotFormatter.firstname c)]>
  (<["lastname" := VStr (HubSpotFormatter.lastname c)]>
  (<["jobtitle" := HubSpotFormatter.jobtitle c]>
  (<["phone" := HubSpotFormatter.phone c]>
  (<["company" := HubSpotFormatter.company c]>
  (<["website" := HubSpotFormatter.website c]>
  (<["city" := HubSpotFormatter.city c]>
  (<["state" := HubSpotFormatter.state c]>
  (<["ai_lead_score" := VNum (inject_Z (HubSpotFormatter.ai_lead_score c))]>
  (<["lead_quality_category" := HubSpotFormatter.lead_quality_category c]>
  (<["lead_priority" := VStr (HubSpotFormatter.lead_priority c)]>
  (<["data_completeness_score" :=
       VNum (inject_Z (HubSpotFormatter.data_completeness_score c))]>
  (<["lead_source" := VStr (HubSpotFormatter.lead_source c)]>
  (<["last_updated" := VStr (HubSpotFormatter.last_updated c)]> ∅)))))))))))))).

(** Truth value of [properties.get(key)]. *)
Definition truthy_str (o : option string) : bool :=
  match o with
  | Some s => negb (String.eqb s "")
  | None => false
  end.

(** [l[i]] *)
Definition list_getitem (l : list string) (i : nat) : result string :=
  match l !! i with
  | Some x => Ok x
  | None => Raise IndexError
  end.

Definition newline : string := String "010"%char EmptyString.

Section WithRuntime.

(** Beside the runtime of the formatter:
    - [format_0f x] is [f"{x:.0f}"];
    - [float_of_str s] is [float(s)] on a string: nothing where it raises,
      [Some None] where it is NaN;
    - [dart] is the one-character string U+1F3AF that opens the score line;
    - [str_of_exn e] is [str(e)];
    - [create n properties] is the answer of the HubSpot service to the
      request number [n] of this upload. *)
Context (rt : Runtime) (format_0f : Q → string)
  (float_of_str : string → option (option Q)) (dart : string)
  (str_of_exn : exn → string) (create : nat → gmap string string → Response).

(** [str(v).strip()] *)
Definition str_strip (v : value) : string :=
  Str.strip (HubSpotFormatter.py_str rt v).

Definition score_line (score : option Q) : string :=
  match score with
  | Some score => dart +:+ " AI Lead Score: " +:+ format_0f score +:+ "/100"
  | None => dart +:+ " AI Lead Score: nan/100"
  end.

(** The [try: ... except: pass] around the score line: [ai_notes] after
    it. *)
Definition score_note (v : value) (ai_notes : list string) : list string :=
  let scaled (score : Q) :=
    if Qle_bool score 1 then score * 100 else score in
  match v with
  | VNum q => (ai_notes ++ [score_line (Some (scaled q))])%list
  | VNaN => (ai_notes ++ [score_line None])%list
  | VStr s =>
      match float_of_str s with
      | Some (Some q) => (ai_notes ++ [score_line (Some (scaled q))])%list
      | Some None => (ai_notes ++ [score_line None])%list
      | None => ai_notes
      end
  | VNone => ai_notes
  end.

Definition _prepare_contact_properties (contact_data : gmap string value)
  : result (gmap string string) :=
  let get key := row_get contact_data key VNone in
  let properties : gmap string string := ∅ in
  let properties :=
    if truthy (get "email")
    then <["email" := str_strip (get "email")]> properties else properties in
  let properties :=
    if truthy (get "firstname")
    then <["firstname" := str_strip (get "firstname")]> properties
    else properties in
  let properties :=
    if truthy (get "lastname")
    then <["lastname" := str_strip (get "lastname")]> properties
    else properties in
  properties ←
    (if negb (truthy_str (properties !! "firstname"))
        && truthy (get "Contact_Name")
     then
       let name_parts :=
         Str.split " " (Some 1%nat) (str_strip (get "Contact_Name")) in
       first ← list_getitem name_parts 0;
       if negb (String.eqb first "") && negb (String.eqb first "N/A")
       then
         let properties := <["firstname" := first]> properties in
         if (1 <? length name_parts)%nat
         then second ← list_getitem name_parts 1;
              Ok (<["lastname" := second]> properties)
         else Ok properties
       else Ok properties
     else Ok properties);
  let properties :=
    if HubSpotFormatter.present (get "company")
    then <["company" := str_strip (get "company")]> properties
    else properties in
  let properties :=
    if HubSpotFormatter.present (get "jobtitle")
    then <["jobtitle" := str_strip (get "jobtitle")]> properties
    else if HubSpotFormatter.present (get "Contact_Title")
    then <["jobtitle" := str_strip (get "Contact_Title")]> properties
    else properties in
  let properties :=
    if HubSpotFormatter.present (get "phone")
    then <["phone" := str_strip (get "phone")]> properties
    else if HubSpotFormatter.present (get "Contact_Phone")
    then <["phone" := str_strip (get "Contact_Phone")]> properties
    else properties in
  let properties :=
    if HubSpotFormatter.present (get "website")
    then <["website" := str_strip (get "website")]> properties
    else properties in
  let properties :=
    if truthy (get "city")
    then <["city" := str_strip (get "city")]> properties else properties in
  let properties :=
    if truthy (get "state")
    then <["state" := str_strip (get "state")]> properties else properties in
  let ai_notes : list string := [] in
  let ai_notes :=
    if truthy (get "ai_lead_score")
    then score_note (get "ai_lead_score") ai_notes else ai_notes in
  let ai_notes :=
    if truthy (get "category")
    then (ai_notes
          ++ ["Category: " +:+ HubSpotFormatter.py_str rt (get "category")])%list
    else ai_notes in
  let ai_notes :=
    if truthy (get "lead_priority")
    then (ai_notes
          ++ ["Priority: "
              +:+ HubSpotFormatter.py_str rt (get "lead_priority")])%list
    else ai_notes in
  let ai_notes := (ai_notes ++ ["Enhanced: " +:+ today rt])%list in
  let ai_notes := (ai_notes ++ ["Source: SaaSSquatch + AI Enhancement"])%list in
  let properties :=
    match ai_notes with
    | [] => properties
    | _ => <["hs_content_membership_notes" := String.concat newline ai_notes]>
             properties
    end in
  let properties := <["hs_lead_status" := "NEW"]> properties in
  let properties := <["lifecyclestage" := "lead"]> properties in
  Ok properties.

(** [results['failed'] += 1; results['errors'].append(error_msg)] *)
Definition record_failure (results : Results) (error_msg : string) : Results :=
  {| total_contacts := total_contacts results;
     successful := successful results;
     failed := failed results + 1;
     errors := errors results ++ [error_msg];
     created_contacts := created_contacts results |}.

Definition record_success (results : Results) (c : CreatedContact) : Results :=
  {| total_contacts := total_contacts results;
     successful := successful results + 1;
     failed := failed results;
     errors := errors results;
     created_contacts := created_contacts results ++ [c] |}.

(** The body of the inner loop of [upload_contacts] for one contact.  The
    state is the [results] dictionary and the number of requests sent to
    HubSpot so far. *)
Definition upload_one (st : Results * nat) (contact_data : gmap string value)
  : Results * nat :=
  let '(results, requests) := st in
  let who := HubSpotFormatter.py_str rt
               (row_get contact_data "email" (VStr "Unknown")) in
  match _prepare_contact_properties contact_data with
  | Raise e =>
      (record_failure results ("Contact " +:+ who +:+ ": " +:+ str_of_exn e),
       requests)
  | Ok properties =>
      if negb (truthy_str (properties !! "email"))
      then
        (record_failure results
           ("Contact "
            +:+ HubSpotFormatter.py_str rt
                  (row_get contact_data "company" (VStr "Unknown"))
            +:+ ": No email address"),
         requests)
      else
        match create requests properties with
        | Created id =>
            (record_success results
               {| hubspot_id := id;
                  email := default "" (properties !! "email");
                  company := default "" (properties !! "company");
                  ai_score := row_get contact_data "ai_lead_score" (VNum 0) |},
             S requests)
        | ApiException msg =>
            let error_msg :=
              if Str.contains "already exists" (Str.lower msg)
              then "Contact " +:+ who +:+ ": Already exists in HubSpot"
              else "Contact " +:+ who +:+ ": " +:+ msg in
            (record_failure results error_msg, S requests)
        | OtherException msg =>
            (record_failure results ("Contact " +:+ who +:+ ": " +:+ msg),
             S requests)
        end
  end.

(** [for i in range(i, len(contacts_data), batch_size)] with its inner
    loop; [fuel] bounds the number of batches.  The progress bar, the status
    line and the pauses between the batches do not touch the result. *)
Fixpoint batches_loop (fuel : nat) (i : nat)
    (contacts_data : list (gmap string value)) (batch_size : nat)
    (st : Results * nat) : Results * nat :=
  match fuel with
  | O => st
  | S fuel' =>
      if (length contacts_data <=? i)%nat then st
      else
        let batch := take batch_size (drop i contacts_data) in
        let st := fold_left upload_one batch st in
        batches_loop fuel' (i + batch_size) contacts_data batch_size st
  end.

(** [upload_contacts]: the results and the number of requests sent.  A
    step of zero makes [range] raise, a negative step makes it empty. *)
Definition upload_contacts (contacts_data : list (gmap string value))
    (batch_size : Z) : result (Results * nat) :=
  let results :=
    {| total_contacts := length contacts_data;
       successful := 0;
       failed := 0;
       errors := [];
       created_contacts := [] |} in
  if (batch_size =? 0)%Z
  then Raise (ValueError "range() arg 3 must not be zero")
  else if (batch_size <? 0)%Z then Ok (results, 0%nat)
  else Ok (batches_loop (length contacts_data) 0 contacts_data
             (Z.to_nat batch_size) (results, 0%nat)).

End WithRuntime.

End HubSpotAPI.

(** ** Vocabulary of the further properties *)

Module Vocab.

Local Open Scope Q_scope.

Definition unit_interval (q : Q) : Prop := 0 <= q ∧ q <= 1.

(** The number of decimal digits in [s]. *)
Fixpoint count_digits (s : string) : nat :=
  match s with
  | EmptyString => 0%nat
  | String c s' => ((if Str.isdigit c then 1 else 0) + count_digits s')%nat
  end.

(** One of the keywords occurs in the lower-cased text. *)
Definition mentions (kws : list string) (s : string) : Prop :=
  ∃ kw, kw ∈ kws ∧ Spec.substring kw (Str.lower s).

(** The row carries the five features, each of them in [0,1]. *)
Definition bounded_features (row : gmap string value) : Prop :=
  ∃ e p t d i, Spec.feature_row row e p t d i ∧
    unit_interval e ∧ unit_interval p ∧ unit_interval t ∧
    unit_interval d ∧ unit_interval i.

(** The lead falls in the category [cat] of the categorizer; a lead whose
    score is NaN falls in none of the numeric buckets. *)
Definition in_category (cat : string) (row : gmap string value) : bool :=
  match Spec.score_of row with
  | Some q => String.eqb (LeadScorer.category_of q) cat
  | None => false
  end.

Definition category_count (cat : string) (rs : list (gmap string value)) : nat :=
  length (List.filter (in_category cat) rs).

(** The row carries a score in [0,1] and the category of that score. *)
Definition categorized (row : gmap string value) : Prop :=
  ∃ s, row !! "lead_score" = Some (VNum s) ∧ unit_interval s ∧
       row !! "category" = Some (VStr (LeadScorer.category_of s)).

(** The columns that [load_and_process_data] adds to the loaded table. *)
Definition added_columns : list string :=
  (LeadScorer.feature_columns ++ ["lead_score"; "category"])%list.

(** [row'] has every cell of [row] outside the added columns. *)
Definition keeps_fields (row row' : gmap string value) : Prop :=
  ∀ k, k ∉ added_columns → row' !! k = row !! k.

End Vocab.

(** ** Further sample data *)

Module Samples.

Local Open Scope Q_scope.

(** The sample leads in an order that puts a strong and a weak lead into
    the training part of the split of [Examples.uniform_lib]. *)
Definition ranked_leads : DataFrame :=
  {| columns := Examples.raw_columns;
     rows := [Examples.unreachable; Examples.acme; Examples.nameless] |}.

Definition balanced_leads : DataFrame :=
  Examples.feature_table [Examples.features 0 0 0 0 0.5;
                          Examples.features 1 1 1 1 1;
                          Examples.features 0 0 0 0 0.5].

Definition importances (_ : Forest Examples.uniform_lib) : list Q :=
  [0.1; 0.3; 0.2; 0.3; 0.1].

(** A lead that can be reached by phone only. *)
Definition phone_only : gmap string value :=
  Examples.scored
    (Examples.lead (VStr "Orbit Ltd") (VStr "Retail") (VStr "Bo Chen")
       (VStr "Manager") (VStr "N/A") (VStr "555-000-1111") (VStr "N/A"))
    0.7 "Warm Lead".

Definition phone_leads : DataFrame :=
  {| columns := columns Examples.scored_leads;
     rows := [phone_only; phone_only] |}.

(** Stand-ins for what the upload takes from outside: the formatting and
    the parsing of numbers, the sign that opens the score line, the text of
    an exception, and a HubSpot service that accepts the first request and
    answers every later one with a conflict. *)
Definition format_0f (q : Q) : string := "0".

Definition float_of_str (s : string) : option (option Q) := None.

Definition dart : string := "*".

Definition str_of_exn (e : exn) : string := "error".

Definition service (n : nat) (properties : gmap string string)
  : HubSpotAPI.Response :=
  if (n =? 0)%nat then HubSpotAPI.Created "101"
  else HubSpotAPI.ApiException "Contact already exists".

Definition three_contacts : list (gmap string value) :=
  [<["email" := VStr "ann@acme.io"]> (<["company" := VStr "Acme Inc"]> ∅);
   <["company" := VStr "Orbit Ltd"]> ∅;
   <["email" := VStr "cher@gmail.com"]> ∅].

(** A scorer of [Examples.uniform_lib] that saw both classes. *)
Definition trained_scorer : LeadScorer.LeadScorer Examples.uniform_lib :=
  LeadScorer.mkLeadScorer (lib := Examples.uniform_lib)
    (Some tt) (Some [0%nat; 1%nat]) true.

(** A scored lead of the company [company]. *)
Definition prospect (company : string) (score : Q) (category : string)
  : gmap string value :=
  Examples.scored
    (Examples.lead (VStr company) (VStr "Software") (VStr "Ann Lee")
       (VStr "CEO") (VStr "ann@example.io") (VStr "555-000-1111")
       (VStr "www.example.io"))
    score category.

(** Thirteen scored leads, twelve of them worth a task, six of them with
    the score 0.7. *)
Definition busy_leads : DataFrame :=
  {| columns := columns Examples.scored_leads;
     rows := [prospect "A" 0.7 "Warm Lead"; prospect "B" 0.9 "Hot Lead";
              prospect "C" 0.7 "Warm Lead"; prospect "D" 0.5 "Cold Lead";
              prospect "E" 0.9 "Hot Lead"; prospect "F" 0.65 "Warm Lead";
              prospect "G" 0.7 "Warm Lead"; prospect "H" 0.85 "Hot Lead";
              prospect "I" 0.7 "Warm Lead"; prospect "J" 0.95 "Hot Lead";
              prospect "K" 0.7 "Warm Lead"; prospect "L" 0.7 "Warm Lead";
              prospect "M" 0.8 "Hot Lead"] |}.

(** Decimal digits of a number below 1000. *)
Definition digit (n : nat) : string :=
  String (ascii_of_nat (48 + n)) EmptyString.

Definition digits (n : nat) : string :=
  if (n <? 10)%nat then digit n
  else if (n <? 100)%nat then digit (n / 10) +:+ digit (n mod 10)
  else digit (n / 100) +:+ digit (n / 10 mod 10) +:+ digit (n mod 10).

(** A runtime that rounds and formats scores that are whole percentages. *)
Definition desk_runtime : Runtime :=
  {| today := "2025-01-01";
     round_times_100 := fun q => Float.rne (q * 100);
     str_of_float := fun _ => "0.0";
     percent_0f := fun q => digits (Z.to_nat (Float.rne (q * 100))) |}.

(** A task by its kind, its title and its description. *)
Definition task_of (t : bool * string * string) : HubSpotFormatter.Task :=
  let '(hot, title, description) := t in
  {| HubSpotFormatter.title := title;
     HubSpotFormatter.description := description;
     HubSpotFormatter.priority := if hot then "High" else "Medium";
     HubSpotFormatter.due_date := if hot then "1 day" else "3 days";
     HubSpotFormatter.task_type := if hot then "call" else "research" |}.

(** A lead whose e-mail cell is NaN, as a blank cell of a loaded table. *)
Definition blank_email : gmap string value :=
  <["Contact_Email" := VNaN]> phone_only.

Definition blank_leads : DataFrame :=
  {| columns := columns Examples.scored_leads;
     rows := [blank_email; phone_only] |}.

End Samples.

(** * Properties *)

(** ** Strings *)

Lemma append_nil_l (s : string) : "" +:+ s = s.
Proof. reflexivity. Qed.

Lemma append_cons c (s t : string) : String c s +:+ t = String c (s +:+ t).
Proof. reflexivity. Qed.

Lemma append_nil_r (s : string) : s +:+ "" = s.
Proof.
  induction s as [|c s IH]; [done |]. by rewrite append_cons, IH.
Qed.

Lemma append_assoc (a b c : string) : (a +:+ b) +:+ c = a +:+ (b +:+ c).
Proof.
  induction a as [|x a IH]; [done |]. by rewrite !append_cons, IH.
Qed.

Lemma append_eq_nil (a b : string) : a +:+ b = "" → a = "" ∧ b = "".
Proof.
  destruct a; [rewrite append_nil_l; done | rewrite append_cons; discriminate].
Qed.

Lemma append_eq_cons (a b : string) c s :
  a +:+ b = String c s →
  (a = "" ∧ b = String c s) ∨ (∃ a', a = String c a' ∧ s = a' +:+ b).
Proof.
  destruct a as [|x a]; intros H.
  - by left.
  - right. rewrite append_cons in H. injection H as -> <-. by exists a.
Qed.

Lemma ascii_eqb_true (a b : ascii) : Ascii.eqb a b = true ↔ a = b.
Proof. apply Ascii.eqb_eq. Qed.

Lemma ascii_eqb_false (a b : ascii) : Ascii.eqb a b = false ↔ a ≠ b.
Proof. apply Ascii.eqb_neq. Qed.

(** ** The regular-expression matcher decides the language *)

Lemma nullable_lang (r : Re.regex) : Re.nullable r = true ↔ lang r "".
Proof.
  induction r as [| | c | c | r1 IH1 r2 IH2 | r IH]; simpl.
  - split; [discriminate | inversion 1].
  - split; [constructor | done].
  - split; [discriminate | inversion 1].
  - split; [discriminate | inversion 1].
  - rewrite andb_true_iff, IH1, IH2. split.
    + intros [H1 H2]. apply (lang_cat _ _ "" "" H1 H2).
    + inversion 1 as [| | | ? ? s1 s2 H1 H2 Heq Hs | |]; subst.
      apply append_eq_nil in Hs as [-> ->]. done.
  - split; [constructor | done].
Qed.

Lemma lang_deriv_sound (r : Re.regex) : ∀ c d s,
  d ∈ Re.deriv c r → lang d s → lang r (String c s).
Proof.
  induction r as [| | a | a | r1 IH1 r2 IH2 | r IH]; simpl; intros c d s Hd Hl.
  - by apply elem_of_nil in Hd.
  - by apply elem_of_nil in Hd.
  - destruct (Ascii.eqb a c) eqn:E; [| by apply elem_of_nil in Hd].
    apply ascii_eqb_true in E as ->. apply list_elem_of_singleton in Hd as ->.
    inversion Hl; subst. constructor.
  - destruct (Ascii.eqb a c) eqn:E; [by apply elem_of_nil in Hd |].
    apply ascii_eqb_false in E. apply list_elem_of_singleton in Hd as ->.
    inversion Hl; subst. by constructor.
  - apply elem_of_app in Hd as [Hd | Hd].
    + apply list_elem_of_fmap in Hd as (d1 & -> & Hd1).
      inversion Hl as [| | | ? ? s1 s2 H1 H2 | |]; subst.
      apply (lang_cat r1 r2 (String c s1) s2); [by eapply IH1 | done].
    + destruct (Re.nullable r1) eqn:N; [| by apply elem_of_nil in Hd].
      apply nullable_lang in N.
      apply (lang_cat r1 r2 "" (String c s)); [done | by eapply IH2].
  - apply list_elem_of_fmap in Hd as (d1 & -> & Hd1).
    inversion Hl as [| | | ? ? s1 s2 H1 H2 | |]; subst.
    apply (lang_star_app r (String c s1) s2); [by eapply IH | done].
Qed.

Lemma lang_deriv_complete (r : Re.regex) (w : string) :
  lang r w → ∀ c s, w = String c s → ∃ d, d ∈ Re.deriv c r ∧ lang d s.
Proof.
  induction 1 as [| a | a b Hab | r1 r2 s1 s2 H1 IH1 H2 IH2 |
                  | r s1 s2 H1 IH1 H2 IH2]; intros c s Hw; simpl.
  - discriminate.
  - injection Hw as -> <-. exists Re.Eps. rewrite Ascii.eqb_refl.
    split; [apply list_elem_of_singleton; done | constructor].
  - injection Hw as -> <-. exists Re.Eps.
    apply ascii_eqb_false in Hab. rewrite Hab.
    split; [apply list_elem_of_singleton; done | constructor].
  - apply append_eq_cons in Hw as [[-> ->] | (a' & -> & ->)].
    + destruct (IH2 c s eq_refl) as (d & Hd & Hl).
      exists d. split; [| done]. apply elem_of_app. right.
      apply nullable_lang in H1. by rewrite H1.
    + destruct (IH1 c a' eq_refl) as (d & Hd & Hl).
      exists (Re.Cat d r2). split.
      * apply elem_of_app. left. apply list_elem_of_fmap. by exists d.
      * by constructor.
  - discriminate.
  - apply append_eq_cons in Hw as [[-> ->] | (a' & -> & ->)].
    + by apply IH2.
    + destruct (IH1 c a' eq_refl) as (d & Hd & Hl).
      exists (Re.Cat d (Re.Star r)). split.
      * apply list_elem_of_fmap. by exists d.
      * by constructor.
Qed.

Lemma accepts_lang (s : string) : ∀ rs,
  Re.accepts rs s = true ↔ ∃ r, r ∈ rs ∧ lang r s.
Proof.
  induction s as [|c s IH]; intros rs; simpl.
  - rewrite existsb_exists. split.
    + intros (r & Hin & Hn). exists r. split.
      * by apply list_elem_of_In.
      * by apply nullable_lang.
    + intros (r & Hin & Hl). exists r. split.
      * by apply list_elem_of_In.
      * by apply nullable_lang.
  - rewrite IH. split.
    + intros (d & Hd & Hl). apply list_elem_of_bind in Hd as (r & Hd & Hr).
      exists r. split; [done | by eapply lang_deriv_sound].
    + intros (r & Hr & Hl).
      destruct (lang_deriv_complete r _ Hl c s eq_refl) as (d & Hd & Hl').
      exists d. split; [| done]. apply list_elem_of_bind. by exists r.
Qed.

Lemma fullmatch_lang (r : Re.regex) (s : string) :
  Re.fullmatch r s = true ↔ lang r s.
Proof.
  unfold Re.fullmatch. rewrite accepts_lang. split.
  - intros (r' & Hin & Hl). by apply list_elem_of_singleton in Hin as ->.
  - intros Hl. exists r. split; [by apply list_elem_of_singleton | done].
Qed.

(** ** The e-mail pattern *)

Lemma has_char_app c (a b : string) :
  Spec.has_char c (a +:+ b) = Spec.has_char c a || Spec.has_char c b.
Proof.
  induction a as [|x a IH]; [done |].
  rewrite append_cons. simpl. rewrite IH. by rewrite orb_assoc.
Qed.

Lemma star_notchr_lang a (s : string) :
  lang (Re.Star (Re.NotChr a)) s ↔ Spec.has_char a s = false.
Proof.
  split.
  - remember (Re.Star (Re.NotChr a)) as r eqn:Er. intros H.
    induction H as [| | | | r' | r' s1 s2 H1 _ H2 IH2]; try discriminate.
    + done.
    + injection Er as ->. specialize (IH2 eq_refl).
      inversion H1 as [| | ? c Hac | | |]; subst.
      rewrite has_char_app, IH2. simpl.
      assert (Ascii.eqb c a = false) as ->; [| done].
      apply ascii_eqb_false. congruence.
  - induction s as [|c s IH]; simpl; intros H.
    + constructor.
    + apply orb_false_iff in H as [Hc Hs]. apply ascii_eqb_false in Hc.
      apply (lang_star_app (Re.NotChr a) (String c "") s); [| by apply IH].
      constructor. congruence.
Qed.

Lemma plus_notchr_lang (s : string) :
  lang (Re.Plus (Re.NotChr "@")) s ↔ Spec.piece s.
Proof.
  unfold Re.Plus, Spec.piece. split.
  - inversion 1 as [| | | ? ? s1 s2 H1 H2 | |]; subst.
    inversion H1 as [| | ? c Hac | | |]; subst.
    apply star_notchr_lang in H2. rewrite append_cons, append_nil_l.
    split; [done |]. simpl. rewrite H2.
    assert (Ascii.eqb c "@" = false) as ->; [| done].
    apply ascii_eqb_false. congruence.
  - intros [Hne H]. destruct s as [|c s]; [done |]. simpl in H.
    apply orb_false_iff in H as [Hc Hs]. apply ascii_eqb_false in Hc.
    apply (lang_cat (Re.NotChr "@") _ (String c "") s).
    + constructor. congruence.
    + by apply star_notchr_lang.
Qed.

Lemma email_pattern_lang (s : string) :
  lang LeadProcessor.email_pattern s ↔ Spec.email_shape s.
Proof.
  unfold LeadProcessor.email_pattern, Spec.email_shape, Spec.valid_email. split.
  - inversion 1 as [| | | ? ? l s2 Hl H2 | |]; subst.
    inversion H2 as [| | | ? ? a s3 Ha H3 | |]; subst.
    inversion H3 as [| | | ? ? n s4 Hn H4 | |]; subst.
    inversion H4 as [| | | ? ? d t Hd Ht | |]; subst.
    inversion Ha; subst. inversion Hd; subst.
    apply plus_notchr_lang in Hl, Hn, Ht.
    exists l, (n +:+ "." +:+ t). split; [done |]. split; [done |].
    by exists n, t.
  - intros (l & dom & -> & Hl & n & t & -> & Hn & Ht).
    apply plus_notchr_lang in Hl, Hn, Ht.
    repeat (constructor; try done).
Qed.

Lemma chop_newline_Some (s s' : string) :
  Re.chop_newline s = Some s' → s = s' +:+ String "010" "".
Proof.
  revert s'. induction s as [|c s IH]; intros s'; simpl; [done |].
  destruct s as [|c' s].
  - destruct (Ascii.eqb c "010") eqn:E; [| done].
    apply ascii_eqb_true in E as ->. by intros [= <-].
  - destruct (Re.chop_newline (String c' s)) as [r|]; [| done].
    intros [= <-]. rewrite append_cons. f_equal. by apply IH.
Qed.

Lemma piece_newline (s : string) :
  Spec.piece s → Spec.piece (s +:+ String "010" "").
Proof.
  intros [Hne H]. split.
  - destruct s; [done |]. rewrite append_cons. discriminate.
  - rewrite has_char_app, H. reflexivity.
Qed.

Lemma email_shape_newline (s : string) :
  Spec.email_shape s → Spec.email_shape (s +:+ String "010" "").
Proof.
  intros (l & dom & -> & Hl & n & t & -> & Hn & Ht).
  exists l, (n +:+ "." +:+ t +:+ String "010" ""). split.
  - by rewrite !append_assoc.
  - split; [done |]. exists n, (t +:+ String "010" "").
    split; [done |]. split; [done | by apply piece_newline].
Qed.

Lemma match_anchored_email (s : string) :
  Re.match_anchored LeadProcessor.email_pattern s = true ↔ Spec.email_shape s.
Proof.
  unfold Re.match_anchored. rewrite orb_true_iff, fullmatch_lang, email_pattern_lang.
  split; [| by left].
  intros [H | H]; [done |].
  destruct (Re.chop_newline s) as [s'|] eqn:E; [| done].
  apply chop_newline_Some in E as ->.
  apply fullmatch_lang, email_pattern_lang in H. by apply email_shape_newline.
Qed.

(** ** Splitting at a character *)

Lemma split_nonempty sep m (s : string) : Str.split sep m s ≠ [].
Proof.
  revert m. induction s as [|c s IH]; intros m; simpl; [done |].
  destruct (_ && _); [done |].
  specialize (IH m). by destruct (Str.split sep m s).
Qed.

Lemma split_no_sep sep m (s : string) :
  Spec.has_char sep s = false → Str.split sep m s = [s].
Proof.
  induction s as [|c s IH]; simpl; [done |].
  intros H. apply orb_false_iff in H as [Hc Hs].
  rewrite Hc. simpl. by rewrite IH.
Qed.

Lemma split_at_first sep (l rest : string) :
  Spec.has_char sep l = false →
  Str.split sep None (l +:+ String sep rest) = l :: Str.split sep None rest.
Proof.
  induction l as [|c l IH]; intros H.
  - rewrite append_nil_l. simpl. by rewrite Ascii.eqb_refl.
  - simpl in H. apply orb_false_iff in H as [Hc Hs].
    rewrite append_cons. simpl. rewrite Hc. simpl. by rewrite IH.
Qed.

Lemma split_valid_email (s local domain : string) :
  Spec.valid_email s local domain → Str.split "@" None s = [local; domain].
Proof.
  intros (-> & [_ Hl] & n & t & -> & [_ Hn] & [_ Ht]).
  rewrite (append_cons "@" ""), append_nil_l.
  rewrite (split_at_first "@" local _ Hl). f_equal.
  apply split_no_sep. rewrite !has_char_app, Hn, Ht. reflexivity.
Qed.

Lemma mem_elem_of (s : string) (l : list string) :
  Str.mem s l = true ↔ s ∈ l.
Proof.
  induction l as [|x l IH]; simpl.
  - split; [done | by intros ?%elem_of_nil].
  - rewrite orb_true_iff, IH, elem_of_cons, String.eqb_eq. done.
Qed.

Lemma consumer_domain_mem (domain : string) :
  Spec.consumer_domain domain ↔
  Str.mem (Str.lower domain) LeadProcessor.personal_domains = true.
Proof.
  rewrite mem_elem_of. unfold Spec.consumer_domain, Spec.same_ignoring_case.
  unfold LeadProcessor.personal_domains. split.
  - intros (d & Hd & ->).
    repeat (apply elem_of_cons in Hd as [-> | Hd]; [set_solver |]).
    by apply elem_of_nil in Hd.
  - intros H. exists (Str.lower domain). split; [done |].
    repeat (apply elem_of_cons in H as [-> | H]; [reflexivity |]).
    by apply elem_of_nil in H.
Qed.

Lemma score_email_valid (s local domain : string) :
  Spec.valid_email s local domain →
  LeadProcessor._score_email (VStr s) =
  Ok (if Str.mem (Str.lower domain) LeadProcessor.personal_domains
      then 0.6 else 1.0).
Proof.
  intros Hv. unfold LeadProcessor._score_email.
  assert (Spec.email_shape s) as Hs by (by exists local, domain).
  assert (s ≠ "N/A") as Hna.
  { intros ->. destruct Hv as (H & _).
    apply (f_equal (Spec.has_char "@")) in H. rewrite has_char_app in H.
    simpl in H. rewrite orb_true_r in H. discriminate. }
  apply String.eqb_neq in Hna. simpl. rewrite Hna.
  apply match_anchored_email in Hs. rewrite Hs. simpl.
  by rewrite (split_valid_email _ _ _ Hv).
Qed.

(** ** Substrings *)

Lemma startswith_spec (p : string) : ∀ s,
  Str.startswith p s = true ↔ ∃ post, s = p +:+ post.
Proof.
  induction p as [|a p IH]; intros s; simpl.
  - split; [by exists s | done].
  - destruct s as [|b s].
    + split; [done | intros (post & H); rewrite append_cons in H; discriminate].
    + rewrite andb_true_iff, ascii_eqb_true, IH. split.
      * intros (-> & post & ->). by exists post.
      * intros (post & H). rewrite append_cons in H. injection H as -> ->.
        split; [done | by exists post].
Qed.

Lemma contains_spec (kw s : string) :
  Str.contains kw s = true ↔ Spec.substring kw s.
Proof.
  unfold Spec.substring. induction s as [|c s IH]; simpl.
  - rewrite orb_false_r, startswith_spec. split.
    + intros (post & H). by exists "", post.
    + intros (pre & post & H). symmetry in H.
      apply append_eq_nil in H as [_ H]. exists post. done.
  - rewrite orb_true_iff, startswith_spec, IH. split.
    + intros [(post & H) | (pre & post & H)].
      * by exists "", post.
      * exists (String c pre), post. by rewrite append_cons, H.
    + intros (pre & post & H). destruct pre as [|x pre].
      * left. by exists post.
      * right. rewrite append_cons in H. injection H as -> ->. by exists pre, post.
Qed.

Lemma any_in_spec (kws : list string) (s : string) :
  LeadProcessor.any_in kws s = true ↔ ∃ kw, kw ∈ kws ∧ Spec.substring kw s.
Proof.
  induction kws as [|k kws IH]; simpl.
  - split; [done | by intros (kw & ?%elem_of_nil & _)].
  - destruct (Str.contains k s) eqn:E.
    + split; [| done]. intros _. exists k.
      split; [by left | by apply contains_spec].
    + rewrite IH. split.
      * intros (kw & Hin & Hs). exists kw. split; [by right | done].
      * intros (kw & Hin & Hs). apply elem_of_cons in Hin as [-> | Hin].
        -- apply contains_spec in Hs. congruence.
        -- by exists kw.
Qed.

(** ** Feature extraction *)

(** C4: [email_quality] is 0.0 for a missing e-mail, 0.2 for one that is
    present and does not have the [local@domain.tld] shape, 0.6 for a
    well-shaped one whose domain is, ignoring case, one of gmail.com,
    yahoo.com, hotmail.com and outlook.com, and 1.0 for every other
    well-shaped one; and 0.0 < 0.2 < 0.6 < 1.0. *)
Theorem score_email_cases (email : value) :
  (Spec.missing email → LeadProcessor._score_email email = Ok 0.0) ∧
  (∀ s, email = VStr s → s ≠ "N/A" → ¬ Spec.email_shape s →
        LeadProcessor._score_email email = Ok 0.2) ∧
  (∀ s local domain, email = VStr s → Spec.valid_email s local domain →
        Spec.consumer_domain domain →
        LeadProcessor._score_email email = Ok 0.6) ∧
  (∀ s local domain, email = VStr s → Spec.valid_email s local domain →
        ¬ Spec.consumer_domain domain →
        LeadProcessor._score_email email = Ok 1.0) ∧
  (0.0 < 0.2 ∧ 0.2 < 0.6 ∧ 0.6 < 1.0).
Proof.
  split; [| split; [| split; [| split]]].
  - intros [[-> | ->] | ->]; reflexivity.
  - intros s -> Hna Hshape. unfold LeadProcessor._score_email. simpl.
    apply String.eqb_neq in Hna. rewrite Hna.
    destruct (Re.match_anchored _ s) eqn:E; [| done].
    by apply match_anchored_email in E.
  - intros s local domain -> Hv Hc. rewrite (score_email_valid _ _ _ Hv).
    apply consumer_domain_mem in Hc. by rewrite Hc.
  - intros s local domain -> Hv Hc. rewrite (score_email_valid _ _ _ Hv).
    destruct (Str.mem _ _) eqn:E; [| done].
    by apply consumer_domain_mem in E.
  - repeat split; reflexivity.
Qed.

Lemma score_email_cases_witness :
  LeadProcessor._score_email VNaN = Ok 0.0 ∧
  LeadProcessor._score_email (VStr "sales at acme") = Ok 0.2 ∧
  LeadProcessor._score_email (VStr "ann@GMail.com") = Ok 0.6 ∧
  LeadProcessor._score_email (VStr "ann@acme.io") = Ok 1.0.
Proof.
  assert (Spec.valid_email "ann@GMail.com" "ann" "GMail.com") as V1.
  { split; [reflexivity |]. split; [by split |].
    exists "GMail", "com". by repeat split. }
  assert (Spec.valid_email "ann@acme.io" "ann" "acme.io") as V2.
  { split; [reflexivity |]. split; [by split |].
    exists "acme", "io". by repeat split. }
  split; [| split; [| split]].
  - apply (score_email_cases VNaN). left. by left.
  - apply (score_email_cases (VStr "sales at acme")) with (s := "sales at acme");
      [reflexivity | discriminate |].
    intros H. apply match_anchored_email in H. vm_compute in H. discriminate.
  - apply (score_email_cases (VStr "ann@GMail.com")) with (1 := eq_refl) (2 := V1).
    exists "gmail.com". split; [set_solver | reflexivity].
  - apply (score_email_cases (VStr "ann@acme.io")) with (1 := eq_refl) (2 := V2).
    intros H. apply consumer_domain_mem in H. vm_compute in H. discriminate.
Defined.

Lemma count_filled_sentinel (row : gmap string value) (f : string)
    (fields : list string) : ∀ n,
  LeadProcessor.count_filled (<[f := VStr "N/A"]> row) fields n =
  LeadProcessor.count_filled (<[f := VNaN]> row) fields n.
Proof.
  induction fields as [|g fields IH]; intros n; simpl; [done |].
  unfold row_getitem. destruct (decide (f = g)) as [-> | Hne].
  - rewrite !lookup_insert_eq. simpl. apply IH.
  - rewrite !lookup_insert_ne by done.
    destruct (row !! g); simpl; [apply IH | done].
Qed.

Lemma score_industry_str (s : string) :
  LeadProcessor._score_industry (VStr s) =
  Ok (if LeadProcessor.any_in LeadProcessor.tech_industries (Str.lower s)
      then 1.0 else 0.7).
Proof.
  unfold LeadProcessor._score_industry.
  by destruct (LeadProcessor.any_in _ _).
Qed.

(** C7: [industry_fit] is 0.5 for an absent industry, 1.0 when the
    lower-cased industry contains software, technology, saas or tech, and
    0.7 otherwise; the string "N/A" is not absent here and gives 0.7, while
    the e-mail, phone and title scorers and the completeness count give
    "N/A" what they give an absent cell. *)
Theorem score_industry_cases (industry : value) :
  (Spec.absent industry → LeadProcessor._score_industry industry = Ok 0.5) ∧
  (∀ s, industry = VStr s →
        (∃ kw, kw ∈ ["software"; "technology"; "saas"; "tech"]
               ∧ Spec.substring kw (Str.lower s)) →
        LeadProcessor._score_industry industry = Ok 1.0) ∧
  (∀ s, industry = VStr s →
        ¬ (∃ kw, kw ∈ ["software"; "technology"; "saas"; "tech"]
                 ∧ Spec.substring kw (Str.lower s)) →
        LeadProcessor._score_industry industry = Ok 0.7) ∧
  LeadProcessor._score_industry (VStr "N/A") = Ok 0.7 ∧
  (∀ v, Spec.missing v →
        LeadProcessor._score_email v = Ok 0.0 ∧
        LeadProcessor._score_phone v = Ok 0.0 ∧
        LeadProcessor._score_title v = Ok 0.0) ∧
  (∀ row field,
        LeadProcessor.completeness_of_row (<[field := VStr "N/A"]> row) =
        LeadProcessor.completeness_of_row (<[field := VNaN]> row)).
Proof.
  split; [| split; [| split; [| split; [| split]]]].
  - intros [-> | ->]; reflexivity.
  - intros s -> H. rewrite score_industry_str.
    apply any_in_spec in H. unfold LeadProcessor.tech_industries. by rewrite H.
  - intros s -> H. rewrite score_industry_str.
    destruct (LeadProcessor.any_in _ _) eqn:E; [| done].
    by apply any_in_spec in E.
  - reflexivity.
  - intros v [[-> | ->] | ->]; repeat split; reflexivity.
  - intros row field. unfold LeadProcessor.completeness_of_row.
    by rewrite count_filled_sentinel.
Qed.

Lemma score_industry_cases_witness :
  LeadProcessor._score_industry VNaN = Ok 0.5 ∧
  LeadProcessor._score_industry (VStr "FinTech") = Ok 1.0 ∧
  LeadProcessor._score_industry (VStr "Consulting") = Ok 0.7 ∧
  LeadProcessor._score_title (VStr "N/A") = Ok 0.0.
Proof.
  split; [| split; [| split]].
  - apply (score_industry_cases VNaN). by left.
  - apply (score_industry_cases (VStr "FinTech")) with (s := "FinTech");
      [reflexivity |].
    exists "tech". split; [set_solver |]. by exists "fin", "".
  - apply (score_industry_cases (VStr "Consulting")) with (s := "Consulting");
      [reflexivity |].
    intros H. apply any_in_spec in H. vm_compute in H. discriminate.
  - apply (score_industry_cases VNaN). by right.
Defined.

(** ** Categories *)

Lemma Qle_bool_false (a b : Q) : Qle_bool a b = false ↔ b < a.
Proof.
  split.
  - intros H. apply Qnot_le_lt. intros Hle. apply Qle_bool_iff in Hle. congruence.
  - intros H. destruct (Qle_bool a b) eqn:E; [| done].
    apply Qle_bool_iff in E. lra.
Qed.

Lemma categorize_loop_map (scores : list Q) : ∀ categories,
  LeadScorer.categorize_loop scores categories =
  (categories ++ map LeadScorer.category_of scores)%list.
Proof.
  induction scores as [|x scores IH]; intros categories; simpl.
  - by rewrite app_nil_r.
  - by rewrite IH, <- app_assoc.
Qed.

Lemma category_of_thresholds (score : Q) :
  (0.8 <= score → LeadScorer.category_of score = "Hot Lead") ∧
  (0.6 <= score < 0.8 → LeadScorer.category_of score = "Warm Lead") ∧
  (0.4 <= score < 0.6 → LeadScorer.category_of score = "Cold Lead") ∧
  (score < 0.4 → LeadScorer.category_of score = "Low Priority").
Proof.
  unfold LeadScorer.category_of, Qgeb.
  destruct (Qle_bool 0.8 score) eqn:E1;
    [apply Qle_bool_iff in E1 | apply Qle_bool_false in E1];
  (destruct (Qle_bool 0.6 score) eqn:E2;
    [apply Qle_bool_iff in E2 | apply Qle_bool_false in E2]);
  (destruct (Qle_bool 0.4 score) eqn:E3;
    [apply Qle_bool_iff in E3 | apply Qle_bool_false in E3]);
  repeat split; intros; try reflexivity; lra.
Qed.

(** C5: the category of a lead is a function of its score alone, with
    inclusive lower bounds: at least 0.8 is "Hot Lead", from 0.6 up to 0.8
    "Warm Lead", from 0.4 up to 0.6 "Cold Lead", below 0.4 "Low Priority";
    exactly 0.8, 0.6 and 0.4 are Hot, Warm and Cold. *)
Theorem categorize_leads_thresholds (scores : list Q) :
  LeadScorer.categorize_leads scores = map LeadScorer.category_of scores ∧
  (∀ score,
     (0.8 <= score → LeadScorer.category_of score = "Hot Lead") ∧
     (0.6 <= score < 0.8 → LeadScorer.category_of score = "Warm Lead") ∧
     (0.4 <= score < 0.6 → LeadScorer.category_of score = "Cold Lead") ∧
     (score < 0.4 → LeadScorer.category_of score = "Low Priority")) ∧
  LeadScorer.categorize_leads [0.8; 0.6; 0.4] =
    ["Hot Lead"; "Warm Lead"; "Cold Lead"].
Proof.
  split; [| split].
  - unfold LeadScorer.categorize_leads. by rewrite categorize_loop_map.
  - apply category_of_thresholds.
  - reflexivity.
Qed.

Lemma categorize_leads_thresholds_witness :
  LeadScorer.category_of 0.85 = "Hot Lead" ∧
  LeadScorer.category_of 0.7 = "Warm Lead" ∧
  LeadScorer.category_of 0.5 = "Cold Lead" ∧
  LeadScorer.category_of 0.39 = "Low Priority".
Proof.
  pose proof (categorize_leads_thresholds []) as (_ & H & _).
  split; [| split; [| split]].
  - apply (H 0.85). lra.
  - apply (H 0.7). lra.
  - apply (H 0.5). lra.
  - apply (H 0.39). lra.
Defined.

(** ** Label synthesis *)

Lemma pow2_pos (e : Z) : 0 < 2 ^ e.
Proof. by apply Qpower_0_lt. Qed.

Lemma pow2_add (a b : Z) : 2 ^ (a + b) == 2 ^ a * 2 ^ b.
Proof. by apply Qpower_plus. Qed.

Lemma pow2_le (a b : Z) : (a <= b)%Z → 2 ^ a <= 2 ^ b.
Proof. intros H. by apply Qpower_le_compat_l. Qed.

Lemma pow2_inject (n : Z) : (0 <= n)%Z → inject_Z (2 ^ n) == 2 ^ n.
Proof. intros H. by rewrite Zpower_Qpower. Qed.

Lemma pow2_succ (a : Z) : 2 ^ (a + 1) == 2 * 2 ^ a.
Proof. rewrite pow2_add. change (2 ^ 1) with 2. ring. Qed.

Lemma Zlog2_Q (n : Z) :
  (0 < n)%Z → 2 ^ Z.log2 n <= inject_Z n ∧ inject_Z n < 2 ^ (Z.log2 n + 1).
Proof.
  intros H. destruct (Z.log2_spec n H) as [H1 H2].
  pose proof (Z.log2_nonneg n) as H0. split.
  - rewrite <- pow2_inject by done. by rewrite <- Zle_Qle.
  - rewrite <- pow2_inject by lia. rewrite <- Zlt_Qlt.
    by rewrite <- Z.add_1_r in H2.
Qed.

Lemma Q_num_den (q : Q) : q * inject_Z (Z.pos (Qden q)) == inject_Z (Qnum q).
Proof. destruct q as [n d]. unfold Qeq. simpl. lia. Qed.

Lemma ilog2_spec (q : Q) :
  0 < q → 2 ^ Float.ilog2 q <= q ∧ q < 2 ^ (Float.ilog2 q + 1).
Proof.
  intros Hq. unfold Float.ilog2.
  set (a := Z.log2 (Qnum q)). set (b := Z.log2 (Z.pos (Qden q))).
  assert (0 < Qnum q)%Z as Hn.
  { unfold Qlt in Hq. simpl in Hq. lia. }
  destruct (Zlog2_Q (Qnum q) Hn) as [Na Nb]. fold a in Na, Nb.
  destruct (Zlog2_Q (Z.pos (Qden q)) eq_refl) as [Da Db]. fold b in Da, Db.
  assert (0 < inject_Z (Z.pos (Qden q))) as Hd by reflexivity.
  pose proof (pow2_pos a). pose proof (pow2_pos b).
  pose proof (pow2_pos (a - b)). pose proof (pow2_pos (a - b - 1)).
  assert (2 ^ a == 2 ^ (a - b) * 2 ^ b) as Eab.
  { rewrite <- pow2_add. by replace (a - b + b)%Z with a by lia. }
  assert (2 ^ (a - b) == 2 * 2 ^ (a - b - 1)) as Eab1.
  { rewrite <- pow2_succ. by replace (a - b - 1 + 1)%Z with (a - b)%Z by lia. }
  pose proof (Q_num_den q) as Hmul.
  rewrite pow2_succ in Nb, Db.
  destruct (Qle_bool (2 ^ (a - b)) q) eqn:E.
  - apply Qle_bool_iff in E. split; [done |].
    rewrite pow2_succ.
    (* q * d = n < 2 * 2^a = 2 * 2^(a-b) * 2^b <= 2 * 2^(a-b) * d *)
    apply Qnot_le_lt. intros Hc.
    assert (2 * 2 ^ (a - b) * 2 ^ b <= q * inject_Z (Z.pos (Qden q))) as Hc'.
    { apply Qle_trans with (2 * 2 ^ (a - b) * inject_Z (Z.pos (Qden q))).
      - apply Qmult_le_l; [nra | done].
      - apply Qmult_le_r; done. }
    rewrite Hmul in Hc'. rewrite <- Qmult_assoc, <- Eab in Hc'. lra.
  - apply Qle_bool_false in E.
    replace (a - b - 1 + 1)%Z with (a - b)%Z by lia. split; [| done].
    (* 2^(a-b-1) * d < 2^(a-b-1) * 2 * 2^b = 2^a <= n = q * d *)
    apply Qnot_lt_le. intros Hc.
    assert (q * inject_Z (Z.pos (Qden q))
            < 2 ^ (a - b - 1) * (2 * 2 ^ b)) as Hc'.
    { apply Qlt_trans with (2 ^ (a - b - 1) * inject_Z (Z.pos (Qden q))).
      - apply Qmult_lt_r; done.
      - apply Qmult_lt_l; done. }
    rewrite Hmul in Hc'.
    assert (2 ^ (a - b - 1) * (2 * 2 ^ b) == 2 ^ a) as E2.
    { rewrite Eab, Eab1. ring. }
    rewrite E2 in Hc'. lra.
Qed.


Lemma ilog2_mono (x y : Q) : 0 < x → x <= y → (Float.ilog2 x <= Float.ilog2 y)%Z.
Proof.
  intros Hx Hxy.
  destruct (ilog2_spec x Hx) as [X1 X2].
  destruct (ilog2_spec y) as [Y1 Y2]; [lra |].
  destruct (Z.le_gt_cases (Float.ilog2 x) (Float.ilog2 y)) as [H | H]; [done |].
  pose proof (pow2_le (Float.ilog2 y + 1) (Float.ilog2 x) ltac:(lia)). lra.
Qed.

Lemma rne_bounds (x : Q) :
  inject_Z (Float.rne x) - (1 # 2) <= x ∧ x <= inject_Z (Float.rne x) + (1 # 2).
Proof.
  unfold Float.rne.
  pose proof (Qfloor_le x) as F1. pose proof (Qlt_floor x) as F2.
  rewrite inject_Z_plus in F2. change (inject_Z 1) with 1 in F2.
  destruct (Qcompare_spec (x - inject_Z (Qfloor x)) (1 # 2)) as [E | E | E].
  - destruct (Z.even (Qfloor x)); rewrite ?inject_Z_plus;
      change (inject_Z 1) with 1; lra.
  - lra.
  - rewrite inject_Z_plus. change (inject_Z 1) with 1. lra.
Qed.

Lemma rne_tie (x : Q) :
  x - inject_Z (Qfloor x) == 1 # 2 →
  Float.rne x = if Z.even (Qfloor x) then Qfloor x else (Qfloor x + 1)%Z.
Proof. intros H. unfold Float.rne. apply Qeq_alt in H. by rewrite H. Qed.

Lemma rne_mono (x y : Q) : x <= y → (Float.rne x <= Float.rne y)%Z.
Proof.
  intros Hxy.
  destruct (Z.le_gt_cases (Float.rne x) (Float.rne y)) as [H | H]; [done |].
  exfalso.
  (* rne y + 1 <= rne x, both within 1/2 of x <= y: then x = y is the
     midpoint of two consecutive integers, and both chose differently *)
  pose proof (rne_bounds x) as [X1 X2]. pose proof (rne_bounds y) as [Y1 Y2].
  assert (inject_Z (Float.rne y) + 1 <= inject_Z (Float.rne x)) as Hz.
  { change 1 with (inject_Z 1). rewrite <- inject_Z_plus, <- Zle_Qle. lia. }
  assert (x == y) as Exy by lra.
  assert (x == inject_Z (Float.rne y) + (1 # 2)) as Ex by lra.
  assert (Float.rne x = Float.rne y + 1)%Z as Er.
  { apply inject_Z_injective. rewrite inject_Z_plus.
    change (inject_Z 1) with 1. lra. }
  assert (Qfloor x = Float.rne y) as Fx.
  { apply Z.le_antisymm.
    - apply Z.lt_succ_r. rewrite Zlt_Qlt. unfold Z.succ. rewrite inject_Z_plus.
      change (inject_Z 1) with 1. pose proof (Qfloor_le x). lra.
    - assert (inject_Z (Float.rne y) <= x) as Hle by lra.
      apply Qfloor_resp_le in Hle. by rewrite Qfloor_Z in Hle. }
  assert (Qfloor y = Float.rne y) as Fy.
  { rewrite <- Fx. apply Z.le_antisymm; apply Qfloor_resp_le; lra. }
  assert (x - inject_Z (Qfloor x) == 1 # 2) as Hx by (rewrite Fx; lra).
  assert (y - inject_Z (Qfloor y) == 1 # 2) as Hy by (rewrite Fy; lra).
  rewrite (rne_tie x Hx) in Er. rewrite (rne_tie y Hy) in Er.
  rewrite Fx, Fy in Er. destruct (Z.even (Float.rne y)); lia.
Qed.

Lemma rne_inject (k : Z) : Float.rne (inject_Z k) = k.
Proof.
  unfold Float.rne. rewrite Qfloor_Z.
  destruct (Qcompare_spec (inject_Z k - inject_Z k) (1 # 2)) as [E | E | E];
    [lra | done | lra].
Qed.

Lemma round_pos_nonneg (q : Q) : 0 < q → 0 <= Float.round_pos q.
Proof.
  intros Hq. unfold Float.round_pos.
  set (e := Z.max _ _). pose proof (pow2_pos e).
  apply Qmult_le_0_compat; [| lra].
  assert (0 <= q / 2 ^ e) as H0.
  { apply Qle_shift_div_l; lra. }
  apply (rne_mono (inject_Z 0)) in H0. rewrite rne_inject in H0.
  change 0 with (inject_Z 0). by rewrite <- Zle_Qle.
Qed.

Lemma round_pos_mono (x y : Q) :
  0 < x → x <= y → Float.round_pos x <= Float.round_pos y.
Proof.
  intros Hx Hxy. assert (0 < y) as Hy by lra.
  unfold Float.round_pos.
  pose proof (ilog2_mono x y Hx Hxy) as Hl.
  set (ex := Z.max (Float.ilog2 x - 52) (-1074)).
  set (ey := Z.max (Float.ilog2 y - 52) (-1074)).
  pose proof (pow2_pos ex) as Px. pose proof (pow2_pos ey) as Py.
  destruct (Z.eq_dec ex ey) as [E | E].
  - rewrite <- E. apply Qmult_le_r; [done |]. rewrite <- Zle_Qle.
    apply rne_mono. apply Qmult_le_r; [by apply Qinv_lt_0_compat | done].
  - assert (ex + 1 <= ey)%Z as Hlt by lia.
    assert (ey = Float.ilog2 y - 52)%Z as Ey by lia.
    destruct (ilog2_spec x Hx) as [_ X2]. destruct (ilog2_spec y Hy) as [Y1 _].
    (* the left side is at most 2^(ex+53), the right side at least 2^(ey+52) *)
    apply Qle_trans with (2 ^ (ex + 53)).
    + rewrite pow2_add, (Qmult_comm (2 ^ ex)). apply Qmult_le_r; [done |].
      rewrite <- (pow2_inject 53) by lia. rewrite <- Zle_Qle.
      rewrite <- (rne_inject (2 ^ 53)). apply rne_mono.
      rewrite (pow2_inject 53) by lia.
      apply Qle_shift_div_r; [done |]. rewrite Qmult_comm, <- pow2_add.
      apply Qle_trans with (2 ^ (Float.ilog2 x + 1)); [lra |].
      apply pow2_le. lia.
    + apply Qle_trans with (2 ^ (ey + 52)); [apply pow2_le; lia |].
      rewrite (pow2_add ey 52), Qmult_comm. apply Qmult_le_r; [done |].
      rewrite <- (pow2_inject 52) by lia. rewrite <- Zle_Qle.
      rewrite <- (rne_inject (2 ^ 52)) at 1. apply rne_mono.
      rewrite (pow2_inject 52) by lia.
      apply Qle_shift_div_l; [done |]. rewrite <- pow2_add.
      replace (52 + ey)%Z with (Float.ilog2 y) by lia. done.
Qed.

Lemma round_mono (p q : Q) : p <= q → Float.le (Float.round p) (Float.round q) = true.
Proof.
  intros Hpq. unfold Float.round.
  destruct (Qcompare_spec p 0) as [Ep | Ep | Ep];
    destruct (Qcompare_spec q 0) as [Eq | Eq | Eq]; try lra; cbv zeta.
  - reflexivity.
  - pose proof (round_pos_nonneg q Eq).
    destruct (Qle_bool Float.overflow (Float.round_pos q)); simpl; [done |].
    by apply Qle_bool_iff.
  - pose proof (round_pos_nonneg (- p) ltac:(lra)).
    destruct (Qle_bool Float.overflow (Float.round_pos (- p))); simpl; [done |].
    apply Qle_bool_iff. lra.
  - pose proof (round_pos_mono (- q) (- p) ltac:(lra) ltac:(lra)) as Hm.
    destruct (Qle_bool Float.overflow (Float.round_pos (- p))) eqn:Op;
      [destruct (Qle_bool Float.overflow (Float.round_pos (- q))); reflexivity |].
    apply Qle_bool_false in Op.
    destruct (Qle_bool Float.overflow (Float.round_pos (- q))) eqn:Oq.
    + apply Qle_bool_iff in Oq. lra.
    + simpl. apply Qle_bool_iff. lra.
  - pose proof (round_pos_nonneg (- p) ltac:(lra)).
    pose proof (round_pos_nonneg q Eq).
    destruct (Qle_bool Float.overflow (Float.round_pos (- p)));
      [destruct (Qle_bool Float.overflow (Float.round_pos q)); reflexivity |].
    destruct (Qle_bool Float.overflow (Float.round_pos q)); simpl; [done |].
    apply Qle_bool_iff. lra.
  - pose proof (round_pos_mono p q Ep Hpq) as Hm.
    destruct (Qle_bool Float.overflow (Float.round_pos q)) eqn:Oq.
    + by destruct (Qle_bool Float.overflow (Float.round_pos p)).
    + apply Qle_bool_false in Oq.
      destruct (Qle_bool Float.overflow (Float.round_pos p)) eqn:Op.
      * apply Qle_bool_iff in Op. lra.
      * simpl. by apply Qle_bool_iff.
Qed.

Lemma round_not_nan (q : Q) : Float.round q ≠ Float.NaN.
Proof.
  unfold Float.round. destruct (Qcompare q 0); cbv zeta; [done | |];
    by destruct (Qle_bool _ _).
Qed.

Lemma add_mono (x y : Q) (n : Float.float) :
  x <= y →
  Float.add (Float.Finite x) n = Float.add (Float.Finite y) n ∨
  (Float.le (Float.add (Float.Finite x) n) (Float.add (Float.Finite y) n) = true).
Proof.
  intros H. destruct n as [z| | |]; simpl; [right | by left..].
  apply round_mono. lra.
Qed.

Ltac float_bools :=
  repeat (simpl in *;
          match goal with
          | H : true = false |- _ => discriminate H
          | H : false = true |- _ => discriminate H
          | H : Qle_bool _ _ = true |- _ => apply Qle_bool_iff in H
          | H : Qle_bool _ _ = false |- _ => apply Qle_bool_false in H
          | |- context [Qle_bool ?a ?b] => destruct (Qle_bool a b) eqn:?
          | H : context [Qle_bool ?a ?b] |- _ => destruct (Qle_bool a b) eqn:?
          end).

Lemma clip_gt_mono (r r' : Float.float) (k : Q) :
  Float.le r r' = true →
  Float.gt (Float.clip r Float.zero Float.one) (Float.Finite k) = true →
  Float.gt (Float.clip r' Float.zero Float.one) (Float.Finite k) = true.
Proof.
  unfold Float.clip, Float.maximum, Float.minimum, Float.gt, Float.le,
    Float.zero, Float.one.
  destruct r as [x| | |], r' as [y| | |]; simpl; intros Hle Hgt;
    try discriminate; float_bools; try reflexivity; lra.
Qed.

(** ** The label rule *)

Lemma label_of_row_rule (row : gmap string value) (e p t d i : Q)
    (n : Float.float) :
  Spec.feature_row row e p t d i →
  ∃ l, LeadScorer.label_of_row row n = Ok l ∧
       (l = 1%nat ↔ Spec.float_rule e p t d i n = true) ∧
       (l = 0%nat ∨ l = 1%nat).
Proof.
  intros (He & Hp & Ht & Hd & Hi).
  unfold LeadScorer.label_of_row, row_getitem.
  rewrite He, Hp, Ht, Hd, Hi. simpl.
  unfold Qgeb, Spec.float_rule, Spec.bonuses, Spec.float_sum, Spec.bonus.
  destruct (Qle_bool 0.8 e), (Qle_bool 0.8 t), (Qle_bool 0.75 d),
    (Qle_bool 0.9 i), (Qle_bool 0.8 p);
  unfold mbind, result_bind; cbn [fold_left app andb];
  match goal with
  | |- context [if ?c then 1%nat else 0%nat] => destruct c
  end;
  (eexists; split; [reflexivity |]; split;
   [split; intros; first [reflexivity | discriminate] | auto]).
Qed.

Lemma labels_loop_rule (rs : list (gmap string value)) (noise : nat → Float.float) :
  ∀ k acc,
  Forall Spec.is_feature_row rs →
  ∃ ls, LeadScorer.labels_loop rs noise k acc = Ok (acc ++ ls)%list ∧
        length ls = length rs ∧
        ∀ j row, rs !! j = Some row →
          ∃ l, ls !! j = Some l ∧
               LeadScorer.label_of_row row (noise (k + j)%nat) = Ok l.
Proof.
  induction rs as [|r rs IH]; intros k acc Hall; simpl.
  - exists []. rewrite app_nil_r. repeat split; [done..|]. intros j row H. done.
  - apply Forall_cons in Hall as [(e & p & t & d & i & Hr) Hall].
    destruct (label_of_row_rule r e p t d i (noise k) Hr) as (l & Hl & _).
    rewrite Hl. simpl.
    destruct (IH (S k) (acc ++ [l])%list Hall) as (ls & Hls & Hlen & Hj).
    exists (l :: ls). split; [| split].
    + rewrite Hls. by rewrite <- app_assoc.
    + simpl. by rewrite Hlen.
    + intros [|j] row H; simpl in *.
      * injection H as <-. exists l. by rewrite Nat.add_0_r.
      * destruct (Hj j row H) as (l' & H1 & H2). exists l'.
        split; [done |]. by rewrite <- Nat.add_succ_comm.
Qed.

(** C6: on a table whose rows carry the five features, the label of row [j]
    is 1 exactly when the clamped score exceeds 0.6, where the score adds to
    0.0, in this order, 0.4 if email_quality and title_value are both at
    least 0.8, 0.3 if data_completeness is at least 0.75, 0.2 if
    industry_fit is at least 0.9, 0.1 if phone_quality is at least 0.8, and
    the noise drawn for that row, every sum being a float sum; it is the
    value of [label_of_row] on that row and that draw, so no other row takes
    part in it. *)
Theorem create_training_labels_rule (df : DataFrame)
    (noise : nat → Float.float) :
  Forall Spec.is_feature_row (rows df) →
  ∃ labels,
    LeadScorer.create_training_labels df noise = Ok labels ∧
    length labels = length (rows df) ∧
    ∀ j row e p t d i,
      rows df !! j = Some row → Spec.feature_row row e p t d i →
      ∃ l, labels !! j = Some l ∧
           LeadScorer.label_of_row row (noise j) = Ok l ∧
           (l = 1%nat ↔ Spec.float_rule e p t d i (noise j) = true) ∧
           (l = 0%nat ∨ l = 1%nat).
Proof.
  intros Hall. unfold LeadScorer.create_training_labels.
  destruct (labels_loop_rule (rows df) noise 0%nat [] Hall) as (ls & Hls & Hlen & Hj).
  exists ls. split; [done |]. split; [done |].
  intros j row e p t d i Hrow Hf.
  destruct (Hj j row Hrow) as (l & H1 & H2). exists l.
  split; [done |]. split; [done |].
  destruct (label_of_row_rule row e p t d i (noise j) Hf) as (l' & H3 & H4 & H5).
  simpl in H2. rewrite H2 in H3. injection H3 as <-. done.
Qed.

(** C6 as the specification words it, with the sum [s] a number, fails.
    With the e-mail and title bonus, the industry bonus and a noise of 0.0
    the sum is 0.6, which is not above the threshold, but the float sum
    0.4 + 0.2 is the next float above 0.6, and the label is 1.  The other
    way to reach 0.6, by 0.3 + 0.2 + 0.1, gives the float 0.6 and the
    label 0. *)
Theorem label_rule_is_not_exact :
  LeadScorer.label_of_row (Examples.features 1 0 1 0.5 1) Float.zero = Ok 1%nat ∧
  ¬ 0.6 < Spec.clamp (Spec.heuristic 1 0 1 0.5 1 + 0) 0 1 ∧
  LeadScorer.label_of_row (Examples.features 0 1 0 1 1) Float.zero = Ok 0%nat ∧
  Spec.heuristic 0 1 0 1 1 == Spec.heuristic 1 0 1 0.5 1.
Proof.
  split; [by vm_compute |]. split; [| split; [by vm_compute |]].
  - vm_compute. intros H. discriminate H.
  - by vm_compute.
Qed.

(** ** Feature engineering works on a copy *)

Lemma traverse_Forall2 {A B} (f : A → result B) (l : list A) : ∀ ys,
  traverse f l = Ok ys ↔ Forall2 (fun a y => f a = Ok y) l ys.
Proof.
  induction l as [|a l IH]; intros ys; simpl.
  - split.
    + intros [= <-]. constructor.
    + by inversion 1.
  - destruct (f a) as [y|e] eqn:Ea; simpl.
    + destruct (traverse f l) as [ys'|e] eqn:El; simpl.
      * split.
        -- intros [= <-]. constructor; [done | by apply IH].
        -- inversion 1 as [|? y' ? ys'' Hy Hys]; subst.
           apply IH in Hys. congruence.
      * split; [done |]. inversion 1 as [|? y' ? ys'' Hy Hys]; subst.
        apply IH in Hys. discriminate.
    + split; [done |]. inversion 1; subst. congruence.
Qed.

Lemma traverse_total {A B} (f : A → result B) (l : list A) :
  Forall (fun a => ∃ y, f a = Ok y) l → ∃ ys, traverse f l = Ok ys.
Proof.
  induction 1 as [|a l [y Hy] _ [ys IH]]; simpl.
  - by exists [].
  - rewrite Hy, IH. by exists (y :: ys).
Qed.

Lemma completeness_loop_Forall2 (rs : list (gmap string value)) : ∀ acc out,
  LeadProcessor.completeness_loop rs acc = Ok out →
  ∃ cs, out = (acc ++ cs)%list ∧
        Forall2 (fun row c => LeadProcessor.completeness_of_row row = Ok c) rs cs.
Proof.
  induction rs as [|r rs IH]; intros acc out; simpl.
  - intros [= <-]. exists []. by rewrite app_nil_r.
  - destruct (LeadProcessor.completeness_of_row r) as [c|e] eqn:E; simpl; [| done].
    intros H. apply IH in H as (cs & -> & Hcs).
    exists (c :: cs). split; [by rewrite <- app_assoc | by constructor].
Qed.

Lemma completeness_loop_total (rs : list (gmap string value)) : ∀ acc,
  Forall (fun row => ∃ c, LeadProcessor.completeness_of_row row = Ok c) rs →
  ∃ out, LeadProcessor.completeness_loop rs acc = Ok out.
Proof.
  induction rs as [|r rs IH]; intros acc Hall; simpl.
  - by exists acc.
  - apply Forall_cons in Hall as [[c Hc] Hall]. rewrite Hc. simpl. by apply IH.
Qed.

Lemma score_email_total (v : value) :
  Spec.text_cell v = true → ∃ q, LeadProcessor._score_email v = Ok q.
Proof.
  intros H. destruct v as [| |s|q]; [by eexists | by eexists | | done].
  unfold LeadProcessor._score_email. simpl.
  destruct (String.eqb s "N/A"); [by eexists |].
  destruct (Re.match_anchored _ s) eqn:E; simpl; [| by eexists].
  apply match_anchored_email in E as (l & d & Hv).
  rewrite (split_valid_email _ _ _ Hv). by eexists.
Qed.

Lemma score_phone_total (v : value) :
  Spec.text_cell v = true → ∃ q, LeadProcessor._score_phone v = Ok q.
Proof.
  intros H. destruct v as [| |s|q]; [by eexists | by eexists | | done].
  unfold LeadProcessor._score_phone. simpl.
  destruct (String.eqb s "N/A"); [by eexists |].
  destruct (_ || _); by eexists.
Qed.

Lemma score_title_total (v : value) :
  Spec.text_cell v = true → ∃ q, LeadProcessor._score_title v = Ok q.
Proof.
  intros H. destruct v as [| |s|q]; [by eexists | by eexists | | done].
  unfold LeadProcessor._score_title.
  destruct (pd_isna (VStr s) || eq_str (VStr s) "N/A"); [by eexists |].
  destruct (LeadProcessor.any_in _ _); [by eexists |].
  destruct (LeadProcessor.any_in _ _); by eexists.
Qed.

Lemma score_industry_total (v : value) :
  Spec.text_cell v = true → ∃ q, LeadProcessor._score_industry v = Ok q.
Proof.
  intros H. destruct v as [| |s|q]; [by eexists | by eexists | | done].
  rewrite score_industry_str. by eexists.
Qed.

Lemma count_filled_total (row : gmap string value) (fields : list string) : ∀ n,
  Forall (fun c => is_Some (row !! c)) fields →
  ∃ m, LeadProcessor.count_filled row fields n = Ok m.
Proof.
  induction fields as [|f fields IH]; intros n Hall; simpl.
  - by exists n.
  - apply Forall_cons in Hall as [[v Hv] Hall].
    unfold row_getitem. rewrite Hv. simpl. by apply IH.
Qed.

Lemma M_bind_run {A B} (m : M A) (k : A → M B) (h : gmap ref DataFrame) :
  (m ≫= k) h = match m h with
               | (Ok a, h') => k a h'
               | (Raise e, h') => (Raise e, h')
               end.
Proof. reflexivity. Qed.

Lemma add_feature_run (h : gmap ref DataFrame) (df r' : ref)
    (frame cur : DataFrame) (feature source : string) scorer :
  h !! df = Some frame → h !! r' = Some cur →
  LeadProcessor.add_feature df r' feature source scorer h =
  match Pure.with_feature frame cur feature source scorer with
  | Ok cur' => (Ok tt, <[r' := cur']> h)
  | Raise e => (Raise e, h)
  end.
Proof.
  intros Hdf Hr'. unfold LeadProcessor.add_feature, Pure.with_feature.
  unfold getitem, setitem. rewrite !M_bind_run. unfold deref at 1. rewrite Hdf.
  unfold lift at 1. destruct (column frame source) as [cells|e]; simpl; [| done].
  rewrite M_bind_run. unfold lift at 1.
  destruct (traverse scorer cells) as [scores|e]; simpl; [| done].
  rewrite !M_bind_run. unfold deref. rewrite Hr'.
  unfold lift. destruct (set_column cur feature _) as [cur'|e]; simpl; done.
Qed.

Lemma set_completeness_run (h : gmap ref DataFrame) (df r' : ref)
    (frame cur : DataFrame) (k : M ref) :
  h !! df = Some frame → h !! r' = Some cur →
  (frame ← deref df;
   completeness ← lift (LeadProcessor._calculate_completeness frame);
   _ ← setitem r' "data_completeness" (VNum <$> completeness);
   k) h =
  match Pure.with_completeness frame cur with
  | Ok cur' => k (<[r' := cur']> h)
  | Raise e => (Raise e, h)
  end.
Proof.
  intros Hdf Hr'. unfold Pure.with_completeness, setitem.
  rewrite !M_bind_run. unfold deref at 1. rewrite Hdf.
  rewrite M_bind_run. unfold lift at 1.
  destruct (LeadProcessor._calculate_completeness frame) as [cs|e]; simpl; [| done].
  rewrite !M_bind_run. unfold deref. rewrite Hr'. unfold lift.
  destruct (set_column cur _ _) as [cur'|e]; simpl; done.
Qed.

Lemma process_leads_run (h : gmap ref DataFrame) (df : ref) (frame : DataFrame) :
  h !! df = Some frame →
  ∃ cur,
    LeadProcessor.process_leads df h =
      (match Pure.featurize frame with
       | Ok _ => Ok (fresh (dom h))
       | Raise e => Raise e
       end, <[fresh (dom h) := cur]> h) ∧
    ∀ f, Pure.featurize frame = Ok f → cur = f.
Proof.
  intros Hdf. set (r' := fresh (dom h)).
  assert (df ≠ r') as Hne.
  { intros ->. apply (is_fresh (dom h)). apply elem_of_dom. by eexists. }
  assert (∀ cur, <[r' := cur]> h !! df = Some frame) as Hdf'.
  { intros cur. by rewrite lookup_insert_ne. }
  assert (∀ cur, <[r' := cur]> h !! r' = Some cur) as Hr'.
  { intros cur. by rewrite lookup_insert_eq. }
  unfold LeadProcessor.process_leads, Pure.featurize.
  rewrite M_bind_run. unfold copy. rewrite M_bind_run. unfold deref at 1.
  rewrite Hdf. unfold alloc. fold r'.
  rewrite M_bind_run, (add_feature_run _ _ _ frame frame) by done.
  destruct (Pure.with_feature frame frame _ _ _) as [c1|e]; simpl;
    [| exists frame; split; [done | discriminate]].
  rewrite insert_insert_eq.
  rewrite M_bind_run, (add_feature_run _ _ _ frame c1) by done.
  destruct (Pure.with_feature frame c1 _ _ _) as [c2|e]; simpl;
    [| exists c1; split; [done | discriminate]].
  rewrite insert_insert_eq.
  rewrite M_bind_run, (add_feature_run _ _ _ frame c2) by done.
  destruct (Pure.with_feature frame c2 _ _ _) as [c3|e]; simpl;
    [| exists c2; split; [done | discriminate]].
  rewrite insert_insert_eq.
  rewrite (set_completeness_run _ _ _ frame c3) by done.
  destruct (Pure.with_completeness frame c3) as [c4|e]; simpl;
    [| exists c3; split; [done | discriminate]].
  rewrite insert_insert_eq.
  rewrite M_bind_run, (add_feature_run _ _ _ frame c4) by done.
  destruct (Pure.with_feature frame c4 _ _ _) as [c5|e]; simpl;
    [| exists c4; split; [done | discriminate]].
  rewrite insert_insert_eq. exists c5. split; [done |]. by intros f [= <-].
Qed.

Lemma zip_insert_Forall2 (R : gmap string value → gmap string value → Prop)
    (S : gmap string value → Q → Prop) (key : string)
    (rs cur : list (gmap string value)) (scores : list Q) :
  Forall2 R rs cur → Forall2 S rs scores →
  Forall2 (fun row r' => ∃ r s, R row r ∧ S row s ∧ r' = <[key := VNum s]> r)
    rs (zip_with (fun row v => <[key := v]> row) cur (VNum <$> scores)).
Proof.
  intros HR. revert scores.
  induction HR as [|row r rs cur Hr HR IH]; intros scores HS.
  - inversion HS; subst. constructor.
  - inversion HS as [|? s ? scores' Hs HS']; subst. simpl.
    constructor; [by exists r, s | by apply IH].
Qed.

Lemma has_column_elem_of (df : DataFrame) (c : string) :
  has_column df c = true ↔ c ∈ columns df.
Proof. apply mem_elem_of. Qed.

Lemma set_column_Ok (cur cur' : DataFrame) (key : string) (cells : list value) :
  set_column cur key cells = Ok cur' →
  rows cur' = zip_with (fun row v => <[key := v]> row) (rows cur) cells ∧
  (∀ c, c ∈ columns cur' ↔ c ∈ columns cur ∨ c = key).
Proof.
  unfold set_column. destruct (_ =? _)%nat; [| done]. intros [= <-]. simpl.
  split; [done |]. intros c. destruct (has_column cur key) eqn:E.
  - apply has_column_elem_of in E. split; [by left | by intros [? | ->]].
  - rewrite elem_of_app, list_elem_of_singleton. done.
Qed.

Lemma with_feature_Ok (frame cur cur' : DataFrame) (feature source : string)
    (scorer : value → result Q) :
  Pure.with_feature frame cur feature source scorer = Ok cur' →
  ∃ scores,
    Forall2 (fun row s => scorer (row_get row source VNaN) = Ok s)
      (rows frame) scores ∧
    rows cur' = zip_with (fun row v => <[feature := v]> row) (rows cur)
                  (VNum <$> scores) ∧
    (∀ c, c ∈ columns cur' ↔ c ∈ columns cur ∨ c = feature).
Proof.
  unfold Pure.with_feature, column.
  destruct (has_column frame source); simpl; [| done].
  destruct (traverse scorer _) as [scores|e] eqn:E; simpl; [| done].
  intros H. apply set_column_Ok in H as [Hrows Hcols].
  exists scores. split; [| done].
  apply traverse_Forall2 in E. by apply Forall2_fmap_l in E.
Qed.

Lemma with_completeness_Ok (frame cur cur' : DataFrame) :
  Pure.with_completeness frame cur = Ok cur' →
  ∃ scores,
    Forall2 (fun row s => LeadProcessor.completeness_of_row row = Ok s)
      (rows frame) scores ∧
    rows cur' = zip_with (fun row v => <["data_completeness" := v]> row)
                  (rows cur) (VNum <$> scores) ∧
    (∀ c, c ∈ columns cur' ↔ c ∈ columns cur ∨ c = "data_completeness").
Proof.
  unfold Pure.with_completeness, LeadProcessor._calculate_completeness.
  destruct (LeadProcessor.completeness_loop _ _) as [scores|e] eqn:E; simpl; [| done].
  intros H. apply set_column_Ok in H as [Hrows Hcols].
  apply completeness_loop_Forall2 in E as (cs & -> & Hcs). by exists cs.
Qed.

Lemma featurize_Ok (frame f : DataFrame) :
  Pure.featurize frame = Ok f →
  Forall2 Spec.extended (rows frame) (rows f) ∧
  (∀ c, c ∈ columns f ↔ c ∈ columns frame ∨ c ∈ LeadScorer.feature_columns).
Proof.
  unfold Pure.featurize.
  destruct (Pure.with_feature frame frame _ _ _) as [c1|] eqn:E1; simpl; [| done].
  destruct (Pure.with_feature frame c1 _ _ _) as [c2|] eqn:E2; simpl; [| done].
  destruct (Pure.with_feature frame c2 _ _ _) as [c3|] eqn:E3; simpl; [| done].
  destruct (Pure.with_completeness frame c3) as [c4|] eqn:E4; simpl; [| done].
  intros E5.
  apply with_feature_Ok in E1 as (s1 & S1 & R1 & C1).
  apply with_feature_Ok in E2 as (s2 & S2 & R2 & C2).
  apply with_feature_Ok in E3 as (s3 & S3 & R3 & C3).
  apply with_completeness_Ok in E4 as (s4 & S4 & R4 & C4).
  apply with_feature_Ok in E5 as (s5 & S5 & R5 & C5).
  split.
  - assert (Forall2 eq (rows frame) (rows frame)) as H0.
    { apply Forall2_same_length_lookup_2; [done |].
      intros i x y Hx Hy. congruence. }
    pose proof (zip_insert_Forall2 _ _ "email_quality" _ _ _ H0 S1) as H1.
    rewrite <- R1 in H1.
    pose proof (zip_insert_Forall2 _ _ "phone_quality" _ _ _ H1 S2) as H2.
    rewrite <- R2 in H2.
    pose proof (zip_insert_Forall2 _ _ "title_value" _ _ _ H2 S3) as H3.
    rewrite <- R3 in H3.
    pose proof (zip_insert_Forall2 _ _ "data_completeness" _ _ _ H3 S4) as H4.
    rewrite <- R4 in H4.
    pose proof (zip_insert_Forall2 _ _ "industry_fit" _ _ _ H4 S5) as H5.
    rewrite <- R5 in H5.
    eapply Forall2_impl; [exact H5 |]. simpl.
    intros row r' (r4 & i & (r3 & d & (r2 & t & (r1 & p & (r0 & e & <- & He & ->)
                    & Hp & ->) & Ht & ->) & Hd & ->) & Hi & ->).
    by exists e, p, t, d, i.
  - intros c. rewrite C5, C4, C3, C2, C1. unfold LeadScorer.feature_columns.
    rewrite !elem_of_cons, elem_of_nil. tauto.
Qed.

Lemma raw_row_total (row : gmap string value) :
  Spec.raw_row row = true →
  (∃ e, LeadProcessor._score_email (row_get row "Contact_Email" VNaN) = Ok e) ∧
  (∃ p, LeadProcessor._score_phone (row_get row "Contact_Phone" VNaN) = Ok p) ∧
  (∃ t, LeadProcessor._score_title (row_get row "Contact_Title" VNaN) = Ok t) ∧
  (∃ i, LeadProcessor._score_industry (row_get row "Industry" VNaN) = Ok i) ∧
  (∃ d, LeadProcessor.completeness_of_row row = Ok d).
Proof.
  unfold Spec.raw_row. rewrite andb_true_iff. simpl.
  rewrite !andb_true_iff, !bool_decide_eq_true.
  intros [(K1 & K2 & K3 & K4 & _) (T1 & T2 & T3 & T4 & _)].
  split; [by apply score_email_total |].
  split; [by apply score_phone_total |].
  split; [by apply score_title_total |].
  split; [by apply score_industry_total |].
  unfold LeadProcessor.completeness_of_row.
  destruct (count_filled_total row LeadProcessor.key_fields 0%nat) as [m Hm].
  { unfold LeadProcessor.key_fields. by repeat constructor. }
  rewrite Hm. by eexists.
Qed.

Lemma length_traverse {A B} (f : A → result B) (l : list A) (ys : list B) :
  traverse f l = Ok ys → length ys = length l.
Proof.
  intros H. apply traverse_Forall2 in H. symmetry. by eapply Forall2_length.
Qed.

Lemma with_feature_total (frame cur : DataFrame) (feature source : string)
    (scorer : value → result Q) :
  has_column frame source = true →
  length (rows cur) = length (rows frame) →
  Forall (fun row => ∃ s, scorer (row_get row source VNaN) = Ok s) (rows frame) →
  ∃ cur', Pure.with_feature frame cur feature source scorer = Ok cur' ∧
          length (rows cur') = length (rows frame).
Proof.
  intros Hc Hlen Hall. unfold Pure.with_feature, column. rewrite Hc. simpl.
  destruct (traverse_total scorer ((fun row => row_get row source VNaN) <$> rows frame))
    as [scores Hs].
  { by apply Forall_fmap. }
  rewrite Hs. simpl. apply length_traverse in Hs. rewrite length_fmap in Hs.
  unfold set_column. rewrite length_fmap, Hs, Hlen, Nat.eqb_refl.
  eexists. split; [done |]. simpl.
  rewrite length_zip_with, length_fmap. lia.
Qed.

Lemma featurize_total (frame : DataFrame) :
  Spec.raw_table frame = true → ∃ f, Pure.featurize frame = Ok f.
Proof.
  unfold Spec.raw_table. rewrite andb_true_iff. simpl.
  rewrite !andb_true_iff, forallb_forall.
  intros [(C1 & C2 & C3 & C4 & _) Hrows].
  assert (Forall (fun row => Spec.raw_row row = true) (rows frame)) as Hall.
  { apply Forall_forall. intros row Hin. apply Hrows. by apply list_elem_of_In. }
  unfold Pure.featurize.
  destruct (with_feature_total frame frame "email_quality" "Contact_Email"
              LeadProcessor._score_email C1 eq_refl) as (c1 & -> & L1).
  { eapply Forall_impl; [exact Hall |]. by intros row (? & _)%raw_row_total. }
  simpl.
  destruct (with_feature_total frame c1 "phone_quality" "Contact_Phone"
              LeadProcessor._score_phone C2 L1) as (c2 & -> & L2).
  { eapply Forall_impl; [exact Hall |]. by intros row (_ & ? & _)%raw_row_total. }
  simpl.
  destruct (with_feature_total frame c2 "title_value" "Contact_Title"
              LeadProcessor._score_title C3 L2) as (c3 & -> & L3).
  { eapply Forall_impl; [exact Hall |].
    by intros row (_ & _ & ? & _)%raw_row_total. }
  simpl.
  assert (∃ c4, Pure.with_completeness frame c3 = Ok c4
                ∧ length (rows c4) = length (rows frame)) as (c4 & -> & L4).
  { unfold Pure.with_completeness, LeadProcessor._calculate_completeness.
    destruct (completeness_loop_total (rows frame) []) as [out Hout].
    { eapply Forall_impl; [exact Hall |].
      by intros row (_ & _ & _ & _ & ?)%raw_row_total. }
    rewrite Hout. simpl.
    apply completeness_loop_Forall2 in Hout as (cs & -> & Hcs).
    apply Forall2_length in Hcs. unfold set_column.
    rewrite length_fmap. simpl. rewrite <- Hcs, L3, Nat.eqb_refl.
    eexists. split; [done |]. simpl. rewrite length_zip_with, length_fmap. lia. }
  simpl.
  destruct (with_feature_total frame c4 "industry_fit" "Industry"
              LeadProcessor._score_industry C4 L4) as (c5 & -> & L5).
  { eapply Forall_impl; [exact Hall |].
    by intros row (_ & _ & _ & ? & _)%raw_row_total. }
  by exists c5.
Qed.

(** C9: [process_leads] leaves every object of the store as it was, the
    input table among them, and on a table of raw lead records it returns
    a new table whose rows are the input rows with the five feature columns
    added. *)
Theorem process_leads_copies (h : gmap ref DataFrame) (df : ref) (frame : DataFrame) :
  h !! df = Some frame →
  (∀ r, r ∈ dom h → snd (LeadProcessor.process_leads df h) !! r = h !! r) ∧
  (Spec.raw_table frame = true →
   ∃ df_processed frame',
     fst (LeadProcessor.process_leads df h) = Ok df_processed ∧
     (df_processed ∉ dom h) ∧
     snd (LeadProcessor.process_leads df h) !! df_processed = Some frame' ∧
     Forall2 Spec.extended (rows frame) (rows frame') ∧
     (∀ c, c ∈ columns frame' ↔
           c ∈ columns frame ∨ c ∈ LeadScorer.feature_columns)).
Proof.
  intros Hdf. destruct (process_leads_run h df frame Hdf) as (cur & Hrun & Hcur).
  rewrite Hrun. simpl. split.
  - intros r Hr. rewrite lookup_insert_ne; [done |].
    intros <-. by apply (is_fresh (dom h)).
  - intros Hraw. destruct (featurize_total frame Hraw) as [f Hf].
    rewrite Hf. rewrite (Hcur f Hf).
    exists (fresh (dom h)), f. split; [done |].
    split; [apply is_fresh |]. split; [by rewrite lookup_insert_eq |].
    by apply featurize_Ok.
Qed.

(** ** Training *)

Lemma first_missing_Some (df : DataFrame) (keys : list string) (k : string) :
  first_missing df keys = Some k → k ∈ keys ∧ k ∉ columns df.
Proof.
  induction keys as [|k' keys IH]; simpl; [done |].
  destruct (has_column df k') eqn:E.
  - intros [? ?]%IH. split; [by right | done].
  - intros [= ->]. split; [by left |].
    intros Hin. apply has_column_elem_of in Hin. congruence.
Qed.

Lemma first_missing_None (df : DataFrame) (keys : list string) :
  first_missing df keys = None ↔ ∀ c, c ∈ keys → c ∈ columns df.
Proof.
  induction keys as [|k keys IH]; simpl.
  - split; [by intros _ c ?%elem_of_nil | done].
  - destruct (has_column df k) eqn:E.
    + apply has_column_elem_of in E. rewrite IH. split.
      * intros H c [-> | Hc]%elem_of_cons; [done | by apply H].
      * intros H c Hc. apply H. by right.
    + split; [done |]. intros H.
      assert (has_column df k = true) as E'.
      { apply has_column_elem_of, H. by left. }
      congruence.
Qed.

(** C2: on a table with no rows, or without one of the five feature
    columns, [train] raises a configuration error; it returns no result and
    leaves the scorer as it was. *)
Theorem train_rejects (lib : Library) (self : LeadScorer.LeadScorer lib)
    (df : DataFrame) (noise : nat → Float.float) :
  rows df = [] ∨ (∃ c, c ∈ LeadScorer.feature_columns ∧ c ∉ columns df) →
  ∃ e, Spec.configuration_error e ∧
       LeadScorer.train lib self df noise = (Raise e, self).
Proof.
  intros H. unfold LeadScorer.train, values_of.
  destruct (first_missing df LeadScorer.feature_columns) as [k|] eqn:E.
  - apply first_missing_Some in E as [Hk _].
    exists (KeyError k). split; [| done]. left. by exists k.
  - destruct H as [Hrows | (c & Hc & Hn)].
    + exists (ValueError "the resulting train set will be empty").
      split; [by right |].
      unfold LeadScorer.create_training_labels. rewrite Hrows. simpl.
      unfold LeadScorer.train_test_split. simpl. done.
    + exfalso. apply Hn. by eapply first_missing_None.
Qed.

Lemma train_Ok (lib : Library) (self self' : LeadScorer.LeadScorer lib)
    (df : DataFrame) (noise : nat → Float.float) (res : LeadScorer.TrainResult) :
  LeadScorer.train lib self df noise = (Ok res, self') →
  ∃ X y X_train X_test y_train y_test X_train',
    values_of df LeadScorer.feature_columns = Ok X ∧
    LeadScorer.create_training_labels df noise = Ok y ∧
    LeadScorer.train_test_split lib X y = Ok (X_train, X_test, y_train, y_test) ∧
    check_array X_train = Ok X_train' ∧
    self' = {| LeadScorer.scaler := Some (scaler_fit lib X_train');
               LeadScorer.model :=
                 Some (forest_fit lib
                         (map (scale_row lib (scaler_fit lib X_train')) X_train')
                         y_train);
               LeadScorer.is_trained := true |} ∧
    LeadScorer.total_samples res = length (rows df) ∧
    LeadScorer.positive_leads res = list_sum y.
Proof.
  unfold LeadScorer.train.
  destruct (values_of df _) as [X|] eqn:EX; [| done].
  destruct (LeadScorer.create_training_labels df noise) as [y|] eqn:Ey; [| done].
  destruct (LeadScorer.train_test_split lib X y)
    as [[[[X_train X_test] y_train] y_test]|] eqn:Es; [| done].
  destruct (check_array X_train) as [X_train'|] eqn:Ec; [| done].
  destruct (LeadScorer.transform lib _ X_test) as [X_test_scaled|]; [| done].
  intros [= <- <-]. by exists X, y, X_train, X_test, y_train, y_test, X_train'.
Qed.

Lemma train_failed_flag (lib : Library) (self self' : LeadScorer.LeadScorer lib)
    (df : DataFrame) (noise : nat → Float.float) (e : exn) :
  LeadScorer.train lib self df noise = (Raise e, self') →
  LeadScorer.is_trained self' = LeadScorer.is_trained self.
Proof.
  unfold LeadScorer.train.
  destruct (values_of df _) as [X|]; [| by intros [= _ <-]].
  destruct (LeadScorer.create_training_labels df noise) as [y|];
    [| by intros [= _ <-]].
  destruct (LeadScorer.train_test_split lib X y)
    as [[[[X_train X_test] y_train] y_test]|]; [| by intros [= _ <-]].
  destruct (check_array X_train) as [X_train'|]; [| by intros [= _ <-]].
  destruct (LeadScorer.transform lib _ X_test) as [X_test_scaled|];
    [done | by intros [= _ <-]].
Qed.

Lemma list_sum_0 (y : list nat) : list_sum y = 0%nat → Forall (fun v => v = 0%nat) y.
Proof.
  induction y as [|v y IH]; simpl; intros H; constructor; [lia | apply IH; lia].
Qed.

Lemma take_rows_elem_of {A} (a : list A) (idx : list nat) (x : A) :
  x ∈ take_rows a idx → x ∈ a.
Proof.
  unfold take_rows. intros (i & _ & Hi)%list_elem_of_omap.
  by eapply list_elem_of_lookup_2.
Qed.

Lemma classes_of_zeros (y : list nat) :
  Forall (fun v => v = 0%nat) y → (length (classes_of y) <= 1)%nat.
Proof.
  intros Hy. unfold classes_of.
  assert (1%nat ∉ y) as H1.
  { intros Hin. rewrite Forall_forall in Hy. by apply Hy in Hin. }
  rewrite filter_cons. rewrite (filter_cons_False _ 1%nat) by done.
  rewrite filter_nil. destruct (decide (0%nat ∈ y)); simpl; lia.
Qed.

Lemma check_array_length (X : list (list value)) (X' : list (list Q)) :
  check_array X = Ok X' → X ≠ [] ∧ length X' = length X.
Proof.
  unfold check_array. destruct X as [|x X]; [done |].
  intros H. split; [done |]. by apply length_traverse in H.
Qed.

Lemma values_of_features (df : DataFrame) :
  (∀ c, c ∈ LeadScorer.feature_columns → c ∈ columns df) →
  values_of df LeadScorer.feature_columns =
  Ok ((fun row => (fun k => row_get row k VNaN) <$> LeadScorer.feature_columns)
        <$> rows df).
Proof.
  intros H. unfold values_of. apply first_missing_None in H. by rewrite H.
Qed.

Lemma feature_row_floats (row : gmap string value) (e p t d i : Q) :
  Spec.feature_row row e p t d i →
  traverse to_float
    ((fun k => row_get row k VNaN) <$> LeadScorer.feature_columns)
  = Ok [e; p; t; d; i].
Proof.
  intros (He & Hp & Ht & Hd & Hi). simpl. unfold row_get.
  by rewrite He, Hp, Ht, Hd, Hi.
Qed.

Lemma check_array_features (rs : list (gmap string value)) :
  rs ≠ [] → Forall Spec.is_feature_row rs →
  ∃ X', check_array
          ((fun row => (fun k => row_get row k VNaN) <$> LeadScorer.feature_columns)
             <$> rs) = Ok X' ∧
        Forall2 (fun row x => ∃ e p t d i,
                   Spec.feature_row row e p t d i ∧ x = [e; p; t; d; i]) rs X'.
Proof.
  intros Hne Hall.
  destruct (traverse_total (traverse to_float)
              ((fun row => (fun k => row_get row k VNaN)
                             <$> LeadScorer.feature_columns) <$> rs))
    as [X' HX'].
  { apply Forall_fmap. eapply Forall_impl; [exact Hall |].
    intros row (e & p & t & d & i & Hf). simpl.
    exists [e; p; t; d; i]. by apply feature_row_floats. }
  exists X'. split.
  - unfold check_array. destruct rs as [|r rs]; [done |]. exact HX'.
  - apply traverse_Forall2, Forall2_fmap_l in HX'.
    apply Forall2_same_length_lookup. split; [by eapply Forall2_length |].
    intros j row x Hrow Hx.
    pose proof (Forall2_lookup_lr _ _ _ _ _ _ HX' Hrow Hx) as Hj.
    unfold compose in Hj.
    rewrite Forall_forall in Hall.
    destruct (Hall row) as (e & p & t & d & i & Hf).
    { by eapply list_elem_of_lookup_2. }
    exists e, p, t, d, i. split; [done |].
    rewrite (feature_row_floats _ _ _ _ _ _ Hf) in Hj. congruence.
Qed.

(** Before training: a scorer that was never trained, or whose training
    failed, answers [predict_scores] with the state error. *)
Lemma predict_before_train (lib : Library) (self : LeadScorer.LeadScorer lib)
    (df : DataFrame) :
  LeadScorer.is_trained self = false →
  ∃ e, Spec.state_error e ∧ LeadScorer.predict_scores lib self df = Raise e.
Proof.
  intros H. unfold LeadScorer.predict_scores. rewrite H. simpl.
  by eexists.
Qed.

Lemma column_1_Ok (P : list (list Q)) :
  Forall (fun p => length p = 2%nat) P →
  ∃ scores, column_1 P = Ok scores ∧
            Forall2 (fun p x => p !! 1%nat = Some x) P scores.
Proof.
  induction 1 as [|p P Hp _ (scores & IH & Hs)]; simpl.
  - exists []. split; [done | constructor].
  - destruct p as [|a [|b [|c p]]]; try done. simpl. rewrite IH. simpl.
    exists (b :: scores). split; [done | by constructor].
Qed.

(** After a training that saw both classes: on a feature table with at
    least one row [predict_scores] returns one probability per row, each in
    [0,1], the one at position [j] being the classifier's answer for row
    [j]. *)
Lemma predict_scores_binary (lib : Library) (self : LeadScorer.LeadScorer lib)
    (sc : Scaler lib) (f : Forest lib) (df : DataFrame) :
  LeadScorer.is_trained self = true →
  LeadScorer.scaler self = Some sc → LeadScorer.model self = Some f →
  (∀ x, length (proba_row lib f x) = 2%nat) → Spec.probabilities lib →
  rows df ≠ [] → Forall Spec.is_feature_row (rows df) →
  (∀ c, c ∈ LeadScorer.feature_columns → c ∈ columns df) →
  ∃ scores,
    LeadScorer.predict_scores lib self df = Ok scores ∧
    length scores = length (rows df) ∧
    Forall (fun q => 0 <= q ∧ q <= 1) scores ∧
    ∀ j row e p t d i,
      rows df !! j = Some row → Spec.feature_row row e p t d i →
      ∃ x, scores !! j = Some x ∧
           proba_row lib f (scale_row lib sc [e; p; t; d; i]) !! 1%nat = Some x.
Proof.
  intros Ht Hsc Hf Hwidth Hprob Hne Hrows Hcols.
  unfold LeadScorer.predict_scores. rewrite Ht, Hsc, Hf. simpl.
  rewrite (values_of_features _ Hcols). simpl.
  destruct (check_array_features _ Hne Hrows) as (X' & HX' & HF).
  unfold LeadScorer.transform.
  assert (check_array
            ((fun row => [row_get row "email_quality" VNaN;
                          row_get row "phone_quality" VNaN;
                          row_get row "title_value" VNaN;
                          row_get row "data_completeness" VNaN;
                          row_get row "industry_fit" VNaN]) <$> rows df)
          = Ok X') as -> by exact HX'.
  simpl.
  destruct (column_1_Ok (map (proba_row lib f) (map (scale_row lib sc) X')))
    as (scores & Hcol & Hscores).
  { apply Forall_forall. intros p (x & -> & _)%list_elem_of_fmap. apply Hwidth. }
  exists scores. split; [exact Hcol |].
  change (map (proba_row lib f) (map (scale_row lib sc) X'))
    with (proba_row lib f <$> (scale_row lib sc <$> X')) in Hscores.
  rewrite !Forall2_fmap_l in Hscores. split; [| split].
  - pose proof (Forall2_length _ _ _ Hscores) as L1.
    pose proof (Forall2_length _ _ _ HF) as L2. congruence.
  - apply Forall_forall. intros q Hq.
    apply list_elem_of_lookup in Hq as [j Hj].
    destruct (Forall2_lookup_r _ _ _ _ _ Hscores Hj) as (x & _ & Hx).
    unfold compose in Hx. pose proof (Hprob f (scale_row lib sc x)) as Hall.
    rewrite Forall_forall in Hall. apply Hall. by eapply list_elem_of_lookup_2.
  - intros j row e p t d i Hrow Hfeat.
    destruct (Forall2_lookup_l _ _ _ _ _ HF Hrow)
      as (x & Hx & e' & p' & t' & d' & i' & Hfeat' & ->).
    destruct (Forall2_lookup_l _ _ _ _ _ Hscores Hx) as (q & Hq & Hq').
    exists q. split; [done |]. unfold compose in Hq'.
    destruct Hfeat as (E1 & E2 & E3 & E4 & E5).
    destruct Hfeat' as (F1 & F2 & F3 & F4 & F5).
    rewrite E1 in F1. rewrite E2 in F2. rewrite E3 in F3.
    rewrite E4 in F4. rewrite E5 in F5.
    injection F1 as <-. injection F2 as <-. injection F3 as <-.
    injection F4 as <-. injection F5 as <-. done.
Qed.

(** C1: where the specification promises one score per row after a
    successful [train], the code raises if that training labelled no lead
    positive:
    the classifier then has a single class, the probabilities have no
    column 1, and [predict_scores] fails on every table, with [IndexError]
    on a feature table that has rows. *)
Theorem predict_after_single_class_train (lib : Library)
    (self self' : LeadScorer.LeadScorer lib) (df df' : DataFrame)
    (noise : nat → Float.float) (res : LeadScorer.TrainResult) :
  Spec.one_column_per_class lib →
  LeadScorer.train lib self df noise = (Ok res, self') →
  LeadScorer.positive_leads res = 0%nat →
  ∃ e, LeadScorer.predict_scores lib self' df' = Raise e ∧
       (rows df' ≠ [] → Forall Spec.is_feature_row (rows df') →
        (∀ c, c ∈ LeadScorer.feature_columns → c ∈ columns df') →
        e = IndexError).
Proof.
  intros Hlib Htrain Hpos.
  apply train_Ok in Htrain
    as (X & y & X_train & X_test & y_train & y_test & X_train' &
        HX & Hy & Hsplit & Hcheck & -> & _ & Hsum).
  rewrite Hsum in Hpos. apply list_sum_0 in Hpos.
  assert (Forall (fun v => v = 0%nat) y_train) as Hy0.
  { unfold LeadScorer.train_test_split in Hsplit.
    destruct (_ =? _)%nat; [done |]. injection Hsplit as _ _ <- _.
    apply Forall_forall. intros v Hv%take_rows_elem_of.
    rewrite Forall_forall in Hpos. by apply Hpos. }
  apply classes_of_zeros in Hy0.
  unfold LeadScorer.predict_scores. simpl.
  destruct (values_of df' LeadScorer.feature_columns) as [X0|e0] eqn:EX0; simpl.
  2:{ exists e0. split; [done |]. intros _ _ Hcols.
      rewrite (values_of_features _ Hcols) in EX0. done. }
  destruct (check_array X0) as [X0'|e1] eqn:Ec0; simpl.
  2:{ exists e1. split; [done |]. intros Hne Hrows Hcols. exfalso.
      rewrite (values_of_features _ Hcols) in EX0. injection EX0 as <-.
      destruct (check_array_features _ Hne Hrows) as (X' & HX' & _).
      pose proof (eq_trans (eq_sym Ec0) HX'). discriminate. }
  apply check_array_length in Ec0 as [Hne0 Hlen0].
  destruct X0' as [|x0 X0']; [by destruct X0 |]. simpl.
  exists IndexError. split; [| done].
  rewrite lookup_ge_None_2; [done |]. rewrite Hlib. lia.
Qed.

(** ** Export to the CRM *)

Lemma contacts_loop_filter (rt : Runtime) (rs : list (gmap string value)) :
  ∀ acc out,
  HubSpotFormatter.contacts_loop rt rs acc = Ok out →
  ∃ cs, out = (acc ++ cs)%list ∧
        Forall2 (fun row c => HubSpotFormatter._format_contact rt row = Ok c)
          (List.filter HubSpotFormatter._has_contact_info rs) cs.
Proof.
  induction rs as [|r rs IH]; intros acc out; simpl.
  - intros [= <-]. exists []. split; [by rewrite app_nil_r | constructor].
  - destruct (HubSpotFormatter._has_contact_info r).
    + destruct (HubSpotFormatter._format_contact rt r) as [c|e] eqn:E; simpl; [| done].
      intros H. apply IH in H as (cs & -> & Hcs).
      exists (c :: cs). split; [by rewrite <- app_assoc | by constructor].
    + apply IH.
Qed.

Lemma format_contact_total (rt : Runtime) (row : gmap string value) :
  Spec.scored_row row → ∃ c, HubSpotFormatter._format_contact rt row = Ok c.
Proof.
  intros [[q Hq] [d Hd]]. unfold HubSpotFormatter._format_contact.
  destruct (HubSpotFormatter._parse_name rt _) as [first_name last_name].
  unfold row_get. rewrite Hq, Hd. simpl.
  unfold HubSpotFormatter._get_priority_level. simpl.
  destruct (Qgeb q 0.8); simpl; [by eexists |].
  destruct (Qgeb q 0.6); simpl; by eexists.
Qed.

Lemma contacts_loop_total (rt : Runtime) (rs : list (gmap string value)) :
  ∀ acc, Forall Spec.scored_row rs →
         ∃ out, HubSpotFormatter.contacts_loop rt rs acc = Ok out.
Proof.
  induction rs as [|r rs IH]; intros acc Hall; simpl.
  - by exists acc.
  - apply Forall_cons in Hall as [Hr Hall].
    destruct (HubSpotFormatter._has_contact_info r); [| by apply IH].
    destruct (format_contact_total rt r Hr) as [c ->]. simpl. by apply IH.
Qed.

Lemma has_contact_info_present (row : gmap string value) :
  HubSpotFormatter._has_contact_info row =
  HubSpotFormatter.present (Spec.field row "Contact_Email")
  || HubSpotFormatter.present (Spec.field row "Contact_Phone").
Proof. reflexivity. Qed.

(** The filter on cells that are text or [None]: such a cell counts as
    contact information unless it is [None], empty or "N/A". *)
Lemma present_text (v : value) :
  v ≠ VNaN → (∀ q, v ≠ VNum q) →
  HubSpotFormatter.present v = true ↔
  ¬ Spec.missing v ∧ v ≠ VStr "".
Proof.
  intros Hn Hq. unfold HubSpotFormatter.present, Spec.missing, Spec.absent.
  destruct v as [| |s|q]; simpl.
  - split; [done |]. intros [H _]. exfalso. apply H. left. by right.
  - done.
  - rewrite andb_true_iff, !negb_true_iff, !String.eqb_neq. split.
    + intros [H1 H2]. split; [| congruence].
      intros [[? | ?] | ?]; congruence.
    + intros [H1 H2]. split; [congruence |].
      intros ->. apply H1. by right.
  - by destruct (Hq q).
Qed.

(** The part of the filter that is as specified: a row whose e-mail and
    phone are each the "N/A" sentinel, [None] or empty is dropped, and
    dropping raises nothing. *)
Lemma format_for_hubspot_drops_sentinel (rt : Runtime) (row : gmap string value)
    (v w : value) :
  v ∈ [VStr "N/A"; VNone; VStr ""] → w ∈ [VStr "N/A"; VNone; VStr ""] →
  row !! "Contact_Email" = Some v → row !! "Contact_Phone" = Some w →
  ∀ cols, ∃ s,
    HubSpotFormatter.format_for_hubspot rt {| columns := cols; rows := [row] |}
    = Ok ([], s).
Proof.
  intros Hv Hw He Hp cols. unfold HubSpotFormatter.format_for_hubspot. simpl.
  assert (HubSpotFormatter._has_contact_info row = false) as ->.
  { unfold HubSpotFormatter._has_contact_info, row_get. rewrite He, Hp. simpl.
    repeat (apply elem_of_cons in Hv as [-> | Hv]);
    repeat (apply elem_of_cons in Hw as [-> | Hw]);
    try reflexivity; by apply elem_of_nil in Hv || by apply elem_of_nil in Hw. }
  simpl. by eexists.
Qed.

Lemma format_contact_fields (rt : Runtime) (row : gmap string value)
    (c : HubSpotFormatter.Contact) :
  HubSpotFormatter._format_contact rt row = Ok c →
  HubSpotFormatter.email c
    = HubSpotFormatter.blank_na (row_get row "Contact_Email" VNone) ∧
  HubSpotFormatter.phone c
    = HubSpotFormatter.blank_na (row_get row "Contact_Phone" VNone) ∧
  HubSpotFormatter.company c = row_get row "Company" (VStr "").
Proof.
  unfold HubSpotFormatter._format_contact.
  destruct (HubSpotFormatter._parse_name rt _) as [first_name last_name].
  destruct (HubSpotFormatter.round100 rt (row_get row "lead_score" _))
    as [score|]; simpl; [| done].
  destruct (HubSpotFormatter._get_priority_level _) as [prio|]; simpl; [| done].
  destruct (HubSpotFormatter.round100 rt _) as [completeness|]; simpl; [| done].
  by intros [= <-].
Qed.

(** C3: where the specification has every row without e-mail and phone
    dropped, a scored row whose e-mail and phone are both NaN (which is how
    a loaded table marks an empty cell) passes [_has_contact_info], and
    [format_for_hubspot] emits a contact record for it. *)
Theorem format_for_hubspot_keeps_nan_row (rt : Runtime) (row : gmap string value)
    (cols : list string) :
  Spec.scored_row row →
  let lead := <["Contact_Email" := VNaN]> (<["Contact_Phone" := VNaN]> row) in
  Spec.missing (Spec.field lead "Contact_Email") ∧
  Spec.missing (Spec.field lead "Contact_Phone") ∧
  HubSpotFormatter._has_contact_info lead = true ∧
  ∃ c s,
    HubSpotFormatter.format_for_hubspot rt {| columns := cols; rows := [lead] |}
    = Ok ([c], s) ∧
    HubSpotFormatter.email c = VNaN ∧ HubSpotFormatter.phone c = VNaN.
Proof.
  intros [[q Hq] [d Hd]]. simpl.
  set (lead := <["Contact_Email" := VNaN]> (<["Contact_Phone" := VNaN]> row)).
  assert (lead !! "Contact_Email" = Some VNaN) as He.
  { unfold lead. by rewrite lookup_insert_eq. }
  assert (lead !! "Contact_Phone" = Some VNaN) as Hp.
  { unfold lead. rewrite lookup_insert_ne by done. by rewrite lookup_insert_eq. }
  assert (HubSpotFormatter._has_contact_info lead = true) as Hkeep.
  { unfold HubSpotFormatter._has_contact_info, row_get. by rewrite He. }
  unfold Spec.field, row_get. rewrite He, Hp.
  split; [left; by left |]. split; [left; by left |]. split; [done |].
  destruct (format_contact_total rt lead) as [c Hc].
  { unfold lead. split.
    - exists q. by do 2 (rewrite lookup_insert_ne by done).
    - exists d. by do 2 (rewrite lookup_insert_ne by done). }
  unfold HubSpotFormatter.format_for_hubspot. simpl. rewrite Hkeep, Hc. simpl.
  eexists c, _. split; [reflexivity |].
  apply format_contact_fields in Hc as (-> & -> & _).
  unfold row_get. by rewrite He, Hp.
Qed.

Lemma no_space_has_char (s : string) :
  Spec.no_space s = true → Spec.has_char " " s = false.
Proof.
  induction s as [|c s IH]; simpl; [done |].
  rewrite andb_true_iff, negb_true_iff. intros [Hc Hs].
  rewrite (IH Hs), orb_false_r. apply ascii_eqb_false. by intros ->.
Qed.

Lemma lstrip_no_space (s : string) : Spec.no_space s = true → Str.lstrip s = s.
Proof.
  destruct s as [|c s]; simpl; [done |].
  rewrite andb_true_iff, negb_true_iff. by intros [-> _].
Qed.

Lemma rstrip_no_space (s : string) : Spec.no_space s = true → Str.rstrip s = s.
Proof.
  induction s as [|c s IH]; simpl; [done |].
  rewrite andb_true_iff, negb_true_iff. intros [Hc Hs].
  rewrite (IH Hs), Hc. by destruct s.
Qed.

Lemma parse_name_token (rt : Runtime) (token : string) :
  Spec.single_token token → token ≠ "N/A" →
  HubSpotFormatter._parse_name rt (VStr token) = (token, "").
Proof.
  intros [Hne Hsp] Hna. unfold HubSpotFormatter._parse_name. simpl.
  apply String.eqb_neq in Hna. rewrite Hna.
  unfold Str.strip. rewrite (lstrip_no_space _ Hsp), (rstrip_no_space _ Hsp).
  by rewrite (split_no_sep " " _ token (no_space_has_char _ Hsp)).
Qed.

Lemma parse_name_missing (rt : Runtime) (row : gmap string value) :
  Spec.missing (Spec.field row "Contact_Name") →
  HubSpotFormatter._parse_name rt (row_get row "Contact_Name" (VStr "")) = ("", "").
Proof.
  unfold Spec.field, row_get. destruct (row !! "Contact_Name") as [v|]; simpl.
  - by intros [[-> | ->] | ->].
  - done.
Qed.

Lemma blank_na_clean (v : value) :
  HubSpotFormatter.blank_na v ≠ VStr "N/A" ∧
  (v = VStr "N/A" → HubSpotFormatter.blank_na v = VStr "").
Proof.
  unfold HubSpotFormatter.blank_na. split.
  - destruct v as [| |s|q]; simpl; try done.
    destruct (String.eqb s "N/A") eqn:E; simpl; [done |].
    apply String.eqb_neq in E. congruence.
  - by intros ->.
Qed.

Lemma format_contact_cleaned (rt : Runtime) (row : gmap string value)
    (c : HubSpotFormatter.Contact) :
  HubSpotFormatter._format_contact rt row = Ok c → Spec.cleaned row c.
Proof.
  unfold HubSpotFormatter._format_contact.
  destruct (HubSpotFormatter._parse_name rt _) as [first_name last_name] eqn:En.
  destruct (HubSpotFormatter.round100 rt (row_get row "lead_score" _))
    as [score|]; simpl; [| done].
  destruct (HubSpotFormatter._get_priority_level _) as [prio|]; simpl; [| done].
  destruct (HubSpotFormatter.round100 rt _) as [completeness|]; simpl; [| done].
  intros [= <-]. unfold Spec.cleaned. simpl.
  split; [repeat split; apply blank_na_clean |].
  split; [apply blank_na_clean |]. split; [apply blank_na_clean |].
  split; [apply blank_na_clean |]. split; [apply blank_na_clean |].
  split; [| split].
  - intros Hm. rewrite (parse_name_missing rt row Hm) in En. by injection En as <- <-.
  - intros token Hf Htok Hna.
    assert (row_get row "Contact_Name" (VStr "") = VStr token) as Hg.
    { unfold Spec.field, row_get in *. by destruct (row !! "Contact_Name"). }
    rewrite Hg, (parse_name_token rt token Htok Hna) in En. by injection En as <- <-.
  - unfold Spec.copied, row_get.
    by destruct (row !! "Company"), (row !! "City"), (row !! "State"),
      (row !! "category").
Qed.

(** C10, as the code has it: on a scored table [format_for_hubspot] returns
    one contact record for every row that passes the export filter, in
    table order; in each of them an "N/A" e-mail, job title, phone or website is
    replaced by the empty string, so none of these four fields is "N/A"; a
    missing or "N/A" Contact_Name gives an empty first and last name, and a
    name of one word gives that word as first name and an empty last name. *)
Theorem export_contacts_cleaned (rt : Runtime) (df : DataFrame) :
  Forall Spec.scored_row (rows df) →
  ∃ contacts s,
    HubSpotFormatter.format_for_hubspot rt df = Ok (contacts, s) ∧
    Forall2 Spec.cleaned
      (List.filter HubSpotFormatter._has_contact_info (rows df)) contacts.
Proof.
  intros Hall. unfold HubSpotFormatter.format_for_hubspot.
  destruct (contacts_loop_total rt (rows df) [] Hall) as [out E].
  rewrite E. simpl. eexists _, _. split; [reflexivity |].
  apply contacts_loop_filter in E as (cs & -> & Hcs). simpl.
  eapply Forall2_impl; [exact Hcs |]. intros row c. apply format_contact_cleaned.
Qed.

(** ** The stable descending sort behind [nlargest] *)

Section Sorting.

Context {A : Type} (key : A → option Q).

Lemma insert_desc_perm (r : A) (l : list A) :
  Permutation (insert_desc key r l) (r :: l).
Proof.
  induction l as [|h t IH]; simpl; [done |].
  destruct (before (key h) (key r)); [| done].
  rewrite IH. apply perm_swap.
Qed.

Lemma sort_desc_perm (l : list A) : Permutation (sort_desc key l) l.
Proof.
  induction l as [|r l IH]; simpl; [done |].
  by rewrite insert_desc_perm, IH.
Qed.

Lemma before_asym (a b : option Q) : before a b = true → before b a = false.
Proof.
  destruct a as [x|], b as [y|]; simpl; try done.
  unfold Qgtb. rewrite negb_true_iff, negb_false_iff, Qle_bool_false.
  intros H. apply Qle_bool_iff. lra.
Qed.

Lemma not_before_trans (a b c : option Q) :
  before b a = false → before c b = false → before c a = false.
Proof.
  destruct a as [x|], b as [y|], c as [z|]; simpl; try done.
  unfold Qgtb. rewrite !negb_false_iff, !Qle_bool_iff. lra.
Qed.

Lemma insert_desc_sorted (r : A) (l : list A) :
  StronglySorted (key_ge key) l → StronglySorted (key_ge key) (insert_desc key r l).
Proof.
  induction 1 as [|h t Ht IH Hall]; simpl.
  - by repeat constructor.
  - destruct (before (key h) (key r)) eqn:E.
    + constructor; [done |].
      eapply Permutation_Forall; [symmetry; apply insert_desc_perm |].
      constructor; [| done]. by apply before_asym.
    + constructor; [by constructor |]. constructor; [done |].
      eapply Forall_impl; [exact Hall |]. intros x Hx.
      unfold key_ge in *. by eapply not_before_trans.
Qed.

Lemma sort_desc_sorted (l : list A) : StronglySorted (key_ge key) (sort_desc key l).
Proof.
  induction l as [|r l IH]; simpl; [constructor | by apply insert_desc_sorted].
Qed.

Lemma same_key_not_before (k : option Q) (h r : A) :
  same_key key k h = true → same_key key k r = true → before (key h) (key r) = false.
Proof.
  unfold same_key. destruct k as [x|], (key h) as [y|], (key r) as [z|];
    simpl; try done.
  unfold Qgtb. rewrite negb_false_iff, Qle_bool_iff.
  intros H1%Qeq_bool_iff H2%Qeq_bool_iff. lra.
Qed.

Lemma insert_desc_filter (k : option Q) (r : A) (l : list A) :
  List.filter (same_key key k) (insert_desc key r l)
  = List.filter (same_key key k) (r :: l).
Proof.
  induction l as [|h t IH]; [done |]. cbn [insert_desc].
  destruct (before (key h) (key r)) eqn:E; [| done].
  cbn [List.filter] in *. rewrite IH.
  destruct (same_key key k h) eqn:Eh, (same_key key k r) eqn:Er; try done.
  pose proof (same_key_not_before k h r Eh Er). congruence.
Qed.

(** Leads of equal score keep their order. *)
Lemma sort_desc_stable (k : option Q) (l : list A) :
  List.filter (same_key key k) (sort_desc key l) = List.filter (same_key key k) l.
Proof.
  induction l as [|r l IH]; [done |]. cbn [sort_desc].
  rewrite insert_desc_filter. cbn [List.filter]. by rewrite IH.
Qed.

End Sorting.

(** ** Sales tasks *)

Lemma not_below_key_ge (a b : gmap string value) :
  key_ge Spec.score_of a b → Spec.not_below a b.
Proof.
  unfold key_ge, Spec.not_below, before, Qgtb.
  destruct (Spec.score_of a) as [x|], (Spec.score_of b) as [y|]; try done.
  rewrite negb_false_iff, Qle_bool_iff. done.
Qed.

Lemma StronglySorted_weaken {A} (R S : A → A → Prop) (l : list A) :
  (∀ a b, R a b → S a b) → StronglySorted R l → StronglySorted S l.
Proof.
  intros H. induction 1 as [|a l _ IH Ha]; constructor; [done |].
  eapply Forall_impl; [exact Ha | apply H].
Qed.

Lemma task_of_lead_scored (rt : Runtime) (lead : gmap string value) :
  Spec.numeric_score lead →
  ∃ o, HubSpotFormatter.task_of_lead rt lead = Ok o ∧
       (Spec.at_least 0.6 lead = true → ∃ t, o = Some t ∧ Spec.task_for rt lead t) ∧
       (Spec.at_least 0.6 lead = false → o = None).
Proof.
  unfold Spec.at_least, Spec.task_for, HubSpotFormatter.task_of_lead.
  intros [[q Hq] | Hn].
  - assert (Spec.score_of lead = Some q) as Hs
      by (unfold Spec.score_of, sort_key, row_get; by rewrite Hq).
    assert (row_get lead "lead_score" (VNum 0) = VNum q) as ->
      by (unfold row_get; by rewrite Hq).
    rewrite Hs. unfold cell_ge, Qgeb, mbind, result_bind. cbv zeta.
    destruct (Qle_bool 0.8 q) eqn:E8.
    + eexists. split; [reflexivity |]. split; [| intros H].
      * intros _. eexists. split; [reflexivity |]. exists q. split; [done |].
        split; [done |]. apply Qle_bool_iff in E8. intros Hlt. lra.
      * apply Qle_bool_iff in E8. apply Qle_bool_false in H. lra.
    + destruct (Qle_bool 0.6 q) eqn:E6.
      * eexists. split; [reflexivity |]. split; [| done].
        intros _. eexists. split; [reflexivity |]. exists q. split; [done |].
        split; [| done]. apply Qle_bool_false in E8. intros Hge. lra.
      * eexists. split; [reflexivity |]. by split.
  - assert (Spec.score_of lead = None) as Hs
      by (unfold Spec.score_of, sort_key, row_get; by rewrite Hn).
    assert (row_get lead "lead_score" (VNum 0) = VNaN) as ->
      by (unfold row_get; by rewrite Hn).
    rewrite Hs. eexists. split; [reflexivity |]. by split.
Qed.

Lemma tasks_loop_filter (rt : Runtime) (leads : list (gmap string value)) :
  ∀ acc, Forall Spec.numeric_score leads →
  ∃ ts, HubSpotFormatter.tasks_loop rt leads acc = Ok (acc ++ ts)%list ∧
        Forall2 (Spec.task_for rt) (List.filter (Spec.at_least 0.6) leads) ts.
Proof.
  induction leads as [|lead leads IH]; intros acc Hall; simpl.
  - exists []. split; [by rewrite app_nil_r | constructor].
  - apply Forall_cons in Hall as [Hl Hall].
    destruct (task_of_lead_scored rt lead Hl) as (o & -> & Hyes & Hno). simpl.
    destruct (Spec.at_least 0.6 lead) eqn:E.
    + destruct (Hyes eq_refl) as (t & -> & Ht).
      destruct (IH (acc ++ [t])%list Hall) as (ts & -> & Hts).
      exists (t :: ts). split; [by rewrite <- app_assoc | by constructor].
    + rewrite (Hno eq_refl). by apply IH.
Qed.

Lemma nlargest_scored (n : nat) (df : DataFrame) :
  has_column df "lead_score" = true →
  Forall Spec.numeric_score (rows df) →
  nlargest n "lead_score" df = Ok (take n (sort_desc Spec.score_of (rows df))).
Proof.
  intros Hc Hall. unfold nlargest, column. rewrite Hc. simpl.
  destruct (traverse_total numeric_cell
              ((fun row => row_get row "lead_score" VNaN) <$> rows df)) as [ys ->];
    [| done].
  apply Forall_fmap. eapply Forall_impl; [exact Hall |].
  intros row [[q Hq] | Hn]; simpl; unfold row_get.
  - rewrite Hq. by eexists.
  - rewrite Hn. by eexists.
Qed.

Lemma filter_length_le {A} (f : A → bool) (l : list A) :
  (length (List.filter f l) <= length l)%nat.
Proof.
  induction l as [|a l IH]; simpl; [done |]. destruct (f a); simpl; lia.
Qed.

(** C8: on a scored table, [create_sales_tasks] returns at most ten tasks.
    They are, in order, the tasks of the leads of score at least 0.6 among
    the first ten of the table sorted by descending score, leads of equal
    score in table order: a high-priority call due in "1 day" for a score of
    at least 0.8, a medium-priority research task due in "3 days" for a
    score from 0.6 up to 0.8, and nothing for a lead below 0.6.  Each task
    names the company of its lead in its title and the score of its lead in
    its description. *)
Theorem create_sales_tasks_top10 (rt : Runtime) (df : DataFrame) :
  has_column df "lead_score" = true →
  Forall Spec.numeric_score (rows df) →
  ∃ sorted tasks,
    HubSpotFormatter.create_sales_tasks rt df = Ok tasks ∧
    (length tasks <= 10)%nat ∧
    Permutation sorted (rows df) ∧
    StronglySorted Spec.not_below sorted ∧
    (∀ k, List.filter (Spec.same_score k) sorted
          = List.filter (Spec.same_score k) (rows df)) ∧
    Forall2 (Spec.task_for rt)
      (List.filter (Spec.at_least 0.6) (take 10 sorted)) tasks.
Proof.
  intros Hc Hall. exists (sort_desc Spec.score_of (rows df)).
  unfold HubSpotFormatter.create_sales_tasks.
  rewrite (nlargest_scored _ _ Hc Hall). simpl.
  destruct (tasks_loop_filter rt (take 10 (sort_desc Spec.score_of (rows df))) [])
    as (ts & Hts & Hfor).
  { apply Forall_take. eapply Permutation_Forall; [| exact Hall].
    symmetry. apply sort_desc_perm. }
  exists ts. split; [done |]. split.
  - apply Forall2_length in Hfor. rewrite <- Hfor.
    etransitivity; [apply filter_length_le |]. rewrite length_take. lia.
  - split; [apply sort_desc_perm |]. split.
    + eapply StronglySorted_weaken; [apply not_below_key_ge |].
      apply sort_desc_sorted.
    + split; [| done]. intros k.
      change (Spec.same_score k) with (same_key Spec.score_of k).
      apply sort_desc_stable.
Qed.

(** ** The properties on sample data *)

Lemma features_feature_row (e p t d i : Q) :
  Spec.feature_row (Examples.features e p t d i) e p t d i.
Proof. by repeat split. Qed.

Lemma create_training_labels_rule_witness :
  ∃ labels,
    LeadScorer.create_training_labels Examples.mixed_leads Examples.quiet
    = Ok labels ∧
    length labels = 3%nat ∧
    ∀ j row e p t d i,
      rows Examples.mixed_leads !! j = Some row →
      Spec.feature_row row e p t d i →
      ∃ l, labels !! j = Some l ∧
           LeadScorer.label_of_row row (Examples.quiet j) = Ok l ∧
           (l = 1%nat ↔ Spec.float_rule e p t d i (Examples.quiet j) = true) ∧
           (l = 0%nat ∨ l = 1%nat).
Proof.
  apply (create_training_labels_rule Examples.mixed_leads Examples.quiet).
  repeat (apply List.Forall_cons; [do 5 eexists; apply features_feature_row |]).
  apply List.Forall_nil.
Defined.

Lemma train_rejects_witness :
  ∃ e, Spec.configuration_error e ∧
       LeadScorer.train Examples.uniform_lib (LeadScorer.init Examples.uniform_lib)
         (Examples.feature_table []) Examples.quiet
       = (Raise e, LeadScorer.init Examples.uniform_lib).
Proof.
  apply (train_rejects Examples.uniform_lib). by left.
Defined.

Lemma process_leads_copies_witness :
  let h : gmap ref DataFrame := <[0%nat := Examples.leads]> ∅ in
  Spec.raw_table Examples.leads = true ∧
  ∃ df_processed frame',
    fst (LeadProcessor.process_leads 0%nat h) = Ok df_processed ∧
    (df_processed ∉ dom h) ∧
    snd (LeadProcessor.process_leads 0%nat h) !! df_processed = Some frame' ∧
    Forall2 Spec.extended (rows Examples.leads) (rows frame') ∧
    (∀ c, c ∈ columns frame' ↔
          c ∈ columns Examples.leads ∨ c ∈ LeadScorer.feature_columns).
Proof.
  split; [reflexivity |].
  apply (process_leads_copies (<[0%nat := Examples.leads]> ∅) 0%nat Examples.leads);
    reflexivity.
Defined.

Lemma uniform_lib_columns : Spec.one_column_per_class Examples.uniform_lib.
Proof. intros X y x. simpl. by rewrite length_map. Qed.

Lemma predict_after_single_class_train_witness :
  let trained :=
    snd (LeadScorer.train Examples.uniform_lib
           (LeadScorer.init Examples.uniform_lib)
           Examples.poor_leads Examples.quiet) in
  LeadScorer.is_trained trained = true ∧
  LeadScorer.predict_scores Examples.uniform_lib trained Examples.poor_leads
  = Raise IndexError.
Proof.
  split; [reflexivity |].
  destruct (predict_after_single_class_train Examples.uniform_lib
              (LeadScorer.init Examples.uniform_lib)
              (snd (LeadScorer.train Examples.uniform_lib
                      (LeadScorer.init Examples.uniform_lib)
                      Examples.poor_leads Examples.quiet))
              Examples.poor_leads Examples.poor_leads Examples.quiet
              {| LeadScorer.train_accuracy := 1;
                 LeadScorer.test_accuracy := 1;
                 LeadScorer.total_samples := 5;
                 LeadScorer.positive_leads := 0 |})
    as (e & He & Hidx).
  - exact uniform_lib_columns.
  - vm_compute. reflexivity.
  - reflexivity.
  - rewrite He. f_equal. apply Hidx.
    + discriminate.
    + repeat (apply List.Forall_cons; [do 5 eexists; apply features_feature_row |]).
      apply List.Forall_nil.
    + by intros c Hc.
Defined.

Lemma scored_scored_row (row : gmap string value) (q : Q) (category : string) :
  Spec.scored_row (Examples.scored row q category).
Proof.
  unfold Examples.scored. split.
  - exists q. by rewrite lookup_insert_eq.
  - exists 0.5. do 2 (rewrite lookup_insert_ne by done). by rewrite lookup_insert_eq.
Qed.

Lemma format_for_hubspot_keeps_nan_row_witness :
  let lead := <["Contact_Email" := VNaN]> (<["Contact_Phone" := VNaN]>
                (Examples.scored Examples.unreachable 0.3 "Low Priority")) in
  HubSpotFormatter._has_contact_info lead = true ∧
  ∃ c s,
    HubSpotFormatter.format_for_hubspot Examples.plain_runtime
      {| columns := columns Examples.scored_leads; rows := [lead] |}
    = Ok ([c], s) ∧
    HubSpotFormatter.email c = VNaN ∧ HubSpotFormatter.phone c = VNaN.
Proof.
  apply (format_for_hubspot_keeps_nan_row Examples.plain_runtime
           (Examples.scored Examples.unreachable 0.3 "Low Priority")
           (columns Examples.scored_leads)
           (scored_scored_row Examples.unreachable 0.3 "Low Priority")).
Defined.

(** The tasks of [Samples.busy_leads]: the hot leads first, then the warm
    leads of score 0.7 in table order; the last of them, "L", and the lead
    "F" of score 0.65 fall behind the tenth place, "D" is below 0.6. *)
Example busy_leads_tasks :
  HubSpotFormatter.create_sales_tasks Samples.desk_runtime Samples.busy_leads
  = Ok (Samples.task_of <$>
       [(true, "URGENT: Call J", "Hot lead (95% score). Contact: Ann Lee");
        (true, "URGENT: Call B", "Hot lead (90% score). Contact: Ann Lee");
        (true, "URGENT: Call E", "Hot lead (90% score). Contact: Ann Lee");
        (true, "URGENT: Call H", "Hot lead (85% score). Contact: Ann Lee");
        (true, "URGENT: Call M", "Hot lead (80% score). Contact: Ann Lee");
        (false, "Research and reach out to A",
         "Warm lead (70% score). Research before calling.");
        (false, "Research and reach out to C",
         "Warm lead (70% score). Research before calling.");
        (false, "Research and reach out to G",
         "Warm lead (70% score). Research before calling.");
        (false, "Research and reach out to I",
         "Warm lead (70% score). Research before calling.");
        (false, "Research and reach out to K",
         "Warm lead (70% score). Research before calling.")]).
Proof. vm_compute. reflexivity. Qed.

Lemma create_sales_tasks_top10_witness :
  ∃ sorted tasks,
    HubSpotFormatter.create_sales_tasks Samples.desk_runtime Samples.busy_leads
    = Ok tasks ∧
    (length tasks <= 10)%nat ∧
    Permutation sorted (rows Samples.busy_leads) ∧
    StronglySorted Spec.not_below sorted ∧
    (∀ k, List.filter (Spec.same_score k) sorted
          = List.filter (Spec.same_score k) (rows Samples.busy_leads)) ∧
    Forall2 (Spec.task_for Samples.desk_runtime)
      (List.filter (Spec.at_least 0.6) (take 10 sorted)) tasks.
Proof.
  apply (create_sales_tasks_top10 Samples.desk_runtime Samples.busy_leads).
  - reflexivity.
  - repeat (apply List.Forall_cons; [left; by eexists |]). apply List.Forall_nil.
Defined.

Lemma export_contacts_cleaned_witness :
  ∃ contacts s,
    HubSpotFormatter.format_for_hubspot Examples.plain_runtime Examples.scored_leads
    = Ok (contacts, s) ∧
    Forall2 Spec.cleaned
      (List.filter HubSpotFormatter._has_contact_info (rows Examples.scored_leads))
      contacts.
Proof.
  apply (export_contacts_cleaned Examples.plain_runtime Examples.scored_leads).
  repeat (apply List.Forall_cons; [apply scored_scored_row |]).
  apply List.Forall_nil.
Defined.

(** C10 as the specification words it fails: the company, city and state of a lead
    are copied as they are, so the contact record of a lead whose company is
    "N/A" carries "N/A". *)
Lemma export_keeps_sentinel_company :
  ¬ (∀ (rt : Runtime) (df : DataFrame) contacts s,
       HubSpotFormatter.format_for_hubspot rt df = Ok (contacts, s) →
       Forall Spec.no_sentinel_field contacts).
Proof.
  intros H.
  destruct (HubSpotFormatter.format_for_hubspot Examples.plain_runtime
              Examples.scored_leads) as [[contacts s]|] eqn:E;
    [| vm_compute in E; discriminate].
  pose proof (H _ _ _ _ E) as Hall.
  vm_compute in E. injection E as <- _.
  apply Forall_cons in Hall as [(_ & _ & _ & _ & _ & Hcompany & _) _].
  by apply Hcompany.
Qed.

(** ** Worked examples *)

Example score_email_examples :
  LeadProcessor._score_email (VStr "ann@acme.io") = Ok 1.0 ∧
  LeadProcessor._score_email (VStr "ann@Yahoo.COM") = Ok 0.6 ∧
  LeadProcessor._score_email (VStr "ann@acme") = Ok 0.2 ∧
  LeadProcessor._score_email (VStr "a@b@c.io") = Ok 0.2 ∧
  LeadProcessor._score_email (VStr "N/A") = Ok 0.0 ∧
  LeadProcessor._score_email (VNum 7) = Raise TypeError.
Proof. by repeat split. Qed.

Example score_phone_examples :
  LeadProcessor._score_phone (VStr "(555) 123-4567") = Ok 1.0 ∧
  LeadProcessor._score_phone (VStr "1-555-123-4567") = Ok 1.0 ∧
  LeadProcessor._score_phone (VStr "123-4567") = Ok 0.3 ∧
  LeadProcessor._score_phone VNaN = Ok 0.0.
Proof. by repeat split. Qed.

Example score_title_examples :
  LeadProcessor._score_title (VStr "VP Sales") = Ok 1.0 ∧
  LeadProcessor._score_title (VStr "Team Lead") = Ok 0.6 ∧
  LeadProcessor._score_title (VStr "Engineer") = Ok 0.3 ∧
  LeadProcessor._score_title (VStr "N/A") = Ok 0.0.
Proof. by repeat split. Qed.

Example completeness_example :
  LeadProcessor.completeness_of_row Examples.unreachable
  = Ok (inject_Z 1 / inject_Z 4).
Proof. reflexivity. Qed.

Example parse_name_examples :
  HubSpotFormatter._parse_name Examples.plain_runtime (VStr "  John Q Public ")
  = ("John", "Q Public") ∧
  HubSpotFormatter._parse_name Examples.plain_runtime (VStr "Cher") = ("Cher", "") ∧
  HubSpotFormatter._parse_name Examples.plain_runtime VNaN = ("", "").
Proof. by repeat split. Qed.

Example sales_tasks_example :
  (fun t => (HubSpotFormatter.title t, HubSpotFormatter.priority t)) <$>
    match HubSpotFormatter.create_sales_tasks Examples.plain_runtime
            Examples.scored_leads with
    | Ok tasks => tasks
    | Raise _ => []
    end
  = [("URGENT: Call Acme Inc", "High");
     ("Research and reach out to N/A", "Medium")].
Proof. vm_compute. reflexivity. Qed.

Example contacts_example :
  (fun c => (HubSpotFormatter.email c, HubSpotFormatter.company c)) <$>
    match HubSpotFormatter.format_for_hubspot Examples.plain_runtime
            Examples.scored_leads with
    | Ok (contacts, _) => contacts
    | Raise _ => []
    end
  = [(VStr "cher@gmail.com", VStr "N/A"); (VStr "ann@acme.io", VStr "Acme Inc")].
Proof. vm_compute. reflexivity. Qed.

Example training_example :
  LeadScorer.create_training_labels Examples.mixed_leads Examples.quiet
  = Ok [1%nat; 0%nat; 0%nat].
Proof. vm_compute. reflexivity. Qed.

(** * Further properties *)

(** ** The per-row scorers *)

(** X1: whatever the cell, a score returned by the e-mail, phone, title or
    industry scorer is one of the scorer's few levels, hence in [0,1]. *)
Theorem scorer_levels (v : value) (q : Q) :
  (LeadProcessor._score_email v = Ok q → q ∈ [0.0; 0.2; 0.6; 1.0]) ∧
  (LeadProcessor._score_phone v = Ok q → q ∈ [0.0; 0.3; 1.0]) ∧
  (LeadProcessor._score_title v = Ok q → q ∈ [0.0; 0.3; 0.6; 1.0]) ∧
  (LeadProcessor._score_industry v = Ok q → q ∈ [0.5; 0.7; 1.0]) ∧
  (LeadProcessor._score_email v = Ok q ∨ LeadProcessor._score_phone v = Ok q ∨
   LeadProcessor._score_title v = Ok q ∨ LeadProcessor._score_industry v = Ok q →
   Vocab.unit_interval q).
Proof.
  assert (LeadProcessor._score_email v = Ok q → q ∈ [0.0; 0.2; 0.6; 1.0]) as He.
  { unfold LeadProcessor._score_email.
    destruct (pd_isna v || eq_str v "N/A"); [intros [= <-]; set_solver |].
    destruct v as [| |s|x]; try done.
    destruct (negb _); [intros [= <-]; set_solver |].
    destruct (_ !! _); [| done].
    destruct (Str.mem _ _); intros [= <-]; set_solver. }
  assert (LeadProcessor._score_phone v = Ok q → q ∈ [0.0; 0.3; 1.0]) as Hp.
  { unfold LeadProcessor._score_phone.
    destruct (pd_isna v || eq_str v "N/A"); [intros [= <-]; set_solver |].
    destruct v as [| |s|x]; try done.
    destruct (_ || _); intros [= <-]; set_solver. }
  assert (LeadProcessor._score_title v = Ok q → q ∈ [0.0; 0.3; 0.6; 1.0]) as Ht.
  { unfold LeadProcessor._score_title.
    destruct (pd_isna v || eq_str v "N/A"); [intros [= <-]; set_solver |].
    destruct v as [| |s|x]; try done.
    destruct (LeadProcessor.any_in _ _); [intros [= <-]; set_solver |].
    destruct (LeadProcessor.any_in _ _); intros [= <-]; set_solver. }
  assert (LeadProcessor._score_industry v = Ok q → q ∈ [0.5; 0.7; 1.0]) as Hi.
  { unfold LeadProcessor._score_industry.
    destruct (pd_isna v); [intros [= <-]; set_solver |].
    destruct v as [| |s|x]; try done.
    destruct (LeadProcessor.any_in _ _); intros [= <-]; set_solver. }
  repeat split; try done.
  - destruct H as [H | [H | [H | H]]];
      [apply He in H | apply Hp in H | apply Ht in H | apply Hi in H];
      repeat (apply elem_of_cons in H as [-> | H]; [done |]);
      by apply elem_of_nil in H.
  - destruct H as [H | [H | [H | H]]];
      [apply He in H | apply Hp in H | apply Ht in H | apply Hi in H];
      repeat (apply elem_of_cons in H as [-> | H]; [done |]);
      by apply elem_of_nil in H.
Qed.

Lemma scorer_levels_witness :
  (0.6 : Q) ∈ [0.0; 0.2; 0.6; 1.0] ∧ Vocab.unit_interval 0.6.
Proof.
  pose proof (scorer_levels (VStr "cher@gmail.com") 0.6) as (He & _ & _ & _ & Hu).
  split; [by apply He | apply Hu; by left].
Defined.

Lemma digits_only_length (s : string) :
  String.length (Str.digits_only s) = Vocab.count_digits s.
Proof.
  induction s as [|c s IH]; simpl; [done |].
  destruct (Str.isdigit c); simpl; by rewrite IH.
Qed.

(** X2: the phone score of a present phone looks at its digits only: 1.0
    when it has ten or eleven of them, 0.3 otherwise, wherever the other
    characters are; a missing phone scores 0.0. *)
Theorem score_phone_cases (phone : value) :
  (Spec.missing phone → LeadProcessor._score_phone phone = Ok 0.0) ∧
  (∀ s, phone = VStr s → s ≠ "N/A" →
        Vocab.count_digits s = 10%nat ∨ Vocab.count_digits s = 11%nat →
        LeadProcessor._score_phone phone = Ok 1.0) ∧
  (∀ s, phone = VStr s → s ≠ "N/A" →
        Vocab.count_digits s ≠ 10%nat → Vocab.count_digits s ≠ 11%nat →
        LeadProcessor._score_phone phone = Ok 0.3).
Proof.
  split; [| split].
  - intros [[-> | ->] | ->]; reflexivity.
  - intros s -> Hna Hd. unfold LeadProcessor._score_phone. simpl.
    apply String.eqb_neq in Hna. rewrite Hna, digits_only_length.
    by destruct Hd as [-> | ->].
  - intros s -> Hna H10 H11. unfold LeadProcessor._score_phone. simpl.
    apply String.eqb_neq in Hna. rewrite Hna, digits_only_length.
    apply Nat.eqb_neq in H10, H11. by rewrite H10, H11.
Qed.

Lemma score_phone_cases_witness :
  LeadProcessor._score_phone (VStr "+1 (555) 123-4567") = Ok 1.0 ∧
  LeadProcessor._score_phone (VStr "ext. 4567") = Ok 0.3 ∧
  LeadProcessor._score_phone VNone = Ok 0.0.
Proof.
  split; [| split].
  - apply (score_phone_cases (VStr "+1 (555) 123-4567")) with (s := "+1 (555) 123-4567");
      [reflexivity | discriminate | by right].
  - apply (score_phone_cases (VStr "ext. 4567")) with (s := "ext. 4567");
      [reflexivity | discriminate | vm_compute; lia | vm_compute; lia].
  - apply (score_phone_cases VNone). left. by right.
Defined.

Lemma score_title_str (s : string) :
  s ≠ "N/A" →
  LeadProcessor._score_title (VStr s) =
  Ok (if LeadProcessor.any_in LeadProcessor.decision_maker_titles (Str.lower s)
      then 1.0
      else if LeadProcessor.any_in ["manager"; "lead"; "head"] (Str.lower s)
           then 0.6 else 0.3).
Proof.
  intros Hna%String.eqb_neq. unfold LeadProcessor._score_title.
  cbn [pd_isna eq_str orb]. rewrite Hna.
  destruct (LeadProcessor.any_in _ _); [done |].
  by destruct (LeadProcessor.any_in _ _).
Qed.

(** X3: the title score of a present title is 1.0 as soon as the lower-cased
    title contains ceo, cto, vp, director, founder or president, also when
    it contains manager, lead or head as well; without the former it is 0.6
    if it contains one of the latter, and 0.3 otherwise. *)
Theorem score_title_cases (s : string) :
  s ≠ "N/A" →
  (Vocab.mentions ["ceo"; "cto"; "vp"; "director"; "founder"; "president"] s →
   LeadProcessor._score_title (VStr s) = Ok 1.0) ∧
  (¬ Vocab.mentions ["ceo"; "cto"; "vp"; "director"; "founder"; "president"] s →
   Vocab.mentions ["manager"; "lead"; "head"] s →
   LeadProcessor._score_title (VStr s) = Ok 0.6) ∧
  (¬ Vocab.mentions ["ceo"; "cto"; "vp"; "director"; "founder"; "president"] s →
   ¬ Vocab.mentions ["manager"; "lead"; "head"] s →
   LeadProcessor._score_title (VStr s) = Ok 0.3).
Proof.
  intros Hna. rewrite (score_title_str s Hna). unfold Vocab.mentions.
  unfold LeadProcessor.decision_maker_titles.
  destruct (LeadProcessor.any_in
              ["ceo"; "cto"; "vp"; "director"; "founder"; "president"]
              (Str.lower s)) eqn:E1.
  - apply any_in_spec in E1. by repeat split.
  - assert (¬ ∃ kw, kw ∈ ["ceo"; "cto"; "vp"; "director"; "founder"; "president"]
                     ∧ Spec.substring kw (Str.lower s)) as N1.
    { intros H%any_in_spec. congruence. }
    destruct (LeadProcessor.any_in ["manager"; "lead"; "head"] (Str.lower s))
      eqn:E2.
    + apply any_in_spec in E2. by repeat split.
    + assert (¬ ∃ kw, kw ∈ ["manager"; "lead"; "head"]
                       ∧ Spec.substring kw (Str.lower s)) as N2.
      { intros H%any_in_spec. congruence. }
      by repeat split.
Qed.

Lemma score_title_cases_witness :
  LeadProcessor._score_title (VStr "Managing Director") = Ok 1.0 ∧
  LeadProcessor._score_title (VStr "Head of Sales") = Ok 0.6 ∧
  LeadProcessor._score_title (VStr "Engineer") = Ok 0.3.
Proof.
  split; [| split].
  - apply (score_title_cases "Managing Director"); [discriminate |].
    exists "director". split; [set_solver | by exists "managing ", ""].
  - apply (score_title_cases "Head of Sales"); [discriminate | |].
    + intros H%any_in_spec. vm_compute in H. discriminate.
    + exists "head". split; [set_solver | by exists "", " of sales"].
  - apply (score_title_cases "Engineer"); [discriminate | |];
      intros H%any_in_spec; vm_compute in H; discriminate.
Defined.

(** X4: the title and industry scores do not depend on letter case: two
    present titles, or two industries, with the same lower-cased text score
    the same.  The sentinel is the exception: "N/A" scores 0.0 as a title,
    "n/a" scores 0.3. *)
Theorem scores_ignore_case (s s' : string) :
  Str.lower s = Str.lower s' →
  (s ≠ "N/A" → s' ≠ "N/A" →
   LeadProcessor._score_title (VStr s) = LeadProcessor._score_title (VStr s')) ∧
  LeadProcessor._score_industry (VStr s) = LeadProcessor._score_industry (VStr s') ∧
  LeadProcessor._score_title (VStr "N/A") ≠ LeadProcessor._score_title (VStr "n/a").
Proof.
  intros Hl. split; [| split].
  - intros H H'. by rewrite (score_title_str s H), (score_title_str s' H'), Hl.
  - by rewrite !score_industry_str, Hl.
  - discriminate.
Qed.

Lemma scores_ignore_case_witness :
  LeadProcessor._score_title (VStr "VP Sales")
  = LeadProcessor._score_title (VStr "vp sales") ∧
  LeadProcessor._score_industry (VStr "SaaS")
  = LeadProcessor._score_industry (VStr "SAAS").
Proof.
  split.
  - apply (scores_ignore_case "VP Sales" "vp sales"); [reflexivity | discriminate..].
  - apply (scores_ignore_case "SaaS" "SAAS"). reflexivity.
Defined.

(** ** Completeness *)

Lemma count_filled_bounds (row : gmap string value) (fields : list string) :
  ∀ n m, LeadProcessor.count_filled row fields n = Ok m →
         (n <= m <= n + length fields)%nat.
Proof.
  induction fields as [|f fields IH]; intros n m; simpl.
  - intros [= <-]. lia.
  - destruct (row_getitem row f) as [v|]; simpl; [| done].
    intros H%IH. destruct (negb (pd_isna v) && negb (eq_str v "N/A")); lia.
Qed.

Lemma filled_missing (v : value) :
  negb (pd_isna v) && negb (eq_str v "N/A") = false ↔ Spec.missing v.
Proof.
  unfold Spec.missing, Spec.absent. destruct v as [| |s|q]; simpl.
  - split; [intros _; left; by right | done].
  - split; [intros _; left; by left | done].
  - rewrite negb_false_iff, String.eqb_eq. split.
    + intros ->. by right.
    + intros [[? | ?] | [= ->]]; done.
  - split; [done | intros [[? | ?] | ?]; done].
Qed.

Lemma count_filled_all (row : gmap string value) (fields : list string) :
  ∀ n, Forall (fun k => ∃ v, row !! k = Some v ∧ ¬ Spec.missing v) fields →
       LeadProcessor.count_filled row fields n = Ok (n + length fields)%nat.
Proof.
  induction fields as [|f fields IH]; intros n Hall; simpl.
  - f_equal. lia.
  - apply Forall_cons in Hall as [(v & Hv & Hm) Hall].
    unfold row_getitem. rewrite Hv. simpl.
    destruct (negb (pd_isna v) && negb (eq_str v "N/A")) eqn:E.
    + rewrite (IH _ Hall). f_equal. lia.
    + by apply filled_missing in E.
Qed.

Lemma count_filled_none (row : gmap string value) (fields : list string) :
  ∀ n, Forall (fun k => ∃ v, row !! k = Some v ∧ Spec.missing v) fields →
       LeadProcessor.count_filled row fields n = Ok n.
Proof.
  induction fields as [|f fields IH]; intros n Hall; simpl; [done |].
  apply Forall_cons in Hall as [(v & Hv & Hm) Hall].
  unfold row_getitem. rewrite Hv. simpl.
  apply filled_missing in Hm. rewrite Hm. by apply IH.
Qed.

Lemma count_filled_frame (row : gmap string value) (field : string) (v : value)
    (fields : list string) :
  field ∉ fields →
  ∀ n, LeadProcessor.count_filled (<[field := v]> row) fields n
       = LeadProcessor.count_filled row fields n.
Proof.
  induction fields as [|f fields IH]; intros Hn n; simpl; [done |].
  apply not_elem_of_cons in Hn as [Hne Hn]. unfold row_getitem.
  rewrite lookup_insert_ne by done.
  destruct (row !! f); simpl; [by apply IH | done].
Qed.

Lemma count_filled_absent (row : gmap string value) (fields : list string) :
  ∀ n, (∃ k, k ∈ fields ∧ row !! k = None) →
       ∃ k, k ∈ fields ∧ row !! k = None ∧
            LeadProcessor.count_filled row fields n = Raise (KeyError k).
Proof.
  induction fields as [|f fields IH]; intros n (k & Hk & Hnone); simpl.
  - by apply elem_of_nil in Hk.
  - unfold row_getitem. destruct (row !! f) as [v|] eqn:Ef; simpl.
    + apply elem_of_cons in Hk as [-> | Hk]; [congruence |].
      destruct (IH (if negb (pd_isna v) && negb (eq_str v "N/A")
                    then S n else n)) as (k' & Hk' & Hn' & ->); [by exists k |].
      exists k'. split; [by right | done].
    + exists f. split; [by left | done].
Qed.

Lemma quarter_unit_interval (k : nat) :
  (k <= 4)%nat →
  Vocab.unit_interval (inject_Z (Z.of_nat k) / inject_Z (Z.of_nat 4)).
Proof.
  intros Hk. unfold Vocab.unit_interval, Qle, Qdiv, Qmult, Qinv, inject_Z.
  simpl. lia.
Qed.

(** X5: the completeness of a row is a number of quarters between 0 and 1:
    1 when the e-mail, phone, name and website are all there, 0 when all
    four are missing.  It reads no other field of the row, and a row that
    lacks one of the four fields raises [KeyError]. *)
Theorem completeness_cases (row : gmap string value) :
  (∀ c, LeadProcessor.completeness_of_row row = Ok c →
        Vocab.unit_interval c ∧
        ∃ k, (k <= 4)%nat ∧ c = inject_Z (Z.of_nat k) / inject_Z (Z.of_nat 4)) ∧
  (Forall (fun k => ∃ v, row !! k = Some v ∧ ¬ Spec.missing v)
     ["Contact_Email"; "Contact_Phone"; "Contact_Name"; "Website"] →
   ∃ c, LeadProcessor.completeness_of_row row = Ok c ∧ c == 1) ∧
  (Forall (fun k => ∃ v, row !! k = Some v ∧ Spec.missing v)
     ["Contact_Email"; "Contact_Phone"; "Contact_Name"; "Website"] →
   ∃ c, LeadProcessor.completeness_of_row row = Ok c ∧ c == 0) ∧
  (∀ field v,
     field ∉ ["Contact_Email"; "Contact_Phone"; "Contact_Name"; "Website"] →
     LeadProcessor.completeness_of_row (<[field := v]> row)
     = LeadProcessor.completeness_of_row row) ∧
  (∀ k, k ∈ ["Contact_Email"; "Contact_Phone"; "Contact_Name"; "Website"] →
        row !! k = None →
        ∃ k', row !! k' = None ∧
              LeadProcessor.completeness_of_row row = Raise (KeyError k')).
Proof.
  unfold LeadProcessor.completeness_of_row.
  change ["Contact_Email"; "Contact_Phone"; "Contact_Name"; "Website"]
    with LeadProcessor.key_fields.
  split; [| split; [| split; [| split]]].
  - intros c. destruct (LeadProcessor.count_filled row _ _) as [m|] eqn:E;
      simpl; [| done].
    intros [= <-]. apply count_filled_bounds in E. simpl in E.
    split; [apply quarter_unit_interval; lia |]. exists m. split; [lia | done].
  - intros Hall. rewrite (count_filled_all _ _ _ Hall). simpl.
    eexists. split; [reflexivity | reflexivity].
  - intros Hall. rewrite (count_filled_none _ _ _ Hall). simpl.
    eexists. split; [reflexivity | reflexivity].
  - intros field v Hn. by rewrite count_filled_frame.
  - intros k Hk Hnone.
    destruct (count_filled_absent row LeadProcessor.key_fields 0%nat)
      as (k' & _ & Hk' & ->); [by exists k |].
    by exists k'.
Qed.

Lemma completeness_cases_witness :
  (∃ c, LeadProcessor.completeness_of_row Examples.acme = Ok c ∧ c == 1) ∧
  (∃ k', (∅ : gmap string value) !! k' = None ∧
         LeadProcessor.completeness_of_row ∅ = Raise (KeyError k')) ∧
  Vocab.unit_interval (inject_Z 1 / inject_Z 4).
Proof.
  split; [| split].
  - apply (completeness_cases Examples.acme).
    repeat (apply List.Forall_cons;
            [eexists; split; [reflexivity | intros [[? | ?] | ?]; discriminate] |]).
    apply List.Forall_nil.
  - apply (completeness_cases ∅) with (k := "Website"); [set_solver | done].
  - apply (completeness_cases Examples.unreachable). reflexivity.
Defined.

(** ** Feature engineering, continued *)

Lemma process_leads_ok (h : gmap ref DataFrame) (df : ref) (frame : DataFrame) :
  h !! df = Some frame → Spec.raw_table frame = true →
  ∃ f, Pure.featurize frame = Ok f ∧
       LeadProcessor.process_leads df h
       = (Ok (fresh (dom h)), <[fresh (dom h) := f]> h).
Proof.
  intros Hdf Hraw. destruct (featurize_total frame Hraw) as [f Hf].
  destruct (process_leads_run h df frame Hdf) as (cur & Hrun & Hcur).
  exists f. split; [done |]. rewrite Hrun, Hf. by rewrite (Hcur f Hf).
Qed.

Lemma extended_lookup_other (row row' : gmap string value) (k : string) :
  Spec.extended row row' → k ∉ LeadScorer.feature_columns →
  row' !! k = row !! k.
Proof.
  intros (e & p & t & d & i & _ & _ & _ & _ & _ & ->) Hk.
  unfold LeadScorer.feature_columns in Hk.
  rewrite !not_elem_of_cons in Hk. destruct Hk as (? & ? & ? & ? & ? & _).
  by rewrite !lookup_insert_ne.
Qed.

Lemma extended_feature_row (row row' : gmap string value) :
  Spec.extended row row' →
  ∃ e p t d i,
    LeadProcessor._score_email (row_get row "Contact_Email" VNaN) = Ok e ∧
    LeadProcessor._score_phone (row_get row "Contact_Phone" VNaN) = Ok p ∧
    LeadProcessor._score_title (row_get row "Contact_Title" VNaN) = Ok t ∧
    LeadProcessor.completeness_of_row row = Ok d ∧
    LeadProcessor._score_industry (row_get row "Industry" VNaN) = Ok i ∧
    Spec.feature_row row' e p t d i.
Proof.
  intros (e & p & t & d & i & He & Hp & Ht & Hd & Hi & ->).
  exists e, p, t, d, i. repeat split; try done.
  - by do 4 (rewrite lookup_insert_ne by done); rewrite lookup_insert_eq.
  - by do 3 (rewrite lookup_insert_ne by done); rewrite lookup_insert_eq.
  - by do 2 (rewrite lookup_insert_ne by done); rewrite lookup_insert_eq.
  - by rewrite lookup_insert_ne by done; rewrite lookup_insert_eq.
  - by rewrite lookup_insert_eq.
Qed.

Lemma score_email_unit (v : value) (q : Q) :
  LeadProcessor._score_email v = Ok q → Vocab.unit_interval q.
Proof.
  unfold LeadProcessor._score_email.
  destruct (pd_isna v || eq_str v "N/A"); [by intros [= <-] |].
  destruct v as [| |s|x]; try done.
  destruct (negb _); [by intros [= <-] |].
  destruct (_ !! _); [| done].
  destruct (Str.mem _ _); by intros [= <-].
Qed.

Lemma score_phone_unit (v : value) (q : Q) :
  LeadProcessor._score_phone v = Ok q → Vocab.unit_interval q.
Proof.
  unfold LeadProcessor._score_phone.
  destruct (pd_isna v || eq_str v "N/A"); [by intros [= <-] |].
  destruct v as [| |s|x]; try done.
  destruct (_ || _); by intros [= <-].
Qed.

Lemma score_title_unit (v : value) (q : Q) :
  LeadProcessor._score_title v = Ok q → Vocab.unit_interval q.
Proof.
  unfold LeadProcessor._score_title.
  destruct (pd_isna v || eq_str v "N/A"); [by intros [= <-] |].
  destruct v as [| |s|x]; try done.
  destruct (LeadProcessor.any_in _ _); [by intros [= <-] |].
  destruct (LeadProcessor.any_in _ _); by intros [= <-].
Qed.

Lemma score_industry_unit (v : value) (q : Q) :
  LeadProcessor._score_industry v = Ok q → Vocab.unit_interval q.
Proof.
  unfold LeadProcessor._score_industry.
  destruct (pd_isna v); [by intros [= <-] |].
  destruct v as [| |s|x]; try done.
  destruct (LeadProcessor.any_in _ _); by intros [= <-].
Qed.

Lemma extended_bounded (row row' : gmap string value) :
  Spec.extended row row' → Vocab.bounded_features row'.
Proof.
  intros (e & p & t & d & i & He & Hp & Ht & Hd & Hi & Hf)%extended_feature_row.
  exists e, p, t, d, i. split; [done |].
  split; [apply (score_email_unit _ _ He) |].
  split; [apply (score_phone_unit _ _ Hp) |].
  split; [apply (score_title_unit _ _ Ht) |].
  split; [| apply (score_industry_unit _ _ Hi)].
  unfold LeadProcessor.completeness_of_row in Hd.
  destruct (LeadProcessor.count_filled row _ _) as [m|] eqn:E; simpl in Hd; [| done].
  injection Hd as <-. apply count_filled_bounds in E. simpl in E.
  apply quarter_unit_interval. lia.
Qed.

Ltac solve_not_in :=
  repeat (apply not_elem_of_cons; split; [done |]); apply not_elem_of_nil.

Lemma completeness_frame_features (row row' : gmap string value) :
  Spec.extended row row' →
  LeadProcessor.completeness_of_row row' = LeadProcessor.completeness_of_row row.
Proof.
  intros (e & p & t & d & i & _ & _ & _ & _ & _ & ->).
  unfold LeadProcessor.completeness_of_row, LeadProcessor.key_fields.
  by rewrite !count_filled_frame by solve_not_in.
Qed.

Lemma row_get_other (row row' : gmap string value) (k : string) (dflt : value) :
  Spec.extended row row' → k ∉ LeadScorer.feature_columns →
  row_get row' k dflt = row_get row k dflt.
Proof.
  intros He Hk. unfold row_get. by rewrite (extended_lookup_other _ _ _ He Hk).
Qed.

Lemma extended_again (row row' row'' : gmap string value) :
  Spec.extended row row' → Spec.extended row' row'' → row'' = row'.
Proof.
  intros H1 (e & p & t & d & i & He & Hp & Ht & Hd & Hi & ->).
  rewrite (row_get_other _ _ _ _ H1) in He by solve_not_in.
  rewrite (row_get_other _ _ _ _ H1) in Hp by solve_not_in.
  rewrite (row_get_other _ _ _ _ H1) in Ht by solve_not_in.
  rewrite (row_get_other _ _ _ _ H1) in Hi by solve_not_in.
  rewrite (completeness_frame_features _ _ H1) in Hd.
  destruct H1 as (e1 & p1 & t1 & d1 & i1 & He1 & Hp1 & Ht1 & Hd1 & Hi1 & ->).
  rewrite He in He1. rewrite Hp in Hp1. rewrite Ht in Ht1.
  rewrite Hd in Hd1. rewrite Hi in Hi1.
  injection He1 as <-. injection Hp1 as <-. injection Ht1 as <-.
  injection Hd1 as <-. injection Hi1 as <-.
  apply map_eq. intros k. rewrite !lookup_insert.
  repeat case_decide; congruence.
Qed.

Lemma extended_raw_row (row row' : gmap string value) :
  Spec.extended row row' → Spec.raw_row row = true → Spec.raw_row row' = true.
Proof.
  intros He. unfold Spec.raw_row. simpl.
  rewrite !(row_get_other _ _ _ _ He) by solve_not_in.
  by rewrite !(extended_lookup_other _ _ _ He) by solve_not_in.
Qed.

Lemma featurize_raw (frame f : DataFrame) :
  Spec.raw_table frame = true → Pure.featurize frame = Ok f →
  Spec.raw_table f = true.
Proof.
  intros Hraw Hf. apply featurize_Ok in Hf as [Hrows Hcols].
  unfold Spec.raw_table in *. apply andb_true_iff in Hraw as [Hc Hr].
  apply andb_true_iff. split.
  - rewrite forallb_forall in *. intros c Hin.
    apply has_column_elem_of, Hcols. left. apply has_column_elem_of. by apply Hc.
  - rewrite forallb_forall in *. intros row' Hin.
    apply list_elem_of_In, list_elem_of_lookup in Hin as [j Hj].
    destruct (Forall2_lookup_r _ _ _ _ _ Hrows Hj) as (row & Hrow & Hext).
    eapply extended_raw_row; [exact Hext |]. apply Hr.
    apply list_elem_of_In. by eapply list_elem_of_lookup_2.
Qed.

Lemma Forall2_extended_again (rs rs' rs'' : list (gmap string value)) :
  Forall2 Spec.extended rs rs' → Forall2 Spec.extended rs' rs'' → rs'' = rs'.
Proof.
  intros H1. revert rs''. induction H1 as [|r r' rs rs' Hr _ IH]; intros rs'' H2.
  - by inversion H2.
  - inversion H2 as [|? r'' ? rs3 Hr' H3]; subst.
    f_equal; [by eapply extended_again | by apply IH].
Qed.

(** X6: running [process_leads] on its own output changes nothing but the
    identity of the table: the second result is a new object with the rows
    and columns of the first, and both earlier tables are left as they
    were. *)
Theorem process_leads_twice (h : gmap ref DataFrame) (df : ref) (frame : DataFrame) :
  h !! df = Some frame → Spec.raw_table frame = true →
  ∃ r1 h1 f1 r2 h2 f2,
    LeadProcessor.process_leads df h = (Ok r1, h1) ∧ h1 !! r1 = Some f1 ∧
    LeadProcessor.process_leads r1 h1 = (Ok r2, h2) ∧ h2 !! r2 = Some f2 ∧
    r2 ≠ r1 ∧ rows f2 = rows f1 ∧
    (∀ c, c ∈ columns f2 ↔ c ∈ columns f1) ∧
    h2 !! r1 = Some f1 ∧ h2 !! df = Some frame.
Proof.
  intros Hdf Hraw.
  destruct (process_leads_ok h df frame Hdf Hraw) as (f1 & Hf1 & Hrun1).
  set (r1 := fresh (dom h)) in *. set (h1 := <[r1 := f1]> h) in *.
  assert (h1 !! r1 = Some f1) as Hr1 by (unfold h1; by rewrite lookup_insert_eq).
  pose proof (featurize_raw _ _ Hraw Hf1) as Hraw1.
  destruct (process_leads_ok h1 r1 f1 Hr1 Hraw1) as (f2 & Hf2 & Hrun2).
  set (r2 := fresh (dom h1)) in *.
  assert (r1 ∈ dom h1) as Hin1 by (apply elem_of_dom; by eexists).
  assert (r2 ≠ r1) as Hne.
  { intros Heq. apply (is_fresh (dom h1)). fold r2. by rewrite Heq. }
  assert (df ≠ r1) as Hne1.
  { intros ->. apply (is_fresh (dom h)). apply elem_of_dom. by eexists. }
  assert (df ≠ r2) as Hne2.
  { intros ->. apply (is_fresh (dom h1)). apply elem_of_dom.
    unfold h1. rewrite lookup_insert_ne by done. by eexists. }
  exists r1, h1, f1, r2, (<[r2 := f2]> h1), f2.
  split; [done |]. split; [done |]. split; [done |].
  split; [by rewrite lookup_insert_eq |]. split; [done |].
  pose proof (featurize_Ok _ _ Hf1) as [Hrows1 Hcols1].
  pose proof (featurize_Ok _ _ Hf2) as [Hrows2 Hcols2].
  split; [by eapply Forall2_extended_again |]. split.
  - intros c. rewrite Hcols2, Hcols1. tauto.
  - split.
    + by rewrite lookup_insert_ne.
    + rewrite lookup_insert_ne by done. unfold h1. by rewrite lookup_insert_ne.
Qed.

Lemma process_leads_twice_witness :
  let h : gmap ref DataFrame := <[0%nat := Examples.leads]> ∅ in
  ∃ r1 h1 f1 r2 h2 f2,
    LeadProcessor.process_leads 0%nat h = (Ok r1, h1) ∧ h1 !! r1 = Some f1 ∧
    LeadProcessor.process_leads r1 h1 = (Ok r2, h2) ∧ h2 !! r2 = Some f2 ∧
    r2 ≠ r1 ∧ rows f2 = rows f1 ∧
    (∀ c, c ∈ columns f2 ↔ c ∈ columns f1) ∧
    h2 !! r1 = Some f1 ∧ h2 !! 0%nat = Some Examples.leads.
Proof.
  apply (process_leads_twice (<[0%nat := Examples.leads]> ∅) 0%nat Examples.leads);
    reflexivity.
Defined.

Lemma check_array_numeric (X : list (list value)) (e : exn) :
  Forall (fun x => ∃ y, traverse to_float x = Ok y) X →
  check_array X = Raise e → e = ValueError "Found array with 0 sample(s)".
Proof.
  intros Hall. unfold check_array. destruct X as [|x X]; [by intros [= <-] |].
  destruct (traverse_total _ _ Hall) as [ys ->]. done.
Qed.

(** X7: the table [process_leads] returns is a feature table: every row has
    the five features, each in [0,1], so the label synthesizer labels every
    row of it, and [train] on it never fails for a missing column or a cell
    that is not a number: if it fails, it is for lack of rows. *)
Theorem process_leads_feeds_training (h : gmap ref DataFrame) (df : ref)
    (frame : DataFrame) :
  h !! df = Some frame → Spec.raw_table frame = true →
  ∃ r1 h1 f1,
    LeadProcessor.process_leads df h = (Ok r1, h1) ∧ h1 !! r1 = Some f1 ∧
    Forall Vocab.bounded_features (rows f1) ∧
    (∀ noise, ∃ labels,
       LeadScorer.create_training_labels f1 noise = Ok labels ∧
       length labels = length (rows frame)) ∧
    (∀ lib (self self' : LeadScorer.LeadScorer lib) noise e,
       LeadScorer.train lib self f1 noise = (Raise e, self') →
       e = ValueError "the resulting train set will be empty" ∨
       e = ValueError "Found array with 0 sample(s)").
Proof.
  intros Hdf Hraw.
  destruct (process_leads_ok h df frame Hdf Hraw) as (f1 & Hf1 & Hrun1).
  exists (fresh (dom h)), (<[fresh (dom h) := f1]> h), f1.
  split; [done |]. split; [by rewrite lookup_insert_eq |].
  apply featurize_Ok in Hf1 as [Hrows Hcols].
  assert (Forall Vocab.bounded_features (rows f1)) as Hb.
  { apply Forall_forall. intros row' Hin.
    apply list_elem_of_lookup in Hin as [j Hj].
    destruct (Forall2_lookup_r _ _ _ _ _ Hrows Hj) as (row & _ & Hext).
    by eapply extended_bounded. }
  assert (Forall Spec.is_feature_row (rows f1)) as Hfr.
  { eapply Forall_impl; [exact Hb |].
    intros row (e & p & t & d & i & Hf & _). by exists e, p, t, d, i. }
  assert (∀ c, c ∈ LeadScorer.feature_columns → c ∈ columns f1) as Hc.
  { intros c Hin. apply Hcols. by right. }
  split; [done |]. split.
  - intros noise. unfold LeadScorer.create_training_labels.
    destruct (labels_loop_rule (rows f1) noise 0%nat [] Hfr) as (ls & Hls & Hlen & _).
    exists ls. split; [done |]. rewrite Hlen. symmetry. by eapply Forall2_length.
  - intros lib self self' noise e. unfold LeadScorer.train.
    rewrite (values_of_features _ Hc).
    unfold LeadScorer.create_training_labels.
    destruct (labels_loop_rule (rows f1) noise 0%nat [] Hfr) as (ls & -> & _ & _).
    simpl.
    set (X := (fun row => _) <$> rows f1).
    assert (Forall (fun x => ∃ y, traverse to_float x = Ok y) X) as HX.
    { unfold X. apply Forall_fmap. eapply Forall_impl; [exact Hfr |].
      intros row (e0 & p & t & d & i & Hf). simpl.
      exists [e0; p; t; d; i]. by apply feature_row_floats. }
    unfold LeadScorer.train_test_split.
    destruct (_ =? _)%nat; [intros [= <- _]; by left |].
    assert (∀ idx, Forall (fun x => ∃ y, traverse to_float x = Ok y)
                     (take_rows X idx)) as Hsub.
    { intros idx. apply Forall_forall. intros x Hx%take_rows_elem_of.
      rewrite Forall_forall in HX. by apply HX. }
    destruct (check_array (take_rows X _)) as [X_train'|e1] eqn:E1.
    2:{ intros [= <- _]. right. eapply check_array_numeric; [apply Hsub | exact E1]. }
    unfold LeadScorer.transform.
    destruct (check_array (take_rows X _)) as [X_test'|e2] eqn:E2 in |- *.
    2:{ simpl. intros [= <- _]. right.
        eapply check_array_numeric; [apply Hsub | exact E2]. }
    simpl. done.
Qed.

Lemma process_leads_feeds_training_witness :
  let h : gmap ref DataFrame := <[0%nat := Examples.leads]> ∅ in
  ∃ r1 h1 f1,
    LeadProcessor.process_leads 0%nat h = (Ok r1, h1) ∧ h1 !! r1 = Some f1 ∧
    Forall Vocab.bounded_features (rows f1) ∧
    (∀ noise, ∃ labels,
       LeadScorer.create_training_labels f1 noise = Ok labels ∧
       length labels = length (rows Examples.leads)) ∧
    (∀ lib (self self' : LeadScorer.LeadScorer lib) noise e,
       LeadScorer.train lib self f1 noise = (Raise e, self') →
       e = ValueError "the resulting train set will be empty" ∨
       e = ValueError "Found array with 0 sample(s)").
Proof.
  apply (process_leads_feeds_training (<[0%nat := Examples.leads]> ∅) 0%nat
           Examples.leads); reflexivity.
Defined.

(** ** Explanations *)





(** ** Priorities, categories and the export summary *)

(** X9: the three export priorities agree with the four categories: a
    score is "High" exactly when it is a "Hot Lead", "Medium" exactly when
    it is a "Warm Lead", and "Low" exactly when it is a "Cold Lead" or "Low
    Priority"; a NaN score is "Low", and a score that is not a number is a
    [TypeError]. *)
Theorem priority_matches_category (q : Q) :
  (∃ p, HubSpotFormatter._get_priority_level (VNum q) = Ok p ∧
        (p = "High" ↔ LeadScorer.category_of q = "Hot Lead") ∧
        (p = "Medium" ↔ LeadScorer.category_of q = "Warm Lead") ∧
        (p = "Low" ↔ LeadScorer.category_of q = "Cold Lead"
                     ∨ LeadScorer.category_of q = "Low Priority")) ∧
  HubSpotFormatter._get_priority_level VNaN = Ok "Low" ∧
  HubSpotFormatter._get_priority_level VNone = Raise TypeError ∧
  (∀ s, HubSpotFormatter._get_priority_level (VStr s) = Raise TypeError).
Proof.
  split; [| by repeat split].
  unfold HubSpotFormatter._get_priority_level, LeadScorer.category_of. simpl.
  destruct (Qgeb q 0.8), (Qgeb q 0.6), (Qgeb q 0.4); simpl;
    (eexists; split; [reflexivity |]);
    repeat split; try done; try (by intros [? | ?]);
    intros _; first [by left | by right].
Qed.

Lemma format_contact_priority (rt : Runtime) (row : gmap string value)
    (c : HubSpotFormatter.Contact) :
  HubSpotFormatter._format_contact rt row = Ok c →
  HubSpotFormatter._get_priority_level (row_get row "lead_score" (VNum 0))
  = Ok (HubSpotFormatter.lead_priority c).
Proof.
  unfold HubSpotFormatter._format_contact.
  destruct (HubSpotFormatter._parse_name rt _) as [first_name last_name].
  destruct (HubSpotFormatter.round100 rt (row_get row "lead_score" _))
    as [score|]; simpl; [| done].
  destruct (HubSpotFormatter._get_priority_level _) as [prio|]; simpl; [| done].
  destruct (HubSpotFormatter.round100 rt _) as [completeness|]; simpl; [| done].
  by intros [= <-].
Qed.

Lemma scored_priority_high (rt : Runtime) (row : gmap string value)
    (c : HubSpotFormatter.Contact) :
  Spec.scored_row row → HubSpotFormatter._format_contact rt row = Ok c →
  HubSpotFormatter.lead_priority c = "High" ↔ Spec.at_least 0.8 row = true.
Proof.
  intros [[q Hq] _] Hc%format_contact_priority.
  unfold Spec.at_least, Spec.score_of, sort_key, row_get in *. rewrite Hq in *.
  unfold HubSpotFormatter._get_priority_level in Hc. simpl in *.
  unfold Qgeb in Hc. destruct (Qle_bool 0.8 q); simpl in Hc.
  - injection Hc as <-. by split.
  - destruct (Qle_bool 0.6 q); injection Hc as <-; by split.
Qed.

Lemma filter_length_Forall2 {A B} (R : A → B → Prop) (f : A → bool)
    (P : B → Prop) `{∀ b, Decision (P b)} (l : list A) (k : list B) :
  Forall2 R l k → (∀ a b, R a b → f a = true ↔ P b) →
  length (List.filter f l) = length (filter P k).
Proof.
  intros HR Hf. induction HR as [|a b l k Hab _ IH]; [done |].
  simpl. rewrite filter_cons. specialize (Hf a b Hab).
  destruct (f a) eqn:E, (decide (P b)) as [Hp | Hp]; simpl.
  - by rewrite IH.
  - exfalso. apply Hp. by apply Hf.
  - apply Hf in Hp. congruence.
  - done.
Qed.

Lemma Forall2_filter_l {A B} (R : A → B → Prop) (Q' : A → Prop) (f : A → bool)
    (l : list A) (k : list B) :
  Forall Q' l → Forall2 R (List.filter f l) k →
  Forall2 (fun a b => R a b ∧ Q' a) (List.filter f l) k.
Proof.
  intros Hall HR. apply Forall2_same_length_lookup.
  split; [by eapply Forall2_length |]. intros j a b Ha Hb. split.
  - by eapply Forall2_lookup_lr.
  - rewrite Forall_forall in Hall. apply Hall.
    apply list_elem_of_lookup_2, list_elem_of_In, List.filter_In in Ha as [Ha _].
    by apply list_elem_of_In.
Qed.

(** X10: on a scored table the export summary counts what was exported:
    [total_contacts] is the number of contact records, which is the number
    of rows that pass the filter, [hot_leads] is the number of those rows
    with a score of at least 0.8, and the dates are today's. *)
Theorem export_summary_counts (rt : Runtime) (df : DataFrame) :
  Forall Spec.scored_row (rows df) →
  ∃ contacts s,
    HubSpotFormatter.format_for_hubspot rt df = Ok (contacts, s) ∧
    HubSpotFormatter.total_contacts s = length contacts ∧
    HubSpotFormatter.total_contacts s
    = length (List.filter HubSpotFormatter._has_contact_info (rows df)) ∧
    HubSpotFormatter.hot_leads s
    = length (List.filter (Spec.at_least 0.8)
                (List.filter HubSpotFormatter._has_contact_info (rows df))) ∧
    (HubSpotFormatter.hot_leads s <= HubSpotFormatter.total_contacts s)%nat ∧
    HubSpotFormatter.import_date s = today rt ∧
    Forall (fun c => HubSpotFormatter.last_updated c = today rt) contacts.
Proof.
  intros Hall. unfold HubSpotFormatter.format_for_hubspot.
  destruct (contacts_loop_total rt (rows df) [] Hall) as [out E].
  rewrite E. simpl. eexists _, _. split; [reflexivity |]. simpl.
  apply contacts_loop_filter in E as (cs & -> & Hcs). simpl.
  pose proof (Forall2_length _ _ _ Hcs) as Hlen.
  pose proof (Forall2_filter_l _ _ _ _ _ Hall Hcs) as Hcs'.
  assert (length (List.filter (Spec.at_least 0.8)
                    (List.filter HubSpotFormatter._has_contact_info (rows df)))
          = length (filter (fun c => HubSpotFormatter.lead_priority c = "High") cs))
    as Hhot.
  { eapply filter_length_Forall2; [exact Hcs' |].
    intros row c [Hc Hs]. simpl. symmetry. by eapply scored_priority_high. }
  split; [done |]. split; [done |]. split; [done |]. split.
  - rewrite <- Hhot, <- Hlen. apply filter_length_le.
  - split; [done |]. apply Forall_forall. intros c Hin.
    apply list_elem_of_lookup in Hin as [j Hj].
    destruct (Forall2_lookup_r _ _ _ _ _ Hcs Hj) as (row & _ & Hc).
    unfold HubSpotFormatter._format_contact in Hc.
    destruct (HubSpotFormatter._parse_name rt _) as [first_name last_name].
    destruct (HubSpotFormatter.round100 rt (row_get row "lead_score" _))
      as [score|]; simpl in Hc; [| done].
    destruct (HubSpotFormatter._get_priority_level _) as [prio|];
      simpl in Hc; [| done].
    destruct (HubSpotFormatter.round100 rt _) as [completeness|];
      simpl in Hc; [| done].
    by injection Hc as <-.
Qed.

Lemma export_summary_counts_witness :
  ∃ contacts s,
    HubSpotFormatter.format_for_hubspot Examples.plain_runtime Examples.scored_leads
    = Ok (contacts, s) ∧
    HubSpotFormatter.total_contacts s = 2%nat ∧
    HubSpotFormatter.hot_leads s = 1%nat.
Proof.
  destruct (export_summary_counts Examples.plain_runtime Examples.scored_leads)
    as (contacts & s & Hrun & _ & Htot & Hhot & _).
  { repeat (apply List.Forall_cons; [apply scored_scored_row |]).
    apply List.Forall_nil. }
  exists contacts, s. split; [exact Hrun |]. by rewrite Htot, Hhot.
Defined.

(** ** Workflows *)

Lemma traverse_map {A B C} (f : B → result C) (g : A → B) (h : A → C)
    (l : list A) :
  Forall (fun a => f (g a) = Ok (h a)) l →
  traverse f (g <$> l) = Ok (map h l).
Proof.
  induction 1 as [|a l Ha _ IH]; [done |].
  change (traverse f (g <$> a :: l))
    with (x ← f (g a); xs ← traverse f (g <$> l); Ok (x :: xs)).
  by rewrite Ha, IH.
Qed.

Lemma count_true_and {A} (a b : A → bool) (l : list A) :
  Workflows.count_true (zip_with andb (map a l) (map b l))
  = length (List.filter (fun x => a x && b x) l).
Proof.
  unfold Workflows.count_true. induction l as [|x l IH]; simpl; [done |].
  destruct (a x && b x); simpl; by rewrite IH.
Qed.

Lemma count_true_map {A} (a : A → bool) (l : list A) :
  Workflows.count_true (map a l) = length (List.filter a l).
Proof.
  unfold Workflows.count_true. induction l as [|x l IH]; simpl; [done |].
  destruct (a x); simpl; by rewrite IH.
Qed.

Lemma filter_ext_length {A} (f g : A → bool) (l : list A) :
  (∀ x, f x = g x) → length (List.filter f l) = length (List.filter g l).
Proof.
  intros H. induction l as [|x l IH]; simpl; [done |].
  rewrite H. destruct (g x); simpl; by rewrite IH.
Qed.

Lemma in_category_hot (row : gmap string value) :
  Vocab.in_category "Hot Lead" row = Spec.at_least 0.8 row.
Proof.
  unfold Vocab.in_category, Spec.at_least, LeadScorer.category_of, Qgeb.
  destruct (Spec.score_of row) as [q|]; [| done].
  by destruct (Qle_bool 0.8 q), (Qle_bool 0.6 q), (Qle_bool 0.4 q).
Qed.

Lemma in_category_warm (row : gmap string value) :
  Vocab.in_category "Warm Lead" row
  = Spec.at_least 0.6 row && negb (Spec.at_least 0.8 row).
Proof.
  unfold Vocab.in_category, Spec.at_least, LeadScorer.category_of, Qgeb.
  destruct (Spec.score_of row) as [q|]; [| done].
  by destruct (Qle_bool 0.8 q), (Qle_bool 0.6 q), (Qle_bool 0.4 q).
Qed.

Lemma disjoint_filters_length {A} (f g : A → bool) (l : list A) :
  (∀ x, f x && g x = false) →
  (length (List.filter f l) + length (List.filter g l) <= length l)%nat.
Proof.
  intros H. induction l as [|x l IH]; simpl; [lia |].
  specialize (H x). destruct (f x), (g x); simpl in *; try discriminate; lia.
Qed.

(** X11: on a scored table [generate_recommended_workflows] proposes the
    hot-lead workflow if and only if some lead is a "Hot Lead", then the
    warm-lead workflow if and only if some lead is a "Warm Lead"; each
    carries the number of leads of its category, so no workflow is proposed
    for zero leads and the two counts together do not exceed the table.
    Without a [lead_score] column it raises [KeyError]. *)
Theorem workflows_follow_categories (df : DataFrame) :
  (has_column df "lead_score" = false →
   Workflows.generate_recommended_workflows df = Raise (KeyError "lead_score")) ∧
  (has_column df "lead_score" = true →
   Forall Spec.numeric_score (rows df) →
   let hot := Vocab.category_count "Hot Lead" (rows df) in
   let warm := Vocab.category_count "Warm Lead" (rows df) in
   Workflows.generate_recommended_workflows df
   = Ok ((if (0 <? hot)%nat then [Workflows.hot_workflow hot] else [])
         ++ (if (0 <? warm)%nat then [Workflows.warm_workflow warm] else []))%list
   ∧ (hot + warm <= length (rows df))%nat).
Proof.
  unfold Workflows.generate_recommended_workflows, column. split.
  - by intros ->.
  - intros -> Hall. simpl.
    assert (∀ q, Forall (fun row => series_ge (row_get row "lead_score" VNaN) q
                                    = Ok (Spec.at_least q row)) (rows df)) as Hge.
    { intros q. eapply Forall_impl; [exact Hall |].
      intros row [[x Hx] | Hn]; unfold Spec.at_least, Spec.score_of, sort_key, row_get.
      - by rewrite Hx.
      - by rewrite Hn. }
    assert (Forall (fun row => series_lt (row_get row "lead_score" VNaN) 0.8
                               = Ok (match Spec.score_of row with
                                     | Some x => negb (Qle_bool 0.8 x)
                                     | None => false
                                     end)) (rows df)) as Hlt.
    { eapply Forall_impl; [exact Hall |].
      intros row [[x Hx] | Hn]; unfold Spec.score_of, sort_key, row_get.
      - by rewrite Hx.
      - by rewrite Hn. }
    rewrite (traverse_map _ _ _ _ (Hge 0.8)). simpl.
    rewrite (traverse_map _ _ _ _ (Hge 0.6)). simpl.
    rewrite (traverse_map _ _ _ _ Hlt). simpl.
    rewrite count_true_map, count_true_and.
    unfold Vocab.category_count.
    rewrite (filter_ext_length (Vocab.in_category "Hot Lead") (Spec.at_least 0.8))
      by apply in_category_hot.
    rewrite (filter_ext_length (Vocab.in_category "Warm Lead")
               (fun x => Spec.at_least 0.6 x
                         && match Spec.score_of x with
                            | Some x0 => negb (Qle_bool 0.8 x0)
                            | None => false
                            end)).
    2:{ intros row. rewrite in_category_warm. unfold Spec.at_least.
        by destruct (Spec.score_of row). }
    split.
    + by destruct (0 <? _)%nat, (0 <? _)%nat.
    + apply disjoint_filters_length. intros row.
      unfold Spec.at_least. destruct (Spec.score_of row) as [x|]; [| reflexivity].
      destruct (Qle_bool 0.8 x), (Qle_bool 0.6 x); reflexivity.
Qed.

Lemma workflows_follow_categories_witness :
  Workflows.generate_recommended_workflows Examples.scored_leads
  = Ok [Workflows.hot_workflow 1; Workflows.warm_workflow 1].
Proof.
  destruct (workflows_follow_categories Examples.scored_leads) as [_ H].
  destruct H as [-> _]; [reflexivity | | reflexivity].
  repeat (apply List.Forall_cons; [left; by eexists |]). apply List.Forall_nil.
Defined.

(** ** Task slots *)

Lemma at_least_upward (q : Q) (a b : gmap string value) :
  key_ge Spec.score_of a b → Spec.at_least q b = true → Spec.at_least q a = true.
Proof.
  unfold key_ge, Spec.at_least, before.
  destruct (Spec.score_of b) as [y|]; [| done].
  destruct (Spec.score_of a) as [x|]; [| done].
  unfold Qgtb. rewrite negb_false_iff, !Qle_bool_iff. lra.
Qed.

Lemma filter_none {A} (p : A → bool) (l : list A) :
  Forall (fun b => p b = false) l → List.filter p l = [].
Proof.
  induction 1 as [|b l Hb _ IH]; simpl; [done |]. by rewrite Hb.
Qed.

Lemma filter_take_sorted {A} (R : A → A → Prop) (p : A → bool) (l : list A) :
  (∀ a b, R a b → p b = true → p a = true) →
  StronglySorted R l →
  ∀ k, List.filter p (take k l) = take k (List.filter p l).
Proof.
  intros Hup. induction 1 as [|a l Hs IH Ha]; intros k.
  - by destruct k.
  - destruct k as [|k]; [done |]. simpl. destruct (p a) eqn:E.
    + simpl. by rewrite IH.
    + assert (Forall (fun b => p b = false) l) as Hnone.
      { eapply Forall_impl; [exact Ha |]. intros b Hab.
        destruct (p b) eqn:Eb; [| done]. rewrite (Hup a b Hab Eb) in E. done. }
      rewrite (filter_none p l Hnone).
      rewrite (filter_none p (take k l)) by by apply Forall_take.
      by destruct k.
Qed.

Lemma filter_split_sorted {A} (R : A → A → Prop) (p q : A → bool) (l : list A) :
  (∀ a b, R a b → q b = true → q a = true) →
  (∀ a, q a = true → p a = true) →
  StronglySorted R l →
  List.filter p l
  = (List.filter q l ++ List.filter (fun a => p a && negb (q a)) l)%list.
Proof.
  intros Hup Hqp. induction 1 as [|a l Hs IH Ha]; [done |]. simpl.
  destruct (q a) eqn:Eq.
  - rewrite (Hqp a Eq). simpl. by rewrite IH.
  - assert (Forall (fun b => q b = false) l) as Hnone.
    { eapply Forall_impl; [exact Ha |]. intros b Hab.
      destruct (q b) eqn:Eb; [| done]. rewrite (Hup a b Hab Eb) in Eq. done. }
    rewrite IH, (filter_none q l Hnone), andb_true_r. simpl.
    by destruct (p a).
Qed.

Lemma filter_length_perm {A} (p : A → bool) (l l' : list A) :
  Permutation l l' → length (List.filter p l) = length (List.filter p l').
Proof.
  induction 1 as [|x l l' _ IH|x y l|l l' l'' _ IH1 _ IH2]; simpl.
  - done.
  - destruct (p x); simpl; by rewrite IH.
  - by destruct (p x), (p y).
  - by rewrite IH1.
Qed.

Lemma task_for_hot (rt : Runtime) (leads : list (gmap string value))
    (ts : list HubSpotFormatter.Task) :
  Forall (fun r => Spec.at_least 0.8 r = true) leads →
  Forall2 (Spec.task_for rt) leads ts →
  Forall (fun t => HubSpotFormatter.priority t = "High" ∧
                   HubSpotFormatter.due_date t = "1 day" ∧
                   HubSpotFormatter.task_type t = "call") ts.
Proof.
  intros Hall H. induction H as [|r t rs ts (q & Hq & Hh & _) _ IH]; [constructor |].
  apply Forall_cons in Hall as [Hr Hall]. constructor; [| by apply IH].
  unfold Spec.at_least in Hr. rewrite Hq in Hr. apply Qle_bool_iff in Hr.
  by destruct (Hh Hr) as (_ & _ & ? & ? & ?).
Qed.

Lemma task_for_warm (rt : Runtime) (leads : list (gmap string value))
    (ts : list HubSpotFormatter.Task) :
  Forall (fun r => Spec.at_least 0.8 r = false) leads →
  Forall2 (Spec.task_for rt) leads ts →
  Forall (fun t => HubSpotFormatter.priority t = "Medium" ∧
                   HubSpotFormatter.due_date t = "3 days" ∧
                   HubSpotFormatter.task_type t = "research") ts.
Proof.
  intros Hall H. induction H as [|r t rs ts (q & Hq & _ & Hw) _ IH]; [constructor |].
  apply Forall_cons in Hall as [Hr Hall]. constructor; [| by apply IH].
  unfold Spec.at_least in Hr. rewrite Hq in Hr. apply Qle_bool_false in Hr.
  by destruct (Hw Hr) as (_ & _ & ? & ? & ?).
Qed.

Lemma Forall_filter_true {A} (p : A → bool) (l : list A) :
  Forall (fun a => p a = true) (List.filter p l).
Proof.
  induction l as [|a l IH]; simpl; [constructor |].
  destruct (p a) eqn:E; [by constructor | done].
Qed.

(** X12: on a scored table the hot leads take the ten task slots first.
    With [hot] leads of score at least 0.8 and [warm] leads of score from
    0.6 up to 0.8 in the table, [create_sales_tasks] returns [min 10 hot]
    high-priority call tasks followed by [min (10 - hot) warm]
    medium-priority research tasks, and nothing else. *)
Theorem sales_tasks_slots (rt : Runtime) (df : DataFrame) :
  has_column df "lead_score" = true →
  Forall Spec.numeric_score (rows df) →
  let hot := Vocab.category_count "Hot Lead" (rows df) in
  let warm := Vocab.category_count "Warm Lead" (rows df) in
  ∃ urgent research,
    HubSpotFormatter.create_sales_tasks rt df = Ok (urgent ++ research)%list ∧
    length urgent = Nat.min 10 hot ∧
    length research = Nat.min (10 - hot) warm ∧
    Forall (fun t => HubSpotFormatter.priority t = "High" ∧
                     HubSpotFormatter.due_date t = "1 day" ∧
                     HubSpotFormatter.task_type t = "call") urgent ∧
    Forall (fun t => HubSpotFormatter.priority t = "Medium" ∧
                     HubSpotFormatter.due_date t = "3 days" ∧
                     HubSpotFormatter.task_type t = "research") research.
Proof.
  intros Hc Hall hot warm.
  unfold HubSpotFormatter.create_sales_tasks.
  rewrite (nlargest_scored _ _ Hc Hall). unfold mbind, result_bind. cbn beta iota.
  set (sorted := sort_desc Spec.score_of (rows df)).
  assert (Permutation sorted (rows df)) as Hperm by apply sort_desc_perm.
  assert (StronglySorted (key_ge Spec.score_of) sorted) as Hsorted
    by apply sort_desc_sorted.
  destruct (tasks_loop_filter rt (take 10 sorted) []) as (ts & -> & Hfor).
  { apply Forall_take. eapply Permutation_Forall; [| exact Hall]. by symmetry. }
  rewrite (filter_take_sorted _ _ _ (at_least_upward 0.6) Hsorted) in Hfor.
  rewrite (filter_split_sorted (key_ge Spec.score_of) (Spec.at_least 0.6)
             (Spec.at_least 0.8) sorted (at_least_upward 0.8)) in Hfor;
    [| | done].
  2:{ intros a. unfold Spec.at_least. destruct (Spec.score_of a) as [x|]; [| done].
      rewrite !Qle_bool_iff. lra. }
  rewrite take_app in Hfor.
  apply Forall2_app_inv_l in Hfor as (urgent & research & Hu & Hr & ->).
  assert (length (List.filter (Spec.at_least 0.8) sorted) = hot) as Hhot.
  { rewrite (filter_length_perm _ _ _ Hperm). unfold hot, Vocab.category_count.
    symmetry. apply filter_ext_length, in_category_hot. }
  assert (length (List.filter
                    (fun a => Spec.at_least 0.6 a && negb (Spec.at_least 0.8 a))
                    sorted) = warm) as Hwarm.
  { rewrite (filter_length_perm _ _ _ Hperm). unfold warm, Vocab.category_count.
    symmetry. apply filter_ext_length, in_category_warm. }
  exists urgent, research. split; [done |].
  split; [| split; [| split]].
  - apply Forall2_length in Hu. rewrite <- Hu, length_take, Hhot. lia.
  - apply Forall2_length in Hr. rewrite <- Hr, length_take, Hhot, Hwarm. lia.
  - eapply task_for_hot; [| exact Hu]. apply Forall_take, Forall_filter_true.
  - eapply task_for_warm; [| exact Hr]. apply Forall_take.
    eapply Forall_impl; [apply Forall_filter_true |].
    intros a Ha. simpl in Ha. apply andb_true_iff in Ha as [_ Ha].
    by apply negb_true_iff in Ha.
Qed.

Lemma sales_tasks_slots_witness :
  ∃ urgent research,
    HubSpotFormatter.create_sales_tasks Examples.plain_runtime Examples.scored_leads
    = Ok (urgent ++ research)%list ∧
    length urgent = 1%nat ∧ length research = 1%nat ∧
    Forall (fun t => HubSpotFormatter.priority t = "High" ∧
                     HubSpotFormatter.due_date t = "1 day" ∧
                     HubSpotFormatter.task_type t = "call") urgent ∧
    Forall (fun t => HubSpotFormatter.priority t = "Medium" ∧
                     HubSpotFormatter.due_date t = "3 days" ∧
                     HubSpotFormatter.task_type t = "research") research.
Proof.
  apply (sales_tasks_slots Examples.plain_runtime Examples.scored_leads);
    [reflexivity |].
  repeat (apply List.Forall_cons; [left; by eexists |]). apply List.Forall_nil.
Defined.

(** ** Names *)

Lemma split_zero sep (s : string) : Str.split sep (Some 0%nat) s = [s].
Proof.
  induction s as [|c s IH]; simpl; [done |].
  rewrite andb_false_r. by rewrite IH.
Qed.

Lemma split_once sep (s : string) :
  if Spec.has_char sep s
  then ∃ f l, Str.split sep (Some 1%nat) s = [f; l] ∧
              s = f +:+ String sep l ∧ Spec.has_char sep f = false
  else Str.split sep (Some 1%nat) s = [s].
Proof.
  induction s as [|c s IH]; [done |].
  cbn [Spec.has_char Str.split]. rewrite andb_true_r.
  destruct (Ascii.eqb c sep) eqn:E.
  - apply Ascii.eqb_eq in E as ->. cbn [orb fmap option_fmap option_map Nat.pred].
    rewrite split_zero. by exists "", s.
  - cbn [orb]. destruct (Spec.has_char sep s).
    + destruct IH as (f & l & -> & -> & Hf). exists (String c f), l.
      split; [done |]. split; [by rewrite append_cons |]. simpl. by rewrite E, Hf.
    + by rewrite IH.
Qed.

(** X13: [_parse_name] cuts the stripped name at its first space.  For a
    name other than the sentinel, the first name holds no space; a stripped
    name without a space is the first name, with an empty last name; any
    other stripped name is the first name, one space, and the last name. *)
Theorem parse_name_recomposes (rt : Runtime) (s : string) :
  s ≠ "N/A" →
  ∃ f l,
    HubSpotFormatter._parse_name rt (VStr s) = (f, l) ∧
    Spec.has_char " " f = false ∧
    if Spec.has_char " " (Str.strip s)
    then Str.strip s = f +:+ " " +:+ l
    else f = Str.strip s ∧ l = "".
Proof.
  intros Hna. unfold HubSpotFormatter._parse_name. simpl.
  apply String.eqb_neq in Hna. rewrite Hna.
  pose proof (split_once " " (Str.strip s)) as H.
  destruct (Spec.has_char " " (Str.strip s)) eqn:E.
  - destruct H as (f & l & -> & Hs & Hf). exists f, l.
    split; [reflexivity |]. split; [exact Hf | exact Hs].
  - rewrite H. exists (Str.strip s), "". by simpl.
Qed.

Lemma parse_name_recomposes_witness :
  ∃ f l,
    HubSpotFormatter._parse_name Examples.plain_runtime (VStr " Ada King Lovelace ")
    = (f, l) ∧
    Spec.has_char " " f = false ∧
    Str.strip " Ada King Lovelace " = f +:+ " " +:+ l.
Proof.
  apply (parse_name_recomposes Examples.plain_runtime " Ada King Lovelace ").
  discriminate.
Defined.

(** ** The life cycle of the scorer *)

Lemma bind_Ok_inv {A B} (m : result A) (k : A → result B) (b : B) :
  m ≫= k = Ok b → ∃ a, m = Ok a ∧ k a = Ok b.
Proof. destruct m as [a|e]; [by exists a | done]. Qed.

Lemma label_of_row_bit (row : gmap string value) (n : Float.float)
    (l : nat) :
  LeadScorer.label_of_row row n = Ok l → (l <= 1)%nat.
Proof.
  unfold LeadScorer.label_of_row. intros H.
  repeat (apply bind_Ok_inv in H as (? & _ & H)).
  injection H as <-. destruct (Float.gt _ _); lia.
Qed.

Lemma labels_loop_bits (rs : list (gmap string value)) (noise : nat → Float.float) :
  ∀ k acc ls,
  LeadScorer.labels_loop rs noise k acc = Ok ls →
  length ls = (length acc + length rs)%nat ∧
  (list_sum ls <= list_sum acc + length rs)%nat.
Proof.
  induction rs as [|r rs IH]; intros k acc ls; simpl.
  - intros [= <-]. lia.
  - intros H. apply bind_Ok_inv in H as (l & Hl & H).
    apply label_of_row_bit in Hl. apply IH in H as [H1 H2].
    rewrite length_app in H1. rewrite list_sum_app in H2. simpl in *. lia.
Qed.

(** X14: what a successful [train] guarantees.  The scorer is marked
    trained and holds a fitted scaler and a fitted classifier; the table had
    at least one row and the five feature columns; the report counts every
    row of the table as a sample, and no more positive leads than
    samples. *)
Theorem train_report (lib : Library) (self self' : LeadScorer.LeadScorer lib)
    (df : DataFrame) (noise : nat → Float.float) (res : LeadScorer.TrainResult) :
  LeadScorer.train lib self df noise = (Ok res, self') →
  LeadScorer.is_trained self' = true ∧
  is_Some (LeadScorer.scaler self') ∧ is_Some (LeadScorer.model self') ∧
  rows df ≠ [] ∧
  (∀ c, c ∈ LeadScorer.feature_columns → c ∈ columns df) ∧
  LeadScorer.total_samples res = length (rows df) ∧
  (LeadScorer.positive_leads res <= LeadScorer.total_samples res)%nat.
Proof.
  intros H. apply train_Ok in H
    as (X & y & X_train & X_test & y_train & y_test & X_train' &
        HX & Hy & Hsplit & Hcheck & -> & Htotal & Hpos).
  split; [done |]. split; [by eexists |]. split; [by eexists |].
  unfold values_of in HX.
  destruct (first_missing df LeadScorer.feature_columns) eqn:Em; [done |].
  injection HX as <-.
  split; [| split; [by apply first_missing_None | split; [done |]]].
  - intros Hnil. unfold LeadScorer.train_test_split in Hsplit.
    rewrite Hnil in Hsplit. done.
  - rewrite Htotal, Hpos. unfold LeadScorer.create_training_labels in Hy.
    apply labels_loop_bits in Hy as [_ Hy]. simpl in Hy. lia.
Qed.

Lemma train_report_witness :
  let run := LeadScorer.train Examples.uniform_lib
               (LeadScorer.init Examples.uniform_lib)
               Examples.mixed_leads Examples.quiet in
  LeadScorer.is_trained (snd run) = true ∧
  is_Some (LeadScorer.scaler (snd run)) ∧ is_Some (LeadScorer.model (snd run)) ∧
  rows Examples.mixed_leads ≠ [] ∧
  (∀ c, c ∈ LeadScorer.feature_columns → c ∈ columns Examples.mixed_leads) ∧
  LeadScorer.total_samples
    {| LeadScorer.train_accuracy := 1; LeadScorer.test_accuracy := 1;
       LeadScorer.total_samples := 3; LeadScorer.positive_leads := 1 |}
  = length (rows Examples.mixed_leads) ∧
  (1 <= 3)%nat.
Proof.
  apply (train_report Examples.uniform_lib (LeadScorer.init Examples.uniform_lib)
           _ Examples.mixed_leads Examples.quiet
           {| LeadScorer.train_accuracy := 1; LeadScorer.test_accuracy := 1;
              LeadScorer.total_samples := 3; LeadScorer.positive_leads := 1 |}).
  reflexivity.
Defined.



Lemma uniform_lib_probabilities : Spec.probabilities Examples.uniform_lib.
Proof.
  intros f x. simpl. apply Forall_forall. intros q Hq.
  apply list_elem_of_fmap in Hq as (c & -> & Hc).
  destruct f as [|c' f]; [by apply elem_of_nil in Hc |].
  assert (1 <= inject_Z (Z.of_nat (length (c' :: f)))) as Hlen.
  { unfold inject_Z, Qle. cbn [Qnum Qden length]. lia. }
  set (n := inject_Z _) in *. split.
  - apply Qle_shift_div_l; lra.
  - apply Qle_shift_div_r; lra.
Qed.

(** X16: scoring after a successful training.  If [train] succeeded and
    the fitted classifier reports two classes, then on every feature table
    with at least one row [predict_scores] returns one score per row, each
    between 0 and 1: the classifier's probability of the positive class for
    the scaled features of that row. *)
Theorem train_then_predict (lib : Library) (self self' : LeadScorer.LeadScorer lib)
    (df df' : DataFrame) (noise : nat → Float.float) (res : LeadScorer.TrainResult) :
  Spec.probabilities lib →
  LeadScorer.train lib self df noise = (Ok res, self') →
  (∀ f x, LeadScorer.model self' = Some f → length (proba_row lib f x) = 2%nat) →
  rows df' ≠ [] → Forall Spec.is_feature_row (rows df') →
  (∀ c, c ∈ LeadScorer.feature_columns → c ∈ columns df') →
  ∃ sc f scores,
    LeadScorer.scaler self' = Some sc ∧ LeadScorer.model self' = Some f ∧
    LeadScorer.predict_scores lib self' df' = Ok scores ∧
    length scores = length (rows df') ∧
    Forall Vocab.unit_interval scores ∧
    ∀ j row e p t d i,
      rows df' !! j = Some row → Spec.feature_row row e p t d i →
      ∃ x, scores !! j = Some x ∧
           proba_row lib f (scale_row lib sc [e; p; t; d; i]) !! 1%nat = Some x.
Proof.
  intros Hprob Htrain Hwidth Hne Hrows Hcols.
  apply train_Ok in Htrain
    as (X & y & X_train & X_test & y_train & y_test & X_train' &
        _ & _ & _ & _ & -> & _ & _).
  set (sc := scaler_fit lib X_train') in *.
  set (f := forest_fit lib (map (scale_row lib sc) X_train') y_train) in *.
  destruct (predict_scores_binary lib
              {| LeadScorer.scaler := Some sc; LeadScorer.model := Some f;
                 LeadScorer.is_trained := true |} sc f df'
              eq_refl eq_refl eq_refl
              (fun x => Hwidth f x eq_refl) Hprob Hne Hrows Hcols)
    as (scores & Hs & Hlen & Hunit & Hj).
  exists sc, f, scores. by repeat split.
Qed.

Lemma train_then_predict_witness :
  ∃ sc f scores,
    LeadScorer.scaler
      (snd (LeadScorer.train Examples.uniform_lib
              (LeadScorer.init Examples.uniform_lib)
              Samples.balanced_leads Examples.quiet)) = Some sc ∧
    LeadScorer.model
      (snd (LeadScorer.train Examples.uniform_lib
              (LeadScorer.init Examples.uniform_lib)
              Samples.balanced_leads Examples.quiet)) = Some f ∧
    LeadScorer.predict_scores Examples.uniform_lib
      (snd (LeadScorer.train Examples.uniform_lib
              (LeadScorer.init Examples.uniform_lib)
              Samples.balanced_leads Examples.quiet)) Examples.mixed_leads
    = Ok scores ∧
    length scores = 3%nat ∧
    Forall Vocab.unit_interval scores ∧
    ∀ j row e p t d i,
      rows Examples.mixed_leads !! j = Some row → Spec.feature_row row e p t d i →
      ∃ x, scores !! j = Some x ∧
           proba_row Examples.uniform_lib f
             (scale_row Examples.uniform_lib sc [e; p; t; d; i]) !! 1%nat = Some x.
Proof.
  apply (train_then_predict Examples.uniform_lib
           (LeadScorer.init Examples.uniform_lib) _
           Samples.balanced_leads Examples.mixed_leads Examples.quiet
           {| LeadScorer.train_accuracy := 1; LeadScorer.test_accuracy := 1;
              LeadScorer.total_samples := 3; LeadScorer.positive_leads := 1 |}).
  - exact uniform_lib_probabilities.
  - vm_compute. reflexivity.
  - intros f x Hf. vm_compute in Hf. injection Hf as <-. reflexivity.
  - discriminate.
  - repeat (apply List.Forall_cons;
            [do 5 eexists; apply features_feature_row |]).
    apply List.Forall_nil.
  - intros c Hc. exact Hc.
Defined.

(** ** The training labels are monotone *)

Lemma threshold_passes (c x x' : Q) :
  x <= x' → Qle_bool c x = true → Qle_bool c x' = true.
Proof. rewrite !Qle_bool_iff. lra. Qed.

Lemma float_sum_le (c1 c2 c3 c4 c1' c2' c3' c4' : bool) :
  (c1 = true → c1' = true) → (c2 = true → c2' = true) →
  (c3 = true → c3' = true) → (c4 = true → c4' = true) →
  ∃ x y,
    Spec.float_sum (Spec.bonus c1 0.4 ++ Spec.bonus c2 0.3
                    ++ Spec.bonus c3 0.2 ++ Spec.bonus c4 0.1)
    = Float.Finite x ∧
    Spec.float_sum (Spec.bonus c1' 0.4 ++ Spec.bonus c2' 0.3
                    ++ Spec.bonus c3' 0.2 ++ Spec.bonus c4' 0.1)
    = Float.Finite y ∧
    x <= y.
Proof.
  intros H1 H2 H3 H4.
  destruct c1, c1'; try (by specialize (H1 eq_refl));
  destruct c2, c2'; try (by specialize (H2 eq_refl));
  destruct c3, c3'; try (by specialize (H3 eq_refl));
  destruct c4, c4'; try (by specialize (H4 eq_refl));
  (eexists _, _; split; [vm_compute; reflexivity |];
   split; [vm_compute; reflexivity |];
   apply Qle_bool_iff; vm_compute; reflexivity).
Qed.

Lemma threshold_literal : ∃ k, Float.lit 0.6 = Float.Finite k.
Proof. eexists. vm_compute. reflexivity. Qed.

(** X17: the synthesized label is monotone in the features.  For the same
    noise draw, a row that is at least as good in each of the five features
    is labelled 1 whenever the other row is. *)
Theorem label_monotone (row row' : gmap string value)
    (e p t d i e' p' t' d' i' : Q) (n : Float.float) :
  Spec.feature_row row e p t d i → Spec.feature_row row' e' p' t' d' i' →
  e <= e' → p <= p' → t <= t' → d <= d' → i <= i' →
  ∃ l l', LeadScorer.label_of_row row n = Ok l ∧
          LeadScorer.label_of_row row' n = Ok l' ∧ (l <= l')%nat.
Proof.
  intros Hr Hr' He Hp Ht Hd Hi.
  destruct (label_of_row_rule row e p t d i n Hr) as (l & Hl & Hl1 & Hl01).
  destruct (label_of_row_rule row' e' p' t' d' i' n Hr') as (l' & Hl' & Hl1' & Hl01').
  exists l, l'. split; [done |]. split; [done |].
  destruct Hl01 as [-> | ->]; [lia |].
  assert (l' = 1%nat) as ->; [| lia].
  apply Hl1'. destruct Hl1 as [Hl1 _]. specialize (Hl1 eq_refl).
  unfold Spec.float_rule, Spec.bonuses in *.
  destruct (float_sum_le
              (Qle_bool 0.8 e && Qle_bool 0.8 t) (Qle_bool 0.75 d)
              (Qle_bool 0.9 i) (Qle_bool 0.8 p)
              (Qle_bool 0.8 e' && Qle_bool 0.8 t') (Qle_bool 0.75 d')
              (Qle_bool 0.9 i') (Qle_bool 0.8 p'))
    as (x & y & Ex & Ey & Hxy).
  - rewrite !andb_true_iff. intros [H1 H2].
    split; eapply threshold_passes; [| exact H1 | | exact H2]; done.
  - by apply threshold_passes.
  - by apply threshold_passes.
  - by apply threshold_passes.
  - rewrite Ex in Hl1. rewrite Ey. destruct threshold_literal as [k Hk].
    rewrite Hk in *.
    destruct (add_mono x y n Hxy) as [E | Hle]; [by rewrite <- E |].
    by eapply clip_gt_mono.
Qed.

Lemma label_monotone_witness :
  ∃ l l',
    LeadScorer.label_of_row (Examples.features 1 0 1 0.5 0.7) (Float.lit 0.05)
    = Ok l ∧
    LeadScorer.label_of_row (Examples.features 1 1 1 1 0.7) (Float.lit 0.05)
    = Ok l' ∧
    (l <= l')%nat.
Proof.
  apply (label_monotone _ _ 1 0 1 0.5 0.7 1 1 1 1 0.7 (Float.lit 0.05));
    [apply features_feature_row | apply features_feature_row | lra ..].
Defined.

(** ** Feature importance *)

Lemma dict_set_fresh (d : list (string * Q)) (k : string) (v : Q) :
  k ∉ d.*1 → Insights.dict_set d k v = (d ++ [(k, v)])%list.
Proof.
  induction d as [|[k' v'] d IH]; simpl; [done |].
  intros Hk. apply not_elem_of_cons in Hk as [Hne Hk].
  destruct (String.eqb k' k) eqn:E.
  - apply String.eqb_eq in E. congruence.
  - by rewrite IH.
Qed.

Lemma importance_loop_zip (round3 : Q → Q) (ks : list string) :
  ∀ (vs : list Q) (acc : list (string * Q)),
  NoDup (acc.*1 ++ ks)%list →
  Insights.importance_loop round3 (zip ks vs) acc
  = (acc ++ zip ks (round3 <$> vs))%list.
Proof.
  induction ks as [|k ks IH]; intros vs acc Hnd; simpl.
  - by rewrite app_nil_r.
  - destruct vs as [|v vs]; simpl; [by rewrite app_nil_r |].
    apply NoDup_app in Hnd as (Hacc & Hdisj & Hks).
    apply NoDup_cons in Hks as [Hk Hks].
    rewrite dict_set_fresh.
    2:{ intros Hin. apply (Hdisj k Hin). by left. }
    rewrite IH, <- app_assoc; [done |].
    rewrite fmap_app. simpl. apply NoDup_app. split; [| split; [| done]].
    + apply NoDup_app. split; [done |]. split; [| apply NoDup_singleton].
      intros x Hx ->%list_elem_of_singleton. apply (Hdisj k Hx). by left.
    + intros x [Hx | ->%list_elem_of_singleton]%elem_of_app Hin.
      * apply (Hdisj x Hx). by right.
      * done.
Qed.

Lemma dict_of_fold (l : list (string * Q)) : ∀ acc,
  NoDup (acc.*1 ++ l.*1)%list →
  fold_left (fun d kv => Insights.dict_set d (fst kv) (snd kv)) l acc
  = (acc ++ l)%list.
Proof.
  induction l as [|[k v] l IH]; intros acc Hnd; simpl.
  - by rewrite app_nil_r.
  - simpl in Hnd. apply NoDup_app in Hnd as (Hacc & Hdisj & Hl).
    apply NoDup_cons in Hl as [Hk Hl].
    rewrite dict_set_fresh.
    2:{ intros Hin. apply (Hdisj k Hin). by left. }
    rewrite IH, <- app_assoc; [done |].
    rewrite fmap_app. simpl. apply NoDup_app. split; [| split; [| done]].
    + apply NoDup_app. split; [done |]. split; [| apply NoDup_singleton].
      intros x Hx ->%list_elem_of_singleton. apply (Hdisj k Hx). by left.
    + intros x [Hx | ->%list_elem_of_singleton]%elem_of_app Hin.
      * apply (Hdisj x Hx). by right.
      * done.
Qed.

Lemma zip_keys_NoDup {B} (ks : list string) : ∀ vs : list B,
  NoDup ks → NoDup (zip ks vs).*1.
Proof.
  induction ks as [|k ks IH]; intros vs Hnd; simpl; [constructor |].
  destruct vs as [|v vs]; simpl; [constructor |].
  apply NoDup_cons in Hnd as [Hk Hnd]. apply NoDup_cons. split; [| by apply IH].
  intros Hin. apply Hk. apply list_elem_of_fmap in Hin as ([k' v'] & -> & Hin).
  simpl. by apply elem_of_zip_l in Hin.
Qed.

Lemma sorted_by_value_ranked (d : list (string * Q)) :
  StronglySorted (fun a b => snd b <= snd a) (Insights.sorted_by_value d).
Proof.
  unfold Insights.sorted_by_value.
  pose proof (sort_desc_sorted (fun x : string * Q => Some (snd x)) d) as H.
  induction H as [|a l _ IH Ha]; constructor; [done |].
  eapply Forall_impl; [exact Ha |]. intros b Hb.
  unfold key_ge, before, Qgtb in Hb. apply negb_false_iff in Hb.
  by apply Qle_bool_iff in Hb.
Qed.

(** X18: [get_feature_importance] of a scorer that is not trained is the
    empty dictionary.  Of a trained scorer it is the feature names paired
    with their rounded importances, each name once, ordered from the
    largest value to the smallest. *)
Theorem feature_importance_ranked (lib : Library)
    (feature_importances_ : Forest lib → list Q) (round3 : Q → Q)
    (self : LeadScorer.LeadScorer lib) :
  (LeadScorer.is_trained self = false →
   Insights.get_feature_importance lib feature_importances_ round3 self = Ok []) ∧
  (∀ f, LeadScorer.is_trained self = true → LeadScorer.model self = Some f →
     ∃ ranking,
       Insights.get_feature_importance lib feature_importances_ round3 self
       = Ok ranking ∧
       Permutation ranking
         (zip LeadScorer.feature_columns (round3 <$> feature_importances_ f)) ∧
       NoDup ranking.*1 ∧
       StronglySorted (fun a b => snd b <= snd a) ranking).
Proof.
  unfold Insights.get_feature_importance. split.
  - by intros ->.
  - intros f -> ->. change (negb true) with false. cbv iota beta zeta.
    rewrite (importance_loop_zip round3)
      by (by apply (bool_decide_unpack (NoDup LeadScorer.feature_columns))).
    rewrite app_nil_l.
    set (d := zip _ _).
    assert (NoDup d.*1) as Hd.
    { apply zip_keys_NoDup.
      by apply (bool_decide_unpack (NoDup LeadScorer.feature_columns)). }
    assert (Permutation (Insights.sorted_by_value d) d) as Hperm
      by apply sort_desc_perm.
    assert (NoDup (Insights.sorted_by_value d).*1) as Hs.
    { by rewrite Hperm. }
    unfold Insights.dict_of. rewrite dict_of_fold by done. rewrite app_nil_l.
    eexists. split; [reflexivity |]. split; [done |]. split; [done |].
    apply sorted_by_value_ranked.
Qed.

Lemma feature_importance_ranked_witness :
  ∃ ranking,
    Insights.get_feature_importance Examples.uniform_lib Samples.importances
      (fun q => q) Samples.trained_scorer
    = Ok ranking ∧
    Permutation ranking
      (zip LeadScorer.feature_columns [0.1; 0.3; 0.2; 0.3; 0.1]) ∧
    NoDup ranking.*1 ∧
    StronglySorted (fun a b => snd b <= snd a) ranking.
Proof.
  destruct (feature_importance_ranked Examples.uniform_lib Samples.importances
              (fun q => q) Samples.trained_scorer) as [_ H].
  apply (H [0%nat; 1%nat]); reflexivity.
Defined.

(** ** From the loaded table to the scored table *)

Lemma column_1_inv (P : list (list Q)) : ∀ scores,
  column_1 P = Ok scores → Forall2 (fun p x => p !! 1%nat = Some x) P scores.
Proof.
  induction P as [|p P IH]; intros scores; simpl.
  - intros [= <-]. constructor.
  - destruct (p !! 1%nat) as [x|] eqn:E; [| done].
    intros H. apply bind_Ok_inv in H as (xs & Hxs & [= <-]).
    constructor; [done | by apply IH].
Qed.

Lemma predict_scores_Ok (lib : Library) (self : LeadScorer.LeadScorer lib)
    (df : DataFrame) (scores : list Q) :
  Spec.probabilities lib →
  LeadScorer.predict_scores lib self df = Ok scores →
  length scores = length (rows df) ∧ Forall Vocab.unit_interval scores.
Proof.
  intros Hprob. unfold LeadScorer.predict_scores.
  destruct (negb _); [done |]. intros H.
  apply bind_Ok_inv in H as (X & HX & H).
  apply bind_Ok_inv in H as (X_scaled & Hsc & H).
  apply bind_Ok_inv in H as (P & HP & H).
  apply column_1_inv in H.
  unfold values_of in HX. destruct (first_missing _ _); [done |].
  injection HX as <-.
  unfold LeadScorer.transform in Hsc.
  destruct (LeadScorer.scaler self) as [sc|]; [| done].
  apply bind_Ok_inv in Hsc as (X' & HX' & [= <-]).
  apply check_array_length in HX' as [_ HX'].
  unfold LeadScorer.predict_proba in HP.
  destruct (LeadScorer.model self) as [f|]; [| done].
  injection HP as <-. split.
  - apply Forall2_length in H. rewrite <- H, !length_map, HX'.
    by rewrite length_fmap.
  - apply Forall_forall. intros q Hq.
    apply list_elem_of_lookup in Hq as [j Hj].
    destruct (Forall2_lookup_r _ _ _ _ _ H Hj) as (p & Hp & Hq).
    apply list_elem_of_lookup_2, list_elem_of_fmap in Hp as (x & -> & _).
    pose proof (Hprob f x) as Hall. rewrite Forall_forall in Hall.
    apply Hall. by eapply list_elem_of_lookup_2.
Qed.

Lemma setitem_run (h : gmap ref DataFrame) (r : ref) (cur : DataFrame)
    (key : string) (cells : list value) :
  h !! r = Some cur →
  setitem r key cells h =
  match set_column cur key cells with
  | Ok cur' => (Ok tt, <[r := cur']> h)
  | Raise e => (Raise e, h)
  end.
Proof.
  intros Hr. unfold setitem. rewrite M_bind_run. unfold deref. rewrite Hr.
  rewrite M_bind_run. unfold lift.
  by destruct (set_column cur key cells).
Qed.

Lemma scored_rows (rs : list (gmap string value)) : ∀ scores : list Q,
  length scores = length rs → Forall Vocab.unit_interval scores →
  Forall2 (fun row out => ∃ s, Vocab.unit_interval s ∧
             out = <["category" := VStr (LeadScorer.category_of s)]>
                     (<["lead_score" := VNum s]> row))
    rs
    (zip_with (fun row v => <["category" := v]> row)
       (zip_with (fun row v => <["lead_score" := v]> row) rs (VNum <$> scores))
       (VStr <$> map LeadScorer.category_of scores)).
Proof.
  induction rs as [|row rs IH]; intros [|s scores] Hlen Hall; simpl in *;
    try discriminate.
  - constructor.
  - apply Forall_cons in Hall as [Hs Hall].
    constructor; [by exists s | apply IH; [lia | done]].
Qed.

(** X19: what [load_and_process_data] returns when it succeeds on a table
    of raw lead records.  The loaded table and every other object are left
    as they were; the returned table is a new object with one row per lead,
    each keeping its original cells and carrying the five features in
    [0,1], a [lead_score] in [0,1] and the [category] of that score; the
    returned scorer is trained on as many samples as there are leads. *)
Theorem pipeline_scored_table (lib : Library) (h h' : gmap ref DataFrame)
    (df r : ref) (frame : DataFrame) (noise : nat → Float.float)
    (scorer : LeadScorer.LeadScorer lib) (res : LeadScorer.TrainResult) :
  Spec.probabilities lib →
  h !! df = Some frame → Spec.raw_table frame = true →
  App.load_and_process_data lib df noise h = (Ok (r, scorer, res), h') →
  (r ∉ dom h) ∧
  (∀ r0 fr, h !! r0 = Some fr → h' !! r0 = Some fr) ∧
  LeadScorer.is_trained scorer = true ∧
  LeadScorer.total_samples res = length (rows frame) ∧
  ∃ out,
    h' !! r = Some out ∧
    has_column out "lead_score" = true ∧ has_column out "category" = true ∧
    Forall2 Vocab.keeps_fields (rows frame) (rows out) ∧
    Forall Vocab.bounded_features (rows out) ∧
    Forall Vocab.categorized (rows out) ∧
    Forall Spec.scored_row (rows out).
Proof.
  intros Hprob Hdf Hraw.
  destruct (process_leads_ok h df frame Hdf Hraw) as (f1 & Hf1 & Hrun).
  set (r1 := fresh (dom h)) in *.
  unfold App.load_and_process_data.
  rewrite M_bind_run, Hrun, M_bind_run. unfold deref at 1.
  rewrite lookup_insert_eq.
  destruct (LeadScorer.train lib (LeadScorer.init lib) f1 noise)
    as [[tr|e] sc] eqn:Et; [| done].
  rewrite M_bind_run. unfold lift at 1.
  destruct (LeadScorer.predict_scores lib sc f1) as [scores|e] eqn:Ep; [| done].
  destruct (predict_scores_Ok lib sc f1 scores Hprob Ep) as [Hlen Hunit].
  rewrite M_bind_run.
  rewrite (setitem_run _ r1 f1) by apply lookup_insert_eq.
  destruct (set_column f1 "lead_score" (VNum <$> scores)) as [out1|e] eqn:E1.
  2:{ unfold set_column in E1. rewrite length_fmap, Hlen, Nat.eqb_refl in E1. done. }
  apply set_column_Ok in E1 as [R1 C1].
  rewrite M_bind_run.
  rewrite (setitem_run _ r1 out1) by apply lookup_insert_eq.
  destruct (set_column out1 "category" _) as [out2|e] eqn:E2.
  2:{ unfold set_column in E2.
      rewrite R1, length_fmap, length_zip_with, length_fmap in E2.
      unfold LeadScorer.categorize_leads in E2.
      rewrite categorize_loop_map, app_nil_l, length_map, Hlen in E2.
      rewrite Nat.min_id, Nat.eqb_refl in E2. done. }
  apply set_column_Ok in E2 as [R2 C2].
  unfold mret, M_ret. intros [= Hr Hs Ht Hh]. subst r scorer res h'.
  apply train_Ok in Et
    as (X & y & X_train & X_test & y_train & y_test & X_train' &
        _ & _ & _ & _ & -> & Htotal & _).
  apply featurize_Ok in Hf1 as [Hrows Hcols].
  split; [apply is_fresh |].
  split.
  { intros r0 fr Hr0.
    assert (r0 ≠ r1) as Hne.
    { intros ->. apply (is_fresh (dom h)). apply elem_of_dom. by eexists. }
    by rewrite !lookup_insert_ne. }
  split; [done |].
  split; [rewrite Htotal; symmetry; by eapply Forall2_length |].
  exists out2. split; [apply lookup_insert_eq |].
  split; [apply has_column_elem_of, C2; left; apply C1; by right |].
  split; [apply has_column_elem_of, C2; by right |].
  assert (Forall2 (fun row out => ∃ s, Vocab.unit_interval s ∧
             out = <["category" := VStr (LeadScorer.category_of s)]>
                     (<["lead_score" := VNum s]> row)) (rows f1) (rows out2)) as Hout.
  { rewrite R2, R1. unfold LeadScorer.categorize_leads.
    rewrite categorize_loop_map, app_nil_l. by apply scored_rows. }
  split; [| split; [| split]].
  - apply Forall2_same_length_lookup. split.
    { rewrite (Forall2_length _ _ _ Hrows). by eapply Forall2_length. }
    intros j row out Hrow Hj.
    destruct (Forall2_lookup_r _ _ _ _ _ Hout Hj) as (row1 & Hrow1 & s & _ & ->).
    pose proof (Forall2_lookup_lr _ _ _ _ _ _ Hrows Hrow Hrow1) as Hext.
    intros k Hk. unfold Vocab.added_columns in Hk.
    apply not_elem_of_app in Hk as [Hk1 Hk2].
    rewrite !not_elem_of_cons in Hk2. destruct Hk2 as (? & ? & _).
    rewrite !lookup_insert_ne by done. by apply (extended_lookup_other row row1).
  - apply Forall_forall. intros out Hin.
    apply list_elem_of_lookup in Hin as [j Hj].
    destruct (Forall2_lookup_r _ _ _ _ _ Hout Hj) as (row1 & Hrow1 & s & _ & ->).
    destruct (Forall2_lookup_r _ _ _ _ _ Hrows Hrow1) as (row & _ & Hext).
    destruct (extended_bounded _ _ Hext)
      as (e & p & t & d & i & (F1 & F2 & F3 & F4 & F5) & Hb).
    exists e, p, t, d, i. split; [| done].
    repeat split; by rewrite !lookup_insert_ne.
  - apply Forall_forall. intros out Hin.
    apply list_elem_of_lookup in Hin as [j Hj].
    destruct (Forall2_lookup_r _ _ _ _ _ Hout Hj) as (row1 & Hrow1 & s & Hs & ->).
    exists s. split; [| split; [done |]].
    + by rewrite lookup_insert_ne, lookup_insert_eq.
    + by rewrite lookup_insert_eq.
  - apply Forall_forall. intros out Hin.
    apply list_elem_of_lookup in Hin as [j Hj].
    destruct (Forall2_lookup_r _ _ _ _ _ Hout Hj) as (row1 & Hrow1 & s & Hs & ->).
    destruct (Forall2_lookup_r _ _ _ _ _ Hrows Hrow1) as (row & _ & Hext).
    destruct (extended_bounded _ _ Hext)
      as (e & p & t & d & i & (F1 & F2 & F3 & F4 & F5) & Hb).
    split.
    + exists s. by rewrite lookup_insert_ne, lookup_insert_eq.
    + exists d. by rewrite !lookup_insert_ne.
Qed.

Lemma pipeline_scored_table_witness :
  let h : gmap ref DataFrame := <[0%nat := Samples.ranked_leads]> ∅ in
  ∃ r scorer res h',
    App.load_and_process_data Examples.uniform_lib 0%nat Examples.quiet h
    = (Ok (r, scorer, res), h') ∧
    (r ∉ dom h) ∧
    (∀ r0 fr, h !! r0 = Some fr → h' !! r0 = Some fr) ∧
    LeadScorer.is_trained scorer = true ∧
    LeadScorer.total_samples res = 3%nat ∧
    ∃ out,
      h' !! r = Some out ∧
      has_column out "lead_score" = true ∧ has_column out "category" = true ∧
      Forall2 Vocab.keeps_fields (rows Samples.ranked_leads) (rows out) ∧
      Forall Vocab.bounded_features (rows out) ∧
      Forall Vocab.categorized (rows out) ∧
      Forall Spec.scored_row (rows out).
Proof.
  intros h. eexists _, _, _, _. split; [vm_compute; reflexivity |].
  apply (pipeline_scored_table Examples.uniform_lib h _ 0%nat _
           Samples.ranked_leads Examples.quiet).
  - exact uniform_lib_probabilities.
  - reflexivity.
  - reflexivity.
  - vm_compute. reflexivity.
Defined.

(** ** A score that is not a number *)

Lemma contacts_loop_Raise (rt : Runtime) (rs : list (gmap string value)) :
  ∀ acc e,
  HubSpotFormatter.contacts_loop rt rs acc = Raise e →
  ∃ row, row ∈ rs ∧ HubSpotFormatter._has_contact_info row = true ∧
         HubSpotFormatter._format_contact rt row = Raise e.
Proof.
  induction rs as [|r rs IH]; intros acc e; simpl; [done |].
  destruct (HubSpotFormatter._has_contact_info r) eqn:Hr.
  - destruct (HubSpotFormatter._format_contact rt r) as [c|e'] eqn:E; simpl.
    + intros (row & Hin & H)%IH. exists row. split; [by right | done].
    + intros [= <-]. exists r. split; [by left | done].
  - intros (row & Hin & H)%IH. exists row. split; [by right | done].
Qed.

Lemma contacts_loop_aborts (rt : Runtime) (rs : list (gmap string value)) :
  ∀ acc,
  Exists (fun row => HubSpotFormatter._has_contact_info row = true ∧
                     ∃ e, HubSpotFormatter._format_contact rt row = Raise e) rs →
  ∃ e, HubSpotFormatter.contacts_loop rt rs acc = Raise e.
Proof.
  induction rs as [|r rs IH]; intros acc Hex; [by apply Exists_nil in Hex |].
  simpl. apply Exists_cons in Hex as [(Hr & e & He) | Hex].
  - rewrite Hr, He. by exists e.
  - destruct (HubSpotFormatter._has_contact_info r); [| by apply IH].
    destruct (HubSpotFormatter._format_contact rt r) as [c|e]; simpl;
      [by apply IH | by exists e].
Qed.

Lemma format_contact_nan (rt : Runtime) (row : gmap string value) :
  row !! "lead_score" = Some VNaN →
  HubSpotFormatter._format_contact rt row
  = Raise (ValueError "cannot convert float NaN to integer").
Proof.
  intros H. unfold HubSpotFormatter._format_contact.
  destruct (HubSpotFormatter._parse_name rt _) as [first_name last_name].
  unfold row_get. by rewrite H.
Qed.

(** X20: one lead without a score stops the whole export.  If a row that
    passes the contact filter has NaN as its [lead_score],
    [format_for_hubspot] raises and returns no contact at all; when every
    other row is a scored row, the error is the [ValueError] of rounding
    NaN. *)
Theorem export_aborts_on_nan_score (rt : Runtime) (df : DataFrame)
    (row : gmap string value) :
  row ∈ rows df → HubSpotFormatter._has_contact_info row = true →
  row !! "lead_score" = Some VNaN →
  ∃ e, HubSpotFormatter.format_for_hubspot rt df = Raise e ∧
       (Forall (fun r => Spec.scored_row r ∨ r !! "lead_score" = Some VNaN)
          (rows df) →
        e = ValueError "cannot convert float NaN to integer").
Proof.
  intros Hin Hinfo Hnan. unfold HubSpotFormatter.format_for_hubspot.
  destruct (contacts_loop_aborts rt (rows df) []) as [e He].
  { apply Exists_exists. exists row. split; [done |]. split; [done |].
    eexists. by apply format_contact_nan. }
  exists e. rewrite He. split; [done |]. intros Hall.
  apply contacts_loop_Raise in He as (r & Hr & _ & Hf).
  rewrite Forall_forall in Hall. destruct (Hall r Hr) as [Hs | Hn].
  - destruct (format_contact_total rt r Hs) as [c Hc]. congruence.
  - rewrite (format_contact_nan rt r Hn) in Hf. by injection Hf as <-.
Qed.

Lemma export_aborts_on_nan_score_witness :
  HubSpotFormatter.format_for_hubspot Examples.plain_runtime
    {| columns := columns Examples.scored_leads;
       rows := [Examples.scored Examples.acme 0.9 "Hot Lead";
                <["lead_score" := VNaN]> Examples.nameless] |}
  = Raise (ValueError "cannot convert float NaN to integer").
Proof.
  destruct (export_aborts_on_nan_score Examples.plain_runtime
              {| columns := columns Examples.scored_leads;
                 rows := [Examples.scored Examples.acme 0.9 "Hot Lead";
                          <["lead_score" := VNaN]> Examples.nameless] |}
              (<["lead_score" := VNaN]> Examples.nameless))
    as (e & -> & He).
  - apply elem_of_cons. right. apply elem_of_cons. by left.
  - reflexivity.
  - reflexivity.
  - f_equal. apply He.
    apply List.Forall_cons; [left; split; by eexists |].
    apply List.Forall_cons; [by right | apply List.Forall_nil].
Defined.

(** ** The HubSpot properties of a contact *)

Lemma split_cons sep m (s : string) : ∃ p ps, Str.split sep m s = p :: ps.
Proof.
  revert m. induction s as [|c s IH]; intros m; simpl; [by eexists _, _ |].
  destruct (Ascii.eqb c sep && _); [by eexists _, _ |].
  destruct (IH m) as (p & ps & ->). by eexists _, _.
Qed.

Lemma lookup_set_if (c : bool) (k k' v : string) (m : gmap string string) :
  k ≠ k' → (if c then <[k' := v]> m else m) !! k = m !! k.
Proof. intros H. destruct c; [by rewrite lookup_insert_ne | done]. Qed.

Lemma lookup_set_if_eq (c : bool) (k v : string) (m : gmap string string) :
  (if c then <[k := v]> m else m) !! k = if c then Some v else m !! k.
Proof. destruct c; [by rewrite lookup_insert_eq | done]. Qed.

Lemma lookup_set_elif (a b : bool) (k k' v w : string) (m : gmap string string) :
  k ≠ k' →
  (if a then <[k' := v]> m else if b then <[k' := w]> m else m) !! k = m !! k.
Proof. intros H. destruct a, b; by rewrite ?lookup_insert_ne. Qed.

Lemma lookup_set_elif_eq (a b : bool) (k v w : string) (m : gmap string string) :
  (if a then <[k := v]> m else if b then <[k := w]> m else m) !! k
  = if a then Some v else if b then Some w else m !! k.
Proof. destruct a, b; by rewrite ?lookup_insert_eq. Qed.

Section Properties_of_prepare.

Context (rt : Runtime) (format_0f : Q → string)
  (float_of_str : string → option (option Q)) (dart : string).

Lemma name_fallback_Ok (properties : gmap string string) (name : value) :
  ∃ properties',
    (if negb (HubSpotAPI.truthy_str (properties !! "firstname")) && truthy name
     then
       let name_parts :=
         Str.split " " (Some 1%nat) (HubSpotAPI.str_strip rt name) in
       first ← HubSpotAPI.list_getitem name_parts 0;
       if negb (String.eqb first "") && negb (String.eqb first "N/A")
       then
         let properties := <["firstname" := first]> properties in
         if (1 <? length name_parts)%nat
         then second ← HubSpotAPI.list_getitem name_parts 1;
              Ok (<["lastname" := second]> properties)
         else Ok properties
       else Ok properties
     else Ok properties) = Ok properties' ∧
    ∀ k, k ≠ "firstname" → k ≠ "lastname" → properties' !! k = properties !! k.
Proof.
  destruct (negb _ && truthy name); [| exists properties; split; [reflexivity | done]].
  cbv zeta.
  destruct (split_cons " " (Some 1%nat) (HubSpotAPI.str_strip rt name))
    as (p & ps & ->).
  change (HubSpotAPI.list_getitem (p :: ps) 0) with (Ok p).
  unfold mbind at 1, result_bind at 1. cbv beta iota.
  destruct (negb (String.eqb p "") && negb (String.eqb p "N/A"));
    [| exists properties; split; [reflexivity | done]].
  destruct ps as [|q ps].
  - eexists. split; [reflexivity |]. intros k Hf Hl. by rewrite lookup_insert_ne.
  - eexists. split; [reflexivity |]. intros k Hf Hl. by rewrite !lookup_insert_ne.
Qed.

Lemma prepare_properties (contact_data : gmap string value) :
  let get key := row_get contact_data key VNone in
  let text key := Some (HubSpotAPI.str_strip rt (get key)) in
  let scored :=
    if truthy (get "ai_lead_score")
    then HubSpotAPI.score_note format_0f float_of_str dart
           (get "ai_lead_score") []
    else [] in
  let categorized :=
    if truthy (get "category")
    then (scored
          ++ ["Category: " +:+ HubSpotFormatter.py_str rt (get "category")])%list
    else scored in
  let prioritized :=
    if truthy (get "lead_priority")
    then (categorized
          ++ ["Priority: "
              +:+ HubSpotFormatter.py_str rt (get "lead_priority")])%list
    else categorized in
  ∃ properties,
    HubSpotAPI._prepare_contact_properties rt format_0f float_of_str dart
      contact_data = Ok properties ∧
    properties !! "hs_lead_status" = Some "NEW" ∧
    properties !! "lifecyclestage" = Some "lead" ∧
    properties !! "hs_content_membership_notes"
      = Some (String.concat HubSpotAPI.newline
                ((prioritized ++ ["Enhanced: " +:+ today rt])
                 ++ ["Source: SaaSSquatch + AI Enhancement"])%list) ∧
    properties !! "email"
      = (if truthy (get "email") then text "email" else None) ∧
    properties !! "company"
      = (if HubSpotFormatter.present (get "company") then text "company"
         else None) ∧
    properties !! "website"
      = (if HubSpotFormatter.present (get "website") then text "website"
         else None) ∧
    properties !! "phone"
      = (if HubSpotFormatter.present (get "phone") then text "phone"
         else if HubSpotFormatter.present (get "Contact_Phone")
         then text "Contact_Phone" else None) ∧
    properties !! "jobtitle"
      = (if HubSpotFormatter.present (get "jobtitle") then text "jobtitle"
         else if HubSpotFormatter.present (get "Contact_Title")
         then text "Contact_Title" else None).
Proof.
  intros get text scored categorized prioritized.
  unfold HubSpotAPI._prepare_contact_properties.
  cbv zeta. fold get. fold scored. fold categorized. fold prioritized.
  match goal with
  | |- context [@mbind _ _ _ _ ?k ?m] => set (rest := k); set (branch := m)
  end.
  match goal with
  | _ := context [HubSpotAPI.truthy_str (?P !! "firstname")] |- _ =>
      set (P3 := P) in *;
      destruct (name_fallback_Ok P3 (get "Contact_Name")) as (P' & HP' & Hsame)
  end.
  assert (branch = Ok P') as -> by exact HP'.
  unfold mbind, result_bind. subst rest. cbv beta iota.
  set (L := ((prioritized ++ ["Enhanced: " +:+ today rt])
             ++ ["Source: SaaSSquatch + AI Enhancement"])%list).
  match goal with
  | |- context [<["hs_content_membership_notes" :=
                    String.concat HubSpotAPI.newline ?L0]> _] =>
      change L0 with L
  end.
  destruct L as [|line lines] eqn:EL; [apply app_eq_nil in EL as [_ [=]] |].
  eexists. split; [reflexivity |].
  split; [by rewrite lookup_insert_ne, lookup_insert_eq |].
  split; [by rewrite lookup_insert_eq |].
  split; [do 2 (rewrite lookup_insert_ne by done); by rewrite lookup_insert_eq |].
  subst P3.
  repeat split;
    do 3 (rewrite lookup_insert_ne by done);
    repeat first [ rewrite lookup_set_if by done
                 | rewrite lookup_set_elif by done
                 | rewrite lookup_set_if_eq
                 | rewrite lookup_set_elif_eq
                 | rewrite Hsame by done
                 | rewrite lookup_empty ];
    reflexivity.
Qed.

(** X21: [_prepare_contact_properties] never raises.  Its result always
    carries the lead status "NEW", the lifecycle stage "lead" and the notes;
    it has an e-mail exactly when the contact's [email] is truthy, and a
    company, a website, a phone or a job title exactly when the contact has
    one that is not "N/A", the phone and the job title falling back on the
    [Contact_Phone] and [Contact_Title] keys; each of these values is the
    stripped text of the contact's. *)
Theorem prepare_contact_properties_fields (contact_data : gmap string value) :
  let get key := row_get contact_data key VNone in
  let text key := Some (HubSpotAPI.str_strip rt (get key)) in
  ∃ properties,
    HubSpotAPI._prepare_contact_properties rt format_0f float_of_str dart
      contact_data = Ok properties ∧
    properties !! "hs_lead_status" = Some "NEW" ∧
    properties !! "lifecyclestage" = Some "lead" ∧
    is_Some (properties !! "hs_content_membership_notes") ∧
    properties !! "email"
      = (if truthy (get "email") then text "email" else None) ∧
    properties !! "company"
      = (if HubSpotFormatter.present (get "company") then text "company"
         else None) ∧
    properties !! "website"
      = (if HubSpotFormatter.present (get "website") then text "website"
         else None) ∧
    properties !! "phone"
      = (if HubSpotFormatter.present (get "phone") then text "phone"
         else if HubSpotFormatter.present (get "Contact_Phone")
         then text "Contact_Phone" else None) ∧
    properties !! "jobtitle"
      = (if HubSpotFormatter.present (get "jobtitle") then text "jobtitle"
         else if HubSpotFormatter.present (get "Contact_Title")
         then text "Contact_Title" else None).
Proof.
  intros get text.
  destruct (prepare_properties contact_data)
    as (properties & HP & Hs & Hl & Hn & He & Hc & Hw & Hp & Hj).
  exists properties. split; [done |]. split; [done |]. split; [done |].
  split; [by eexists |]. done.
Qed.

Lemma inject_Z_truthy (z : Z) : truthy (VNum (inject_Z z)) = negb (z =? 0)%Z.
Proof.
  unfold truthy, Qeq_bool, inject_Z. simpl. f_equal.
  rewrite Z.mul_1_r. reflexivity.
Qed.

Lemma inject_Z_le_1 (z : Z) : Qle_bool (inject_Z z) 1 = (z <=? 1)%Z.
Proof. unfold Qle_bool, inject_Z. simpl. by rewrite Z.mul_1_r. Qed.

Lemma as_dict_lookups (c : HubSpotFormatter.Contact) :
  HubSpotAPI.as_dict c !! "email" = Some (HubSpotFormatter.email c) ∧
  HubSpotAPI.as_dict c !! "company" = Some (HubSpotFormatter.company c) ∧
  HubSpotAPI.as_dict c !! "ai_lead_score"
    = Some (VNum (inject_Z (HubSpotFormatter.ai_lead_score c))) ∧
  HubSpotAPI.as_dict c !! "lead_priority"
    = Some (VStr (HubSpotFormatter.lead_priority c)) ∧
  HubSpotAPI.as_dict c !! "category" = None.
Proof.
  unfold HubSpotAPI.as_dict.
  repeat split; repeat (rewrite lookup_insert_ne by done);
    first [apply lookup_insert_eq | apply lookup_empty].
Qed.

Lemma format_contact_priority_level (row : gmap string value)
    (c : HubSpotFormatter.Contact) :
  HubSpotFormatter._format_contact rt row = Ok c →
  HubSpotFormatter.lead_priority c ≠ "".
Proof.
  intros H%format_contact_priority.
  unfold HubSpotFormatter._get_priority_level in H.
  apply bind_Ok_inv in H as (hot & _ & H). destruct hot.
  - injection H as <-. done.
  - apply bind_Ok_inv in H as (warm & _ & H).
    destruct warm; injection H as <-; done.
Qed.

(** X22: what HubSpot is told about a contact that [_format_contact] built.
    The notes are, in this order: the score line unless the score is 0,
    showing the score times 100 if it is at most 1 and the score itself
    otherwise; the priority line; the date; the source.  There is never a
    category line: the formatter files the category under
    [lead_quality_category], and [_prepare_contact_properties] looks for
    [category]. *)
Theorem exported_contact_notes (row : gmap string value)
    (c : HubSpotFormatter.Contact) :
  HubSpotFormatter._format_contact rt row = Ok c →
  let score := HubSpotFormatter.ai_lead_score c in
  ∃ properties,
    HubSpotAPI._prepare_contact_properties rt format_0f float_of_str dart
      (HubSpotAPI.as_dict c) = Ok properties ∧
    properties !! "hs_content_membership_notes"
    = Some (String.concat HubSpotAPI.newline
              ((if (score =? 0)%Z then []
                else [HubSpotAPI.score_line format_0f dart
                        (Some (if (score <=? 1)%Z then (inject_Z score * 100)%Q
                               else inject_Z score))])
               ++ ["Priority: " +:+ HubSpotFormatter.lead_priority c;
                   "Enhanced: " +:+ today rt;
                   "Source: SaaSSquatch + AI Enhancement"])%list).
Proof.
  intros Hprio%format_contact_priority_level score.
  destruct (prepare_properties (HubSpotAPI.as_dict c))
    as (properties & HP & _ & _ & Hn & _).
  exists properties. split; [done |]. rewrite Hn. clear Hn HP.
  destruct (as_dict_lookups c) as (_ & _ & Hscore & Hp & Hcat).
  unfold row_get. rewrite Hscore, Hp, Hcat. simpl default.
  rewrite inject_Z_truthy. fold score.
  change (truthy VNone) with false. cbv iota.
  assert (truthy (VStr (HubSpotFormatter.lead_priority c)) = true) as ->.
  { simpl. apply negb_true_iff. by apply String.eqb_neq. }
  unfold HubSpotAPI.score_note. rewrite inject_Z_le_1. fold score.
  f_equal. f_equal.
  destruct (score =? 0)%Z; simpl; by rewrite <- ?app_assoc.
Qed.

End Properties_of_prepare.

(** ** The upload *)

Section Properties_of_upload.

Context (rt : Runtime) (format_0f : Q → string)
  (float_of_str : string → option (option Q)) (dart : string)
  (str_of_exn : exn → string) (create : nat → gmap string string → HubSpotAPI.Response).

Lemma upload_one_step (results : HubSpotAPI.Results) (requests : nat)
    (contact_data : gmap string value) :
  let st := (HubSpotAPI.upload_one rt format_0f float_of_str dart str_of_exn create) (results, requests) contact_data in
  HubSpotAPI.total_contacts st.1 = HubSpotAPI.total_contacts results ∧
  (HubSpotAPI.successful st.1 + HubSpotAPI.failed st.1
   = HubSpotAPI.successful results + HubSpotAPI.failed results + 1)%nat ∧
  (length (HubSpotAPI.errors st.1) + HubSpotAPI.failed results
   = length (HubSpotAPI.errors results) + HubSpotAPI.failed st.1)%nat ∧
  (length (HubSpotAPI.created_contacts st.1) + HubSpotAPI.successful results
   = length (HubSpotAPI.created_contacts results) + HubSpotAPI.successful st.1)%nat ∧
  (st.2 + HubSpotAPI.successful results
   >= requests + HubSpotAPI.successful st.1)%nat ∧
  (st.2 <= requests + 1)%nat ∧ (requests <= st.2)%nat.
Proof.
  unfold HubSpotAPI.upload_one.
  destruct (HubSpotAPI._prepare_contact_properties _ _ _ _ _) as [properties|e].
  - destruct (negb _).
    + simpl. rewrite length_app. simpl. lia.
    + destruct (create requests properties) as [id|msg|msg]; simpl;
        rewrite length_app; simpl; lia.
  - simpl. rewrite length_app. simpl. lia.
Qed.

Lemma upload_fold (contacts_data : list (gmap string value)) :
  ∀ st : HubSpotAPI.Results * nat,
  let st' := fold_left (HubSpotAPI.upload_one rt format_0f float_of_str dart str_of_exn create) contacts_data st in
  HubSpotAPI.total_contacts st'.1 = HubSpotAPI.total_contacts st.1 ∧
  (HubSpotAPI.successful st'.1 + HubSpotAPI.failed st'.1
   = HubSpotAPI.successful st.1 + HubSpotAPI.failed st.1
     + length contacts_data)%nat ∧
  (length (HubSpotAPI.errors st'.1) + HubSpotAPI.failed st.1
   = length (HubSpotAPI.errors st.1) + HubSpotAPI.failed st'.1)%nat ∧
  (length (HubSpotAPI.created_contacts st'.1) + HubSpotAPI.successful st.1
   = length (HubSpotAPI.created_contacts st.1) + HubSpotAPI.successful st'.1)%nat ∧
  (st'.2 + HubSpotAPI.successful st.1 >= st.2 + HubSpotAPI.successful st'.1)%nat ∧
  (st'.2 <= st.2 + length contacts_data)%nat.
Proof.
  induction contacts_data as [|d ds IH]; intros [results requests]; simpl.
  - lia.
  - pose proof (upload_one_step results requests d) as H. simpl in H.
    specialize (IH ((HubSpotAPI.upload_one rt format_0f float_of_str dart str_of_exn create) (results, requests) d)). simpl in IH. lia.
Qed.

Lemma batches_loop_fold (contacts_data : list (gmap string value))
    (batch_size : nat) :
  (0 < batch_size)%nat →
  ∀ fuel i st, (length contacts_data - i <= fuel)%nat →
  HubSpotAPI.batches_loop rt format_0f float_of_str dart str_of_exn create
    fuel i contacts_data batch_size st
  = fold_left (HubSpotAPI.upload_one rt format_0f float_of_str dart str_of_exn create) (drop i contacts_data) st.
Proof.
  intros Hb. induction fuel as [|fuel IH]; intros i st Hfuel; simpl.
  - rewrite drop_ge by lia. done.
  - destruct (length contacts_data <=? i)%nat eqn:E.
    + apply Nat.leb_le in E. by rewrite drop_ge.
    + apply Nat.leb_gt in E. rewrite IH by lia.
      rewrite <- fold_left_app. f_equal.
      rewrite <- (take_drop batch_size (drop i contacts_data)) at 2.
      by rewrite drop_drop.
Qed.

(** X23: the accounts of [upload_contacts].  With a positive batch size
    every contact is counted once, as successful or as failed; there is one
    error message per failure and one record per created contact; the
    number of requests sent to HubSpot lies between the number of successes
    and the number of contacts; and the batch size does not change the
    result.  A batch size of zero raises [ValueError] before anything is
    sent, a negative one uploads nothing. *)
Theorem upload_contacts_accounts (contacts_data : list (gmap string value))
    (batch_size : Z) :
  ((0 < batch_size)%Z →
   ∃ results requests,
     (HubSpotAPI.upload_contacts rt format_0f float_of_str dart str_of_exn
     create) contacts_data batch_size = Ok (results, requests) ∧
     (HubSpotAPI.upload_contacts rt format_0f float_of_str dart str_of_exn
     create) contacts_data 1 = Ok (results, requests) ∧
     HubSpotAPI.total_contacts results = length contacts_data ∧
     (HubSpotAPI.successful results + HubSpotAPI.failed results
      = length contacts_data)%nat ∧
     length (HubSpotAPI.errors results) = HubSpotAPI.failed results ∧
     length (HubSpotAPI.created_contacts results)
     = HubSpotAPI.successful results ∧
     (HubSpotAPI.successful results <= requests <= length contacts_data)%nat) ∧
  (HubSpotAPI.upload_contacts rt format_0f float_of_str dart str_of_exn
     create) contacts_data 0
  = Raise (ValueError "range() arg 3 must not be zero") ∧
  ((batch_size < 0)%Z →
   ∃ results,
     (HubSpotAPI.upload_contacts rt format_0f float_of_str dart str_of_exn
     create) contacts_data batch_size = Ok (results, 0%nat) ∧
     HubSpotAPI.successful results = 0%nat ∧ HubSpotAPI.failed results = 0%nat).
Proof.
  split; [| split].
  - intros Hb. unfold HubSpotAPI.upload_contacts.
    destruct (batch_size =? 0)%Z eqn:E0; [lia |].
    destruct (batch_size <? 0)%Z eqn:E1; [lia |]. simpl.
    rewrite !batches_loop_fold by lia. rewrite drop_0.
    set (st0 := ({| HubSpotAPI.total_contacts := length contacts_data;
                    HubSpotAPI.successful := 0; HubSpotAPI.failed := 0;
                    HubSpotAPI.errors := [];
                    HubSpotAPI.created_contacts := [] |}, 0%nat)).
    pose proof (upload_fold contacts_data st0) as H. simpl in H.
    destruct (fold_left (HubSpotAPI.upload_one rt format_0f float_of_str dart str_of_exn create) contacts_data st0) as [results requests].
    simpl in H. exists results, requests. repeat split; lia.
  - reflexivity.
  - intros Hb. unfold HubSpotAPI.upload_contacts.
    destruct (batch_size =? 0)%Z eqn:E0; [lia |].
    destruct (batch_size <? 0)%Z eqn:E1; [| lia].
    by eexists.
Qed.

Lemma blank_na_absent (v : value) :
  HubSpotFormatter.present v = false → truthy (HubSpotFormatter.blank_na v) = false.
Proof.
  unfold HubSpotFormatter.present, HubSpotFormatter.blank_na.
  destruct v as [| |s|q]; simpl; try done.
  - destruct (String.eqb s "N/A"); simpl; [done |]. by rewrite andb_true_r.
  - by rewrite andb_true_r.
Qed.

Lemma upload_one_no_email (results : HubSpotAPI.Results) (requests : nat)
    (contact_data : gmap string value) :
  truthy (row_get contact_data "email" VNone) = false →
  HubSpotAPI.upload_one rt format_0f float_of_str dart str_of_exn create
    (results, requests) contact_data
  = (HubSpotAPI.record_failure results
       ("Contact "
        +:+ HubSpotFormatter.py_str rt
              (row_get contact_data "company" (VStr "Unknown"))
        +:+ ": No email address"),
     requests).
Proof.
  intros He. unfold HubSpotAPI.upload_one.
  destruct (prepare_properties rt format_0f float_of_str dart contact_data)
    as (properties & -> & _ & _ & _ & Hemail & _).
  cbv zeta in Hemail. rewrite He in Hemail. by rewrite Hemail.
Qed.

Lemma upload_fold_no_email (cs : list HubSpotFormatter.Contact) :
  Forall (fun c => truthy (HubSpotFormatter.email c) = false) cs →
  ∀ results requests,
  ∃ results',
    fold_left
      (HubSpotAPI.upload_one rt format_0f float_of_str dart str_of_exn create)
      (HubSpotAPI.as_dict <$> cs) (results, requests) = (results', requests) ∧
    HubSpotAPI.successful results' = HubSpotAPI.successful results ∧
    HubSpotAPI.failed results' = (HubSpotAPI.failed results + length cs)%nat ∧
    HubSpotAPI.created_contacts results' = HubSpotAPI.created_contacts results ∧
    HubSpotAPI.errors results'
    = (HubSpotAPI.errors results
       ++ ((fun c => "Contact "
                     +:+ HubSpotFormatter.py_str rt (HubSpotFormatter.company c)
                     +:+ ": No email address") <$> cs))%list.
Proof.
  induction 1 as [|c cs Hc _ IH]; intros results requests.
  - exists results. rewrite app_nil_r. simpl. repeat split; lia.
  - rewrite fmap_cons. cbn [fold_left]. rewrite upload_one_no_email.
    2:{ unfold row_get, HubSpotAPI.as_dict. by rewrite lookup_insert_eq. }
    destruct (IH (HubSpotAPI.record_failure results
                    ("Contact "
                     +:+ HubSpotFormatter.py_str rt
                           (row_get (HubSpotAPI.as_dict c) "company"
                              (VStr "Unknown"))
                     +:+ ": No email address")) requests)
      as (results' & -> & Hs & Hf & Hcr & He).
    exists results'. split; [done |]. cbn [HubSpotAPI.record_failure
      HubSpotAPI.successful HubSpotAPI.failed HubSpotAPI.errors
      HubSpotAPI.created_contacts length] in *.
    split; [done |]. split; [lia |]. split; [done |].
    rewrite He, <- app_assoc, fmap_cons. cbn [app].
    destruct (as_dict_lookups c) as (_ & Hcompany & _).
    unfold row_get. by rewrite Hcompany.
Qed.

Lemma upload_one_with_email (results : HubSpotAPI.Results) (requests : nat)
    (contact_data : gmap string value) (address : string) :
  truthy (row_get contact_data "email" VNone) = true →
  HubSpotAPI.str_strip rt (row_get contact_data "email" VNone) = address →
  address ≠ "" →
  ∃ properties,
    HubSpotAPI._prepare_contact_properties rt format_0f float_of_str dart
      contact_data = Ok properties ∧
    properties !! "email" = Some address ∧
    (HubSpotAPI.upload_one rt format_0f float_of_str dart str_of_exn create
       (results, requests) contact_data).2 = S requests.
Proof.
  intros He Hs Hne. unfold HubSpotAPI.upload_one.
  destruct (prepare_properties rt format_0f float_of_str dart contact_data)
    as (properties & -> & _ & _ & _ & Hemail & _).
  cbv zeta in Hemail. rewrite He, Hs in Hemail.
  exists properties. split; [done |]. split; [done |].
  rewrite Hemail. unfold HubSpotAPI.truthy_str.
  apply String.eqb_neq in Hne. rewrite Hne.
  cbn [negb]. by destruct (create requests properties).
Qed.

Lemma as_dict_email (c : HubSpotFormatter.Contact) :
  row_get (HubSpotAPI.as_dict c) "email" VNone = HubSpotFormatter.email c.
Proof. unfold row_get, HubSpotAPI.as_dict. by rewrite lookup_insert_eq. Qed.

(** X24: what the upload does with the leads that have no e-mail address
    depends on how the table marks the empty cell.  Where every e-mail cell
    of the table is absent, [None], the empty string or "N/A", every contact
    that [format_for_hubspot] returns is refused by [upload_contacts] with
    the message "No email address": nothing is created, no request is sent,
    and every contact is counted as failed.  A row whose e-mail cell is NaN,
    which is what an empty cell of a loaded file holds, is not refused: it is
    exported, the properties of its contact carry the e-mail address "nan",
    and its upload sends one request to HubSpot. *)
Theorem upload_refuses_phone_only (df : DataFrame)
    (contacts : list HubSpotFormatter.Contact) (summary : HubSpotFormatter.Summary)
    (batch_size : Z) :
  HubSpotFormatter.format_for_hubspot rt df = Ok (contacts, summary) →
  (0 < batch_size)%Z →
  (Forall (fun row => HubSpotFormatter.present (Spec.field row "Contact_Email")
                      = false) (rows df) →
   ∃ results,
     HubSpotAPI.upload_contacts rt format_0f float_of_str dart str_of_exn create
       (HubSpotAPI.as_dict <$> contacts) batch_size = Ok (results, 0%nat) ∧
     HubSpotAPI.successful results = 0%nat ∧
     HubSpotAPI.failed results = length contacts ∧
     HubSpotAPI.created_contacts results = [] ∧
     HubSpotAPI.errors results
     = (fun c => "Contact "
                 +:+ HubSpotFormatter.py_str rt (HubSpotFormatter.company c)
                 +:+ ": No email address") <$> contacts) ∧
  (∀ row, row ∈ rows df → Spec.field row "Contact_Email" = VNaN →
   ∃ c properties,
     c ∈ contacts ∧
     HubSpotFormatter._format_contact rt row = Ok c ∧
     HubSpotAPI._prepare_contact_properties rt format_0f float_of_str dart
       (HubSpotAPI.as_dict c) = Ok properties ∧
     properties !! "email" = Some "nan" ∧
     ∀ results requests,
       (HubSpotAPI.upload_one rt format_0f float_of_str dart str_of_exn create
          (results, requests) (HubSpotAPI.as_dict c)).2 = S requests).
Proof.
  intros Hfmt Hb.
  unfold HubSpotFormatter.format_for_hubspot in Hfmt.
  apply bind_Ok_inv in Hfmt as (cs & Hloop & [= <- _]).
  apply contacts_loop_filter in Hloop as (cs' & -> & Hcs). rewrite app_nil_l.
  split.
  - intros Hrows.
    assert (Forall (fun c => truthy (HubSpotFormatter.email c) = false) cs') as Hno.
    { apply Forall_forall. intros c Hin.
      apply list_elem_of_lookup in Hin as [j Hj].
      destruct (Forall2_lookup_r _ _ _ _ _ Hcs Hj) as (row & Hrow & Hc).
      apply format_contact_fields in Hc as (-> & _).
      apply blank_na_absent.
      apply list_elem_of_lookup_2, list_elem_of_In, filter_In in Hrow as [Hrow _].
      rewrite Forall_forall in Hrows. apply Hrows. by apply list_elem_of_In. }
    unfold HubSpotAPI.upload_contacts.
    destruct (batch_size =? 0)%Z eqn:E0; [lia |].
    destruct (batch_size <? 0)%Z eqn:E1; [lia |].
    rewrite batches_loop_fold by lia. rewrite drop_0.
    destruct (upload_fold_no_email cs' Hno
                {| HubSpotAPI.total_contacts := length (HubSpotAPI.as_dict <$> cs');
                   HubSpotAPI.successful := 0; HubSpotAPI.failed := 0;
                   HubSpotAPI.errors := []; HubSpotAPI.created_contacts := [] |}
                0%nat) as (results & -> & Hs & Hf & Hcr & He).
    exists results. by repeat split.
  - intros row Hin Hnan.
    assert (row ∈ List.filter HubSpotFormatter._has_contact_info (rows df)) as Hkept.
    { apply list_elem_of_In, filter_In. split; [by apply list_elem_of_In |].
      unfold HubSpotFormatter._has_contact_info. unfold Spec.field in Hnan.
      by rewrite Hnan. }
    apply list_elem_of_lookup in Hkept as [j Hj].
    destruct (Forall2_lookup_l _ _ _ _ _ Hcs Hj) as (c & Hc & Hfc).
    pose proof (format_contact_fields rt row c Hfc) as (He & _).
    unfold Spec.field in Hnan. rewrite Hnan in He.
    destruct (upload_one_with_email
                {| HubSpotAPI.total_contacts := 0;
                   HubSpotAPI.successful := 0; HubSpotAPI.failed := 0;
                   HubSpotAPI.errors := []; HubSpotAPI.created_contacts := [] |}
                0%nat (HubSpotAPI.as_dict c) "nan")
      as (properties & Hp & Hemail & _).
    { by rewrite as_dict_email, He. }
    { rewrite as_dict_email, He. reflexivity. }
    { done. }
    exists c, properties. split; [by eapply list_elem_of_lookup_2 |].
    split; [done |]. split; [done |]. split; [done |].
    intros results requests.
    destruct (upload_one_with_email results requests (HubSpotAPI.as_dict c) "nan")
      as (properties' & _ & _ & Hsent).
    { by rewrite as_dict_email, He. }
    { rewrite as_dict_email, He. reflexivity. }
    { done. }
    exact Hsent.
Qed.

End Properties_of_upload.

(** ** The upload on sample data *)

Lemma exported_contact_notes_witness :
  match HubSpotFormatter._format_contact Examples.plain_runtime
          (Examples.scored Examples.acme 0.9 "Hot Lead") with
  | Ok c =>
      let score := HubSpotFormatter.ai_lead_score c in
      ∃ properties,
        HubSpotAPI._prepare_contact_properties Examples.plain_runtime
          Samples.format_0f Samples.float_of_str Samples.dart
          (HubSpotAPI.as_dict c) = Ok properties ∧
        properties !! "hs_content_membership_notes"
        = Some (String.concat HubSpotAPI.newline
                  ((if (score =? 0)%Z then []
                    else [HubSpotAPI.score_line Samples.format_0f Samples.dart
                            (Some (if (score <=? 1)%Z
                                   then (inject_Z score * 100)%Q
                                   else inject_Z score))])
                   ++ ["Priority: " +:+ HubSpotFormatter.lead_priority c;
                       "Enhanced: " +:+ today Examples.plain_runtime;
                       "Source: SaaSSquatch + AI Enhancement"])%list)
  | Raise _ => False
  end.
Proof.
  destruct (HubSpotFormatter._format_contact Examples.plain_runtime
              (Examples.scored Examples.acme 0.9 "Hot Lead")) as [c|e] eqn:E.
  - exact (exported_contact_notes Examples.plain_runtime Samples.format_0f
             Samples.float_of_str Samples.dart _ c E).
  - vm_compute in E. discriminate.
Defined.

Lemma upload_contacts_accounts_witness :
  ∃ results requests,
    HubSpotAPI.upload_contacts Examples.plain_runtime Samples.format_0f
      Samples.float_of_str Samples.dart Samples.str_of_exn Samples.service
      Samples.three_contacts 2 = Ok (results, requests) ∧
    HubSpotAPI.upload_contacts Examples.plain_runtime Samples.format_0f
      Samples.float_of_str Samples.dart Samples.str_of_exn Samples.service
      Samples.three_contacts 1 = Ok (results, requests) ∧
    HubSpotAPI.total_contacts results = 3%nat ∧
    (HubSpotAPI.successful results + HubSpotAPI.failed results = 3)%nat ∧
    length (HubSpotAPI.errors results) = HubSpotAPI.failed results ∧
    length (HubSpotAPI.created_contacts results)
    = HubSpotAPI.successful results ∧
    (HubSpotAPI.successful results <= requests <= 3)%nat.
Proof.
  destruct (upload_contacts_accounts Examples.plain_runtime Samples.format_0f
              Samples.float_of_str Samples.dart Samples.str_of_exn
              Samples.service Samples.three_contacts 2) as [H _].
  apply H. lia.
Defined.

Lemma upload_refuses_phone_only_witness :
  (match HubSpotFormatter.format_for_hubspot Examples.plain_runtime
           Samples.phone_leads with
   | Ok (contacts, _) =>
       ∃ results,
         HubSpotAPI.upload_contacts Examples.plain_runtime Samples.format_0f
           Samples.float_of_str Samples.dart Samples.str_of_exn Samples.service
           (HubSpotAPI.as_dict <$> contacts) 3 = Ok (results, 0%nat) ∧
         HubSpotAPI.successful results = 0%nat ∧
         HubSpotAPI.failed results = length contacts ∧
         HubSpotAPI.created_contacts results = [] ∧
         HubSpotAPI.errors results
         = (fun c => "Contact "
                     +:+ HubSpotFormatter.py_str Examples.plain_runtime
                           (HubSpotFormatter.company c)
                     +:+ ": No email address") <$> contacts
   | Raise _ => False
   end) ∧
  (match HubSpotFormatter.format_for_hubspot Examples.plain_runtime
           Samples.blank_leads with
   | Ok (contacts, _) =>
       ∃ c properties,
         c ∈ contacts ∧
         HubSpotFormatter._format_contact Examples.plain_runtime
           Samples.blank_email = Ok c ∧
         HubSpotAPI._prepare_contact_properties Examples.plain_runtime
           Samples.format_0f Samples.float_of_str Samples.dart
           (HubSpotAPI.as_dict c) = Ok properties ∧
         properties !! "email" = Some "nan" ∧
         ∀ results requests,
           (HubSpotAPI.upload_one Examples.plain_runtime Samples.format_0f
              Samples.float_of_str Samples.dart Samples.str_of_exn
              Samples.service (results, requests) (HubSpotAPI.as_dict c)).2
           = S requests
   | Raise _ => False
   end).
Proof.
  split.
  - destruct (HubSpotFormatter.format_for_hubspot Examples.plain_runtime
                Samples.phone_leads) as [[contacts summary]|e] eqn:E.
    + destruct (upload_refuses_phone_only Examples.plain_runtime
                  Samples.format_0f Samples.float_of_str Samples.dart
                  Samples.str_of_exn Samples.service Samples.phone_leads
                  contacts summary 3 E) as [H _]; [lia |].
      apply H.
      repeat (apply List.Forall_cons; [reflexivity |]). apply List.Forall_nil.
    + vm_compute in E. discriminate.
  - destruct (HubSpotFormatter.format_for_hubspot Examples.plain_runtime
                Samples.blank_leads) as [[contacts summary]|e] eqn:E.
    + destruct (upload_refuses_phone_only Examples.plain_runtime
                  Samples.format_0f Samples.float_of_str Samples.dart
                  Samples.str_of_exn Samples.service Samples.blank_leads
                  contacts summary 3 E) as [_ H]; [lia |].
      apply (H Samples.blank_email); [| reflexivity].
      apply list_elem_of_here.
    + vm_compute in E. discriminate.
Defined.
